(** * llvmsupport: process execution engine and protected memory regions

  A shallow embedding of the two operating-system facing components of
  the library, [SystemError.cpp] (Execute / Wait, both backends) and
  [Memory.cpp] (allocateMappedMemory / protectMappedMemory /
  releaseMappedMemory, both backends), together with the properties
  their specification states about them.

  The C++ code talks to the operating system through system calls.  The
  embedding keeps every such call visible: a computation runs in a
  [World] that records the calls made so far, in the order they were
  made, and obtains the answer to each call from an oracle [os] that
  may depend on the whole history.  Nothing is assumed about the
  oracle unless a theorem says so. *)

From Stdlib Require Import ZArith List String Bool Lia.
Import ListNotations.
Local Open Scope string_scope.
Local Open Scope list_scope.
Local Open Scope Z_scope.

(** ** Machine integers *)

Module Word.

(** [size_t] and [uintptr_t] on the 64-bit targets the library supports. *)
Definition size_bits : Z := 64.
Definition size_mod : Z := 2 ^ size_bits.
Definition to_size_t (z : Z) : Z := z mod size_mod.

(** [DWORD] and [unsigned]. *)
Definition to_u32 (z : Z) : Z := z mod 2 ^ 32.

(** [int] and [pid_t]: two's complement, 32 bits. *)
Definition to_int (z : Z) : Z := (z + 2 ^ 31) mod 2 ^ 32 - 2 ^ 31.

End Word.

(** ** The operating system as seen by the library *)

Module Sys.

(** The contents of a [posix_spawn_file_actions_t]: what the child is
    to do to its descriptors before the program starts. *)
Inductive FileAction : Type :=
| fa_open (fd : Z) (path : string) (flags mode : Z)
| fa_dup2 (fd newfd : Z).

(** One constructor per system or C library routine the modelled
    functions call.  Arguments are the values the code passes. *)
Inductive Call : Type :=
(* memory, POSIX *)
| c_page_size                                   (* process::get_self()->page_size() *)
| c_open (path : string) (flags mode : Z)
| c_mmap (addr len prot flags fd off : Z)
| c_munmap (addr len : Z)
| c_mprotect (addr len prot : Z)
| c_InvalidateInstructionCache (addr len : Z)
(* memory, Win32 *)
| c_GetSystemInfo
| c_VirtualAlloc (addr len kind protect : Z)
| c_VirtualFree (addr len kind : Z)
| c_VirtualProtect (addr len protect : Z)
| c_FlushInstructionCache (addr len : Z)
(* processes, POSIX *)
| c_access (path : string) (mode : Z)
| c_stat (path : string)
| c_dup2 (oldfd newfd : Z)
| c_close (fd : Z)
| c_posix_spawn_file_actions_init
| c_posix_spawn_file_actions_addopen (fd : Z) (path : string) (flags mode : Z)
| c_posix_spawn_file_actions_adddup2 (fd newfd : Z)
| c_posix_spawn_file_actions_destroy
| c_posix_spawn (path : string) (actions : option (list FileAction))
                (args : list string) (envp : option (list string))
| c_fork
| c_getrlimit (resource : Z)
| c_setrlimit (resource limit : Z)
| c_execve (path : string) (args : list string) (envp : list string)
| c_execv (path : string) (args : list string)
| c__exit (code : Z)
| c_sigaction (signum : Z) (act : Z)
| c_alarm (seconds : Z)
| c_waitpid (pid options : Z)
| c_wait
| c_kill (pid sig : Z)
(* processes, Win32 *)
| c_UTF8ToUTF16 (path : string)
| c_GetFileAttributesW (path : string)
| c_get_osfhandle (fd : Z)
| c_DuplicateHandle (h : Z)
| c_CreateFileA (path : string) (access share disposition attrs : Z)
| c_CloseHandle (h : Z)
| c_fflush (stream : Z)
| c_CreateProcessA (path : string) (args : list string)
                   (envp : option (list string))
                   (hStdInput hStdOutput hStdError : Z)
| c_SetLastError (e : Z)
| c_CreateJobObject
| c_SetInformationJobObject (job limit : Z)
| c_AssignProcessToJobObject (job process : Z)
| c_TerminateProcess (process code : Z)
| c_WaitForSingleObject (h ms : Z)
| c_GetExitCodeProcess (h : Z).

(** What a call hands back: its return value, the values it stores
    through its out-parameters, and the value of [errno] (POSIX) or of
    [GetLastError()] (Win32) once it has returned. *)
Record Reply : Type := mkReply { rv : Z; outs : list Z; err : Z }.

Definition out (i : nat) (r : Reply) : Z := nth i (outs r) 0.

(** The oracle: the reply to a call, given the calls made before it and
    the error value in force when it is made. *)
Definition OS : Type := list Call -> Z -> Call -> Reply.

(** Process state the code can observe.  [trace] is chronological.  The
    three [st_] fields are the function-local [static] variables of
    [allocateMappedMemory]: unset until the declaration is first
    reached, then fixed. *)
Record World : Type := mkWorld {
  trace : list Call;
  errno : Z;
  st_PageSize : option Z;
  st_zero_fd : option Z;
  st_Granularity : option Z
}.

Definition initial : World :=
  {| trace := []; errno := 0; st_PageSize := None;
     st_zero_fd := None; st_Granularity := None |}.

(** Ways in which the running process image stops executing the
    function being modelled. *)
Inductive Halt : Type :=
| Died (msg : string)      (* FatalError::Die, or a failed assert *)
| Exited (code : Z)        (* _exit *)
| Execd                    (* a successful execve / execv *)
| OutOfFuel.               (* the model's loop budget ran out *)

Inductive Res (A : Type) : Type :=
| Ret (a : A)
| Stop (h : Halt).
Arguments Ret {A} a.
Arguments Stop {A} h.

Definition IO (A : Type) : Type := World -> Res A * World.

Definition ret {A} (a : A) : IO A := fun w => (Ret a, w).

Definition bind {A B} (m : IO A) (k : A -> IO B) : IO B :=
  fun w => match m w with
           | (Ret a, w') => k a w'
           | (Stop h, w') => (Stop h, w')
           end.

Definition halt {A} (h : Halt) : IO A := fun w => (Stop h, w).

Definition get_errno : IO Z := fun w => (Ret (errno w), w).

Definition record (c : Call) (e : Z) (w : World) : World :=
  {| trace := trace w ++ [c]; errno := e;
     st_PageSize := st_PageSize w; st_zero_fd := st_zero_fd w;
     st_Granularity := st_Granularity w |}.

(** Perform a call: ask the oracle, log the call, update [errno]. *)
Definition sys (os : OS) (c : Call) : IO Reply :=
  fun w => let r := os (trace w) (errno w) c in (Ret r, record c (err r) w).

(** [SetLastError(e)]: logged, and [e] is what GetLastError() gives next. *)
Definition SetLastError (e : Z) : IO unit :=
  fun w => (Ret tt, record (c_SetLastError e) e w).

Definition result {A} (p : Res A * World) : Res A := fst p.
Definition calls {A} (p : Res A * World) : list Call := trace (snd p).

End Sys.

Import Sys.

Declare Scope sys_scope.
Delimit Scope sys_scope with sys.
Notation "x <- m ;; k" := (bind m (fun x => k))
(at level 61, m at next level, right associativity) : sys_scope.
Notation "m ;;; k" := (bind m (fun _ => k))
(at level 61, right associativity) : sys_scope.
Local Open Scope sys_scope.

(** ** Memory blocks, error codes and permission flags *)

Module Mem.

(** Modelled from the spec: the class [MemoryBlock] of Memory.hpp, a
    header that is not in the source tree; the specification describes a
    memory block as a base address plus a size in bytes. *)
Record MemoryBlock : Type := mkBlock { Address : Z; Size : Z }.

(** Modelled from the spec: the default constructor [MemoryBlock()], also
    of Memory.hpp; the specification calls what it builds the empty
    block, with a null base address and size zero. *)
Definition empty_block : MemoryBlock := {| Address := 0; Size := 0 |}.

Inductive error_category : Type := system_category | generic_category.

(** Modelled from the spec: the class [error_code] of SystemError.hpp, a
    header that is not in the source tree; the specification describes it
    as an error-code/category pair.  SystemError.cpp defines the
    categories. *)
Record error_code : Type := mkEC { value : Z; category : error_category }.

(** Modelled from the spec: [error_code::success()], also of
    SystemError.hpp: the code that reports success, value zero in the
    system category. *)
Definition success : error_code := {| value := 0; category := system_category |}.

Definition error_category_eqb (a b : error_category) : bool :=
  match a, b with
  | system_category, system_category => true
  | generic_category, generic_category => true
  | _, _ => false
  end.

Definition error_code_eqb (a b : error_code) : bool :=
  (value a =? value b) && error_category_eqb (category a) (category b).

(** The enumerators [Memory::MF_READ], [MF_WRITE] and [MF_EXEC].  Their
    values are fixed in Memory.hpp, which is not in the source tree, so
    the development is parametric in them. *)
Record ProtectionFlags : Type := mkMF { MF_READ : Z; MF_WRITE : Z; MF_EXEC : Z }.

(** What the code relies on: each enumerator is a non-empty bit mask and
    no two of them share a bit. *)
Definition independent (MF : ProtectionFlags) : Prop :=
  MF_READ MF <> 0 /\ MF_WRITE MF <> 0 /\ MF_EXEC MF <> 0 /\
  Z.land (MF_READ MF) (MF_WRITE MF) = 0 /\
  Z.land (MF_READ MF) (MF_EXEC MF) = 0 /\
  Z.land (MF_WRITE MF) (MF_EXEC MF) = 0.

(** The values LLVM 3.4, from which the library derives, gives them. *)
Definition llvm_flags : ProtectionFlags :=
  {| MF_READ := 0x1000000; MF_WRITE := 0x2000000; MF_EXEC := 0x4000000 |}.

(** A portable permission set. *)
Record Perm : Type := mkPerm { readable : bool; writable : bool; executable : bool }.

(** [p] allows everything [q] allows. *)
Definition covers (p q : Perm) : bool :=
  implb (readable q) (readable p) &&
  implb (writable q) (writable p) &&
  implb (executable q) (executable p).

Definition has (Flags bit : Z) : bool := negb (Z.land Flags bit =? 0).

(** The permission set a [Flags] argument asks for. *)
Definition requested (MF : ProtectionFlags) (Flags : Z) : Perm :=
  {| readable := has Flags (MF_READ MF);
     writable := has Flags (MF_WRITE MF);
     executable := has Flags (MF_EXEC MF) |}.

Definition read_write : Perm :=
  {| readable := true; writable := true; executable := false |}.

(** Update of the function-local statics. *)
Definition set_PageSize (v : Z) (w : World) : World :=
  {| trace := trace w; errno := errno w; st_PageSize := Some v;
     st_zero_fd := st_zero_fd w; st_Granularity := st_Granularity w |}.

Definition set_zero_fd (v : Z) (w : World) : World :=
  {| trace := trace w; errno := errno w; st_PageSize := st_PageSize w;
     st_zero_fd := Some v; st_Granularity := st_Granularity w |}.

Definition set_Granularity (v : Z) (w : World) : World :=
  {| trace := trace w; errno := errno w; st_PageSize := st_PageSize w;
     st_zero_fd := st_zero_fd w; st_Granularity := Some v |}.

(** [static T x = init;] inside a function: [init] runs the first time
    control passes through the declaration, and never again. *)
Definition static_local (read : World -> option Z) (write : Z -> World -> World)
  (init : IO Z) : IO Z :=
  fun w => match read w with
           | Some v => (Ret v, w)
           | None => match init w with
                     | (Ret v, w') => (Ret v, write v w')
                     | (Stop h, w') => (Stop h, w')
                     end
           end.

End Mem.

Import Mem.

(** ** Memory.cpp, the POSIX backend *)

Module MemUnix.

(** Values from <sys/mman.h>, <fcntl.h> and <errno.h> (Linux). *)
Definition PROT_NONE : Z := 0.
Definition PROT_READ : Z := 1.
Definition PROT_WRITE : Z := 2.
Definition PROT_EXEC : Z := 4.
Definition MAP_PRIVATE : Z := 2.
Definition MAP_ANONYMOUS : Z := 32.
Definition MAP_FAILED : Z := Word.size_mod - 1.   (* (void * ) -1 *)
Definition O_RDWR : Z := 2.
Definition EINVAL : Z := 22.

(** What a [prot] argument of mmap / mprotect allows: one bit each. *)
Definition prot_perm (prot : Z) : Perm :=
  {| readable := has prot PROT_READ;
     writable := has prot PROT_WRITE;
     executable := has prot PROT_EXEC |}.

(** Build-time switches the file tests with the preprocessor. *)
Record Config : Type := mkConfig {
  NEED_DEV_ZERO_FOR_MMAP : bool;
  FreeBSD : bool
}.

Section Backend.

Variable os : OS.
Variable MF : ProtectionFlags.
Variable cfg : Config.

(** [getPosixProtectionFlags]: the [switch] tries its labels in turn;
    the [default] label ends in [FatalError::Die], which does not return. *)
Definition getPosixProtectionFlags (Flags : Z) : IO Z :=
  if Flags =? MF_READ MF then ret PROT_READ
  else if Flags =? MF_WRITE MF then ret PROT_WRITE
  else if Flags =? Z.lor (MF_READ MF) (MF_WRITE MF) then
    ret (Z.lor PROT_READ PROT_WRITE)
  else if Flags =? Z.lor (MF_READ MF) (MF_EXEC MF) then
    ret (Z.lor PROT_READ PROT_EXEC)
  else if Flags =? Z.lor (Z.lor (MF_READ MF) (MF_WRITE MF)) (MF_EXEC MF) then
    ret (Z.lor (Z.lor PROT_READ PROT_WRITE) PROT_EXEC)
  else if Flags =? MF_EXEC MF then
    ret (if FreeBSD cfg then Z.lor PROT_READ PROT_EXEC else PROT_EXEC)
  else halt (Died "Illegal memory protection flag specified!").

(** [Memory::InvalidateInstructionCache]: its body is architecture
    specific assembly; it is kept as one opaque call. *)
Definition InvalidateInstructionCache (Addr Len : Z) : IO unit :=
  sys os (c_InvalidateInstructionCache Addr Len) ;;; ret tt.

(** [static const size_t PageSize = process::get_self()->page_size();] *)
Definition PageSize_static : IO Z :=
  static_local st_PageSize set_PageSize
    (r <- sys os c_page_size ;; ret (Word.to_size_t (rv r))).

(** [static int zero_fd = open("/dev/zero", O_RDWR);] *)
Definition zero_fd_static : IO Z :=
  static_local st_zero_fd set_zero_fd
    (r <- sys os (c_open "/dev/zero" O_RDWR 0) ;; ret (rv r)).

(** [Memory::allocateMappedMemory].  The function calls itself once, with
    a null [NearBlock], when mmap refuses the hinted address; [depth]
    bounds the nesting of such calls.  The result pairs the block
    returned with the final value of the out-parameter [EC]. *)
Fixpoint allocateMappedMemory_rec (depth : nat) (NumBytes : Z)
  (NearBlock : option MemoryBlock) (PFlags : Z) : IO (MemoryBlock * error_code) :=
  (* EC = error_code::success(); *)
  if NumBytes =? 0 then ret (empty_block, success) else
  PageSize <- PageSize_static ;;
  let NumPages := Word.to_size_t (NumBytes + PageSize - 1) / PageSize in
  let with_fd (fd : Z) : IO (MemoryBlock * error_code) :=
    let MMFlags := Z.lor MAP_PRIVATE MAP_ANONYMOUS in
    Protect <- getPosixProtectionFlags PFlags ;;
    let Start0 := match NearBlock with
                  | Some nb => Word.to_size_t (Address nb + Size nb)
                  | None => 0
                  end in
    let Start := if negb (Start0 =? 0) && negb (Start0 mod PageSize =? 0)
                 then Word.to_size_t (Start0 + (PageSize - Start0 mod PageSize))
                 else Start0 in
    r <- sys os (c_mmap Start (Word.to_size_t (PageSize * NumPages))
                        Protect MMFlags fd 0) ;;
    let Addr := rv r in
    if Addr =? MAP_FAILED then
      match NearBlock with
      | Some _ =>                                (* Try again without a near hint *)
          match depth with
          | S d => allocateMappedMemory_rec d NumBytes None PFlags
          | O => halt OutOfFuel
          end
      | None =>
          e <- get_errno ;;
          ret (empty_block, mkEC e system_category)
      end
    else
      let Result := {| Address := Addr;
                       Size := Word.to_size_t (NumPages * PageSize) |} in
      (if has PFlags (MF_EXEC MF)
       then InvalidateInstructionCache (Address Result) (Size Result)
       else ret tt) ;;;
      ret (Result, success) in
  if NEED_DEV_ZERO_FOR_MMAP cfg then
    zero_fd <- zero_fd_static ;;
    if zero_fd =? -1 then
      e <- get_errno ;;
      ret (empty_block, mkEC e system_category)
    else with_fd zero_fd
  else with_fd (-1).

Definition allocateMappedMemory : Z -> option MemoryBlock -> Z ->
  IO (MemoryBlock * error_code) :=
  allocateMappedMemory_rec 1.

(** [Memory::releaseMappedMemory].  [M] is passed by reference; the
    result pairs the error code with the block as the caller sees it
    afterwards. *)
Definition releaseMappedMemory (M : MemoryBlock) : IO (error_code * MemoryBlock) :=
  if (Address M =? 0) || (Size M =? 0) then ret (success, M) else
  r <- sys os (c_munmap (Address M) (Size M)) ;;
  if negb (0 =? rv r) then
    e <- get_errno ;;
    ret (mkEC e system_category, M)
  else
    ret (success, {| Address := 0; Size := 0 |}).

(** [Memory::protectMappedMemory]. *)
Definition protectMappedMemory (M : MemoryBlock) (Flags : Z) : IO error_code :=
  if (Address M =? 0) || (Size M =? 0) then ret success else
  if Flags =? 0 then ret (mkEC EINVAL generic_category) else
  Protect <- getPosixProtectionFlags Flags ;;
  r <- sys os (c_mprotect (Address M) (Size M) Protect) ;;
  if negb (rv r =? 0) then
    e <- get_errno ;;
    ret (mkEC e system_category)
  else
    (if has Flags (MF_EXEC MF)
     then InvalidateInstructionCache (Address M) (Size M)
     else ret tt) ;;;
    ret success.

End Backend.

End MemUnix.

(** ** Memory.cpp, the Win32 backend *)

Module MemWin32.

(** Values from <winnt.h>. *)
Definition PAGE_NOACCESS : Z := 0x01.
Definition PAGE_READONLY : Z := 0x02.
Definition PAGE_READWRITE : Z := 0x04.
Definition PAGE_EXECUTE : Z := 0x10.
Definition PAGE_EXECUTE_READ : Z := 0x20.
Definition PAGE_EXECUTE_READWRITE : Z := 0x40.
Definition MEM_COMMIT : Z := 0x1000.
Definition MEM_RESERVE : Z := 0x2000.
Definition MEM_RELEASE : Z := 0x8000.

(** What each page protection constant allows.  The constants are an
    enumeration, not a bit set: there is none for writing without
    reading. *)
Definition page_perm (protect : Z) : Perm :=
  if protect =? PAGE_READONLY then mkPerm true false false
  else if protect =? PAGE_READWRITE then mkPerm true true false
  else if protect =? PAGE_EXECUTE then mkPerm false false true
  else if protect =? PAGE_EXECUTE_READ then mkPerm true false true
  else if protect =? PAGE_EXECUTE_READWRITE then mkPerm true true true
  else mkPerm false false false.

Section Backend.

Variable os : OS.
Variable MF : ProtectionFlags.

(** [getWindowsProtectionFlags]. *)
Definition getWindowsProtectionFlags (Flags : Z) : IO Z :=
  if Flags =? MF_READ MF then ret PAGE_READONLY
  else if Flags =? MF_WRITE MF then
    (* Note: PAGE_WRITE is not supported by VirtualProtect *)
    ret PAGE_READWRITE
  else if Flags =? Z.lor (MF_READ MF) (MF_WRITE MF) then ret PAGE_READWRITE
  else if Flags =? Z.lor (MF_READ MF) (MF_EXEC MF) then ret PAGE_EXECUTE_READ
  else if Flags =? Z.lor (Z.lor (MF_READ MF) (MF_WRITE MF)) (MF_EXEC MF) then
    ret PAGE_EXECUTE_READWRITE
  else if Flags =? MF_EXEC MF then ret PAGE_EXECUTE
  else halt (Died "Illegal memory protection flag specified!").

(** [getAllocationGranularity]: GetSystemInfo stores [dwPageSize] and
    [dwAllocationGranularity]; the larger of the two is returned. *)
Definition getAllocationGranularity : IO Z :=
  Info <- sys os c_GetSystemInfo ;;
  let dwPageSize := out 0 Info in
  let dwAllocationGranularity := out 1 Info in
  if dwAllocationGranularity <? dwPageSize
  then ret dwPageSize
  else ret dwAllocationGranularity.

(** [static const size_t Granularity = getAllocationGranularity();] *)
Definition Granularity_static : IO Z :=
  static_local st_Granularity set_Granularity getAllocationGranularity.

(** [Memory::InvalidateInstructionCache]. *)
Definition InvalidateInstructionCache (Addr Len : Z) : IO unit :=
  sys os (c_FlushInstructionCache Addr Len) ;;; ret tt.

(** [Memory::allocateMappedMemory]; [depth] as on the POSIX side. *)
Fixpoint allocateMappedMemory_rec (depth : nat) (NumBytes : Z)
  (NearBlock : option MemoryBlock) (Flags : Z) : IO (MemoryBlock * error_code) :=
  (* EC = error_code::success(); *)
  if NumBytes =? 0 then ret (empty_block, success) else
  Granularity <- Granularity_static ;;
  let NumBlocks := Word.to_size_t (NumBytes + Granularity - 1) / Granularity in
  let Start0 := match NearBlock with
                | Some nb => Word.to_size_t (Address nb + Size nb)
                | None => 0
                end in
  let Start := if negb (Start0 =? 0) && negb (Start0 mod Granularity =? 0)
               then Word.to_size_t (Start0 + (Granularity - Start0 mod Granularity))
               else Start0 in
  Protect <- getWindowsProtectionFlags Flags ;;
  r <- sys os (c_VirtualAlloc Start (Word.to_size_t (NumBlocks * Granularity))
                              (Z.lor MEM_RESERVE MEM_COMMIT) Protect) ;;
  let PA := rv r in
  if PA =? 0 then
    match NearBlock with
    | Some _ =>                              (* Try again without the NearBlock hint *)
        match depth with
        | S d => allocateMappedMemory_rec d NumBytes None Flags
        | O => halt OutOfFuel
        end
    | None =>
        e <- get_errno ;;                    (* ::GetLastError() *)
        ret (empty_block, mkEC e system_category)
    end
  else
    let Result := {| Address := PA;
                     Size := Word.to_size_t (NumBlocks * Granularity) |} in
    (if has Flags (MF_EXEC MF)
     then InvalidateInstructionCache (Address Result) (Size Result)
     else ret tt) ;;;
    ret (Result, success).

Definition allocateMappedMemory : Z -> option MemoryBlock -> Z ->
  IO (MemoryBlock * error_code) :=
  allocateMappedMemory_rec 1.

(** [Memory::releaseMappedMemory]. *)
Definition releaseMappedMemory (M : MemoryBlock) : IO (error_code * MemoryBlock) :=
  if (Address M =? 0) || (Size M =? 0) then ret (success, M) else
  r <- sys os (c_VirtualFree (Address M) 0 MEM_RELEASE) ;;
  if rv r =? 0 then
    e <- get_errno ;;
    ret (mkEC e system_category, M)
  else
    ret (success, {| Address := 0; Size := 0 |}).

(** [Memory::protectMappedMemory]. *)
Definition protectMappedMemory (M : MemoryBlock) (Flags : Z) : IO error_code :=
  if (Address M =? 0) || (Size M =? 0) then ret success else
  Protect <- getWindowsProtectionFlags Flags ;;
  r <- sys os (c_VirtualProtect (Address M) (Size M) Protect) ;;
  if rv r =? 0 then
    e <- get_errno ;;
    ret (mkEC e system_category)
  else
    (if has Flags (MF_EXEC MF)
     then InvalidateInstructionCache (Address M) (Size M)
     else ret tt) ;;;
    ret success.

End Backend.

End MemWin32.

(** ** SystemError.cpp, the POSIX backend of Execute and Wait *)

Module ProcUnix.

(** Values from <fcntl.h>, <signal.h>, <errno.h>, <unistd.h> and
    <sys/resource.h> (Linux). *)
Definition O_RDONLY : Z := 0.
Definition O_WRONLY : Z := 1.
Definition O_CREAT : Z := 64.
Definition F_OK : Z := 0.
Definition X_OK : Z := 1.
Definition R_OK : Z := 4.
Definition mode_0666 : Z := 438.                     (* 0666 *)
Definition S_IFMT : Z := 61440.                      (* 0170000 *)
Definition S_IFREG : Z := 32768.                     (* 0100000 *)
Definition S_ISREG (m : Z) : bool := Z.land m S_IFMT =? S_IFREG.
Definition ENOENT : Z := 2.
Definition EINTR : Z := 4.
Definition SIGKILL : Z := 9.
Definition SIGALRM : Z := 14.
Definition RLIMIT_DATA : Z := 2.
Definition RLIMIT_RSS : Z := 5.
Definition RLIMIT_AS : Z := 9.

(** The value stored in [Act.sa_handler]: the address of the empty
    function [TimeOutHandler]. *)
Definition TimeOutHandler : Z := 1.

(** What the build and the C library fix: the preprocessor switches the
    file tests, the <sys/wait.h> status macros, and the two message
    tables.  [WCOREDUMP] is optional, as in the source. *)
Record Platform : Type := mkPlatform {
  HAVE_POSIX_SPAWN : bool;
  HAVE_SYS_WAIT_H : bool;
  HAVE_RLIMIT : bool;       (* HAVE_SYS_RESOURCE_H && HAVE_GETRLIMIT && HAVE_SETRLIMIT *)
  HAVE_RLIMIT_RSS : bool;
  HAVE_RLIMIT_AS : bool;
  SANITIZER_BUILD : bool;   (* AKJ_MEMORY_SANITIZER_BUILD || AKJ_ADDRESS_SANITIZER_BUILD *)
  WIFEXITED : Z -> bool;
  WEXITSTATUS : Z -> Z;
  WIFSIGNALED : Z -> bool;
  WTERMSIG : Z -> Z;
  WCOREDUMP : option (Z -> bool);
  strerror : Z -> string;
  strsignal : Z -> string
}.

(** The redirection triple: [None] for a null array, otherwise three
    entries, each [None] for a null pointer. *)
Definition Redirects : Type := option (option string * option string * option string).

Definition is_empty (s : string) : bool :=
  match s with EmptyString => true | _ => false end.

Section Backend.

Variable os : OS.
Variable P : Platform.

(** [sys::StrError(int)]: empty for zero, the C library's text otherwise. *)
Definition StrError (errnum : Z) : string :=
  if errnum =? 0 then EmptyString else strerror P errnum.

(** [MakeErrMsg] of Unix.hpp.  [ErrMsg] is [None] for a null pointer. *)
Definition MakeErrMsg (ErrMsg : option string) (prefix : string) (errnum : Z)
  : IO (bool * option string) :=
  match ErrMsg with
  | None => ret (true, None)
  | Some _ =>
      e <- (if errnum =? -1 then get_errno else ret errnum) ;;
      ret (true, Some (prefix ++ ": " ++ StrError e)%string)
  end.

(** [sys::fs::can_execute] of Path.cpp.  stat stores [st_mode]. *)
Definition can_execute (Path : string) : IO bool :=
  a <- sys os (c_access Path (Z.lor R_OK X_OK)) ;;
  if negb (0 =? rv a) then ret false else
  s <- sys os (c_stat Path) ;;
  if negb (0 =? rv s) then ret false else
  if negb (S_ISREG (out 0 s)) then ret false else
  ret true.

(** [sys::fs::exists(const Twine &, bool &)] of Path.cpp.  The second
    component is the out-parameter: [None] while it has not been
    written. *)
Definition fs_exists (path : string) : IO (error_code * option bool) :=
  r <- sys os (c_access path F_OK) ;;
  if rv r =? -1 then
    e <- get_errno ;;
    if negb (e =? ENOENT) then ret (mkEC e system_category, None)
    else ret (success, Some false)
  else ret (success, Some true).

(** [RedirectIO]: runs in the forked child. *)
Definition RedirectIO (Path : option string) (FD : Z) (ErrMsg : option string)
  : IO (bool * option string) :=
  match Path with
  | None => ret (false, ErrMsg)                               (* Noop *)
  | Some p =>
      let File := if is_empty p then "/dev/null" else p in
      r <- sys os (c_open File (if FD =? 0 then O_RDONLY
                                else Z.lor O_WRONLY O_CREAT) mode_0666) ;;
      let InFD := rv r in
      if InFD =? -1 then
        let what := if FD =? 0 then "input" else "output" in
        m <- MakeErrMsg ErrMsg ("Cannot open file '" ++ File ++ "' for " ++ what)%string
                        (-1) ;;
        ret (true, snd m)
      else
        d <- sys os (c_dup2 InFD FD) ;;
        if rv d =? -1 then
          m <- MakeErrMsg ErrMsg "Cannot dup2" (-1) ;;
          sys os (c_close InFD) ;;;
          ret (true, snd m)
        else
          sys os (c_close InFD) ;;;
          ret (false, ErrMsg)
  end.

(** [RedirectIO_PS]: queues the redirection in the file actions handed
    to posix_spawn.  The third component is the queue afterwards. *)
Definition RedirectIO_PS (Path : option string) (FD : Z) (ErrMsg : option string)
  (FileActions : list FileAction)
  : IO (bool * option string * list FileAction) :=
  match Path with
  | None => ret (false, ErrMsg, FileActions)                  (* Noop *)
  | Some p =>
      let File := if is_empty p then "/dev/null" else p in
      let flags := if FD =? 0 then O_RDONLY else Z.lor O_WRONLY O_CREAT in
      r <- sys os (c_posix_spawn_file_actions_addopen FD File flags mode_0666) ;;
      let Err := rv r in
      if negb (Err =? 0) then
        m <- MakeErrMsg ErrMsg "Cannot dup2" Err ;;
        ret (fst m, snd m, FileActions)
      else ret (false, ErrMsg, FileActions ++ [fa_open FD File flags mode_0666])
  end.

(** [SetMemoryLimits]. *)
Definition SetMemoryLimits (size : Z) : IO unit :=
  if HAVE_RLIMIT P then
    let limit := size * 1048576 in
    sys os (c_getrlimit RLIMIT_DATA) ;;;
    sys os (c_setrlimit RLIMIT_DATA limit) ;;;
    (if HAVE_RLIMIT_RSS P then
       sys os (c_getrlimit RLIMIT_RSS) ;;;
       sys os (c_setrlimit RLIMIT_RSS limit) ;;; ret tt
     else ret tt) ;;;
    (if HAVE_RLIMIT_AS P && negb (SANITIZER_BUILD P) then
       sys os (c_getrlimit RLIMIT_AS) ;;;
       sys os (c_setrlimit RLIMIT_AS limit) ;;; ret tt
     else ret tt)
  else ret tt.

(** The result of [Execute]: the returned flag, the out-parameter
    [*Data] ([None] when [Data] itself is null) and the message. *)
Definition ExecResult : Type := bool * option Z * option string.

(** The fork/exec part of [Execute]. *)
Definition Execute_fork (Data : option Z) (Program : string) (args : list string)
  (envp : option (list string)) (redirects : Redirects) (memoryLimit : Z)
  (ErrMsg : option string) : IO ExecResult :=
  f <- sys os c_fork ;;
  let child := rv f in
  if child =? -1 then
    (* An error occurred:  Return to the caller. *)
    m <- MakeErrMsg ErrMsg "Couldn't fork" (-1) ;;
    ret (false, Data, snd m)
  else if child =? 0 then
    (* Child process: Execute the program. *)
    let exec (ErrMsg : option string) : IO ExecResult :=
      (if negb (memoryLimit =? 0) then SetMemoryLimits memoryLimit else ret tt) ;;;
      x <- match envp with
           | Some env => sys os (c_execve Program args env)
           | None => sys os (c_execv Program args)
           end ;;
      if rv x =? -1 then
        (* If the execve() failed, we should exit. *)
        e <- get_errno ;;
        let code := if e =? ENOENT then 127 else 126 in
        sys os (c__exit code) ;;;
        halt (Exited code)
      else halt Execd in
    match redirects with
    | None => exec ErrMsg
    | Some (r0, r1, r2) =>
        i <- RedirectIO r0 0 ErrMsg ;;
        if fst i then ret (false, Data, snd i) else
        o <- RedirectIO r1 1 (snd i) ;;
        if fst o then ret (false, Data, snd o) else
        match r1, r2 with
        | Some p1, Some p2 =>
            if String.eqb p1 p2 then
              (* If stdout and stderr should go to the same place, redirect
                 stderr to the FD already open for stdout. *)
              d <- sys os (c_dup2 1 2) ;;
              if -1 =? rv d then
                m <- MakeErrMsg (snd o) "Can't redirect stderr to stdout" (-1) ;;
                ret (false, Data, snd m)
              else exec (snd o)
            else
              e <- RedirectIO r2 2 (snd o) ;;
              if fst e then ret (false, Data, snd e) else exec (snd e)
        | _, _ =>
            (* Just redirect stderr *)
            e <- RedirectIO r2 2 (snd o) ;;
            if fst e then ret (false, Data, snd e) else exec (snd e)
        end
    end
  else
    (* Parent process *)
    ret (true, match Data with Some _ => Some child | None => None end, ErrMsg).

(** The posix_spawn part of [Execute]. *)
Definition Execute_posix_spawn (Data : option Z) (Program : string)
  (args : list string) (envp : option (list string)) (redirects : Redirects)
  (ErrMsg : option string) : IO ExecResult :=
  let spawn (FileActions : option (list FileAction)) (ErrMsg : option string)
    : IO ExecResult :=
    (* a null envp is replaced by environ: [None] stands for it *)
    s <- sys os (c_posix_spawn Program FileActions args envp) ;;
    let Err := rv s in
    let PID := out 0 s in
    (match FileActions with
     | Some _ => sys os c_posix_spawn_file_actions_destroy ;;; ret tt
     | None => ret tt
     end) ;;;
    if negb (Err =? 0) then
      m <- MakeErrMsg ErrMsg "posix_spawn failed" Err ;;
      ret (negb (fst m), Data, snd m)
    else
      ret (true, match Data with Some _ => Some PID | None => None end, ErrMsg) in
  match redirects with
  | None => spawn None ErrMsg
  | Some (r0, r1, r2) =>
      sys os c_posix_spawn_file_actions_init ;;;
      (* Redirect stdin/stdout. *)
      i <- RedirectIO_PS r0 0 ErrMsg [] ;;
      let '(bi, Ei, Ai) := i in
      if bi then ret (false, Data, Ei) else
      o <- RedirectIO_PS r1 1 Ei Ai ;;
      let '(bo, Eo, Ao) := o in
      if bo then ret (false, Data, Eo) else
      let just_stderr : IO ExecResult :=
        e <- RedirectIO_PS r2 2 Eo Ao ;;
        let '(be, Ee, Ae) := e in
        if be then ret (false, Data, Ee) else spawn (Some Ae) Ee in
      match r1, r2 with
      | Some p1, Some p2 =>
          if negb (String.eqb p1 p2) then just_stderr
          else
            (* If stdout and stderr should go to the same place, redirect
               stderr to the FD already open for stdout. *)
            d <- sys os (c_posix_spawn_file_actions_adddup2 1 2) ;;
            let Err := rv d in
            if negb (Err =? 0) then
              m <- MakeErrMsg Eo "Can't redirect stderr to stdout" Err ;;
              ret (negb (fst m), Data, snd m)
            else spawn (Some (Ao ++ [fa_dup2 1 2])) Eo
      | _, _ => just_stderr
      end
  end.

(** [Execute]: posix_spawn when the build has it and no memory limit is
    asked for, fork and exec otherwise. *)
Definition Execute (Data : option Z) (Program : string) (args : list string)
  (envp : option (list string)) (redirects : Redirects) (memoryLimit : Z)
  (ErrMsg : option string) : IO ExecResult :=
  if HAVE_POSIX_SPAWN P && (memoryLimit =? 0)
  then Execute_posix_spawn Data Program args envp redirects ErrMsg
  else Execute_fork Data Program args envp redirects memoryLimit ErrMsg.

(** The outcome of the wait loop: either it is left with the child's
    status, or the function returns from inside it. *)
Inductive LoopExit : Type :=
| Reaped (status : Z)
| Return (code : Z) (ErrMsg : option string).

(** The loop [while (waitpid(pid, &status, 0) != child) ...] of [Wait].
    Each iteration that neither returns nor ends the loop calls waitpid
    again; [fuel] bounds the number of waitpid calls. *)
Fixpoint Wait_loop (fuel : nat) (child secondsToWait Old : Z)
  (ErrMsg : option string) : IO LoopExit :=
  match fuel with
  | O => halt OutOfFuel
  | S fuel' =>
      r <- sys os (c_waitpid child 0) ;;
      if rv r =? child then ret (Reaped (out 0 r)) else
      e <- get_errno ;;
      if negb (secondsToWait =? 0) && (e =? EINTR) then
        (* Kill the child. *)
        sys os (c_kill child SIGKILL) ;;;
        (* Turn off the alarm and restore the signal handler *)
        sys os (c_alarm 0) ;;;
        sys os (c_sigaction SIGALRM Old) ;;;
        (* Wait for child to die *)
        x <- sys os c_wait ;;
        m <- (if negb (rv x =? child)
              then MakeErrMsg ErrMsg "Child timed out but wouldn't die" (-1)
              else MakeErrMsg ErrMsg "Child timed out" 0) ;;
        ret (Return (-2) (snd m))                     (* Timeout detected *)
      else if negb (e =? EINTR) then
        m <- MakeErrMsg ErrMsg "Error waiting for child process" (-1) ;;
        ret (Return (-1) (snd m))
      else Wait_loop fuel' child secondsToWait Old ErrMsg
  end.

(** The last part of [Wait]: turn the status word into the result. *)
Definition decode_status (Program : string) (status : Z) (ErrMsg : option string)
  : IO (Z * option string) :=
  let set (msg : string) := match ErrMsg with Some _ => Some msg | None => None end in
  if WIFEXITED P status then
    let result0 := WEXITSTATUS P status in
    result <- (if HAVE_POSIX_SPAWN P && (result0 =? 127) then
                 (* The posix_spawn child process returns 127 on any kind
                    of error; return 126 when the file does exist. *)
                 x <- fs_exists Program ;;
                 if value (fst x) =? 0                (* !exists(...) *)
                 then match snd x with
                      | Some true => ret 126
                      | _ => ret result0
                      end
                 else ret result0
               else ret result0) ;;
    if result =? 127 then ret (-1, set (StrError ENOENT))
    else if result =? 126 then ret (-1, set "Program could not be executed")
    else ret (result, ErrMsg)
  else if WIFSIGNALED P status then
    let name := strsignal P (WTERMSIG P status) in
    let msg := match WCOREDUMP P with
               | Some coredump =>
                   if coredump status then (name ++ " (core dumped)")%string else name
               | None => name
               end in
    ret (-2, set msg)
  else ret (0, ErrMsg).

(** [Wait].  [Data] holds the process id; the function leaves it alone.
    The [assert] on [Data] is taken to be compiled in: a null [Data]
    stops the process. *)
Definition Wait (fuel : nat) (Data : Z) (Program : string) (secondsToWait : Z)
  (ErrMsg : option string) : IO (Z * option string) :=
  if negb (HAVE_SYS_WAIT_H P) then
    ret (-1, match ErrMsg with
             | Some _ => Some "Program::Wait is not implemented on this platform yet!"
             | None => None
             end)
  else
  if Data =? 0 then halt (Died "invalid pid to wait on, process not started?") else
  (* Install a timeout handler. *)
  Old <- (if negb (secondsToWait =? 0) then
            a <- sys os (c_sigaction SIGALRM TimeOutHandler) ;;
            sys os (c_alarm secondsToWait) ;;;
            ret (out 0 a)
          else ret 0) ;;
  (* Parent process: Wait for the child process to terminate. *)
  let child := Word.to_int Data in
  l <- Wait_loop fuel child secondsToWait Old ErrMsg ;;
  match l with
  | Return code E => ret (code, E)
  | Reaped status =>
      (* We exited normally without timeout, so turn off the timer. *)
      (if negb (secondsToWait =? 0) then
         sys os (c_alarm 0) ;;;
         sys os (c_sigaction SIGALRM Old) ;;; ret tt
       else ret tt) ;;;
      decode_status Program status ErrMsg
  end.

(** [sys::ExecuteAndWait], on this backend.  The last component is
    [*ExecutionFailed]; the function is run with a non-null pointer. *)
Definition ExecuteAndWait (fuel : nat) (Program : string) (args : list string)
  (envp : option (list string)) (redirects : Redirects)
  (secondsToWait memoryLimit : Z) (ErrMsg : option string)
  : IO (Z * option string * bool) :=
  x <- Execute (Some 0) Program args envp redirects memoryLimit ErrMsg ;;
  let '(ok, Data, E) := x in
  if ok then
    w <- Wait fuel (match Data with Some d => d | None => 0 end)
              Program secondsToWait E ;;
    ret (fst w, snd w, false)
  else ret (-1, E, true).

End Backend.

End ProcUnix.

(** ** SystemError.cpp, the Win32 backend of Execute and Wait *)

Module ProcWin32.

(** Values from the Windows headers. *)
Definition INVALID_HANDLE_VALUE : Z := -1.
Definition INVALID_FILE_ATTRIBUTES : Z := 0xFFFFFFFF.
Definition INFINITE : Z := 0xFFFFFFFF.
Definition WAIT_TIMEOUT : Z := 258.
Definition GENERIC_READ : Z := 0x80000000.
Definition GENERIC_WRITE : Z := 0x40000000.
Definition FILE_SHARE_READ : Z := 1.
Definition CREATE_ALWAYS : Z := 2.
Definition OPEN_EXISTING : Z := 3.
Definition FILE_ATTRIBUTE_NORMAL : Z := 0x80.

(** [Win32ProcessInfo]. *)
Record Win32ProcessInfo : Type := mkWPI { hProcess : Z; dwProcessId : Z }.

Definition Redirects : Type := ProcUnix.Redirects.

Section Backend.

Variable os : OS.

(** The text FormatMessageA produces for an error value. *)
Variable FormatMessage : Z -> string.

(** [MakeErrMsg] of the Win32 header: the prefix followed by the
    system's text for [GetLastError()]. *)
Definition MakeErrMsg (ErrMsg : option string) (prefix : string)
  : IO (bool * option string) :=
  match ErrMsg with
  | None => ret (true, None)
  | Some _ =>
      e <- get_errno ;;
      ret (true, Some (prefix ++ FormatMessage e)%string)
  end.

(** [sys::fs::can_execute] of Path.cpp, Win32 part: the path converts to
    UTF-16 and has file attributes. *)
Definition can_execute (Path : string) : IO bool :=
  c <- sys os (c_UTF8ToUTF16 Path) ;;
  if negb (rv c =? 0) then ret false else
  a <- sys os (c_GetFileAttributesW Path) ;;
  ret (negb (rv a =? INVALID_FILE_ATTRIBUTES)).

(** [RedirectIO]: the handle the child is to use for stream [fd]. *)
Definition RedirectIO (path : option string) (fd : Z) (ErrMsg : option string)
  : IO (Z * option string) :=
  match path with
  | None =>
      o <- sys os (c_get_osfhandle fd) ;;
      d <- sys os (c_DuplicateHandle (rv o)) ;;
      ret (out 0 d, ErrMsg)
  | Some p =>
      let fname := if ProcUnix.is_empty p then "NUL" else p in
      c <- sys os (c_CreateFileA fname
                     (if negb (fd =? 0) then GENERIC_WRITE else GENERIC_READ)
                     FILE_SHARE_READ
                     (if fd =? 0 then OPEN_EXISTING else CREATE_ALWAYS)
                     FILE_ATTRIBUTE_NORMAL) ;;
      let h := rv c in
      if h =? INVALID_HANDLE_VALUE then
        let what := if negb (fd =? 0) then "input: " else "output: " in
        m <- MakeErrMsg ErrMsg (fname ++ ": Can't open file for " ++ what)%string ;;
        ret (h, snd m)
      else ret (h, ErrMsg)
  end.

(** [ScopedHandle<HandleTraits>::~ScopedHandle] and the closing half of
    its [operator=].  [IsValid] is the one of [CommonHandleTraits] for
    every traits class used here, [JobHandleTraits] included. *)
Definition scoped_close (Handle : Z) : IO unit :=
  if negb (Handle =? INVALID_HANDLE_VALUE)
  then sys os (c_CloseHandle Handle) ;;; ret tt
  else ret tt.

(** The result of [Execute]: the returned flag, [*Data] ([None] when
    [Data] is null, [Some None] while it holds no record) and the
    message. *)
Definition ExecResult : Type := bool * option (option Win32ProcessInfo) * option string.

(** [Execute].  The command line and the environment block are built in
    memory from [args] and [envp] and influence no decision; the call to
    CreateProcessA is logged with the vectors they are built from. *)
Definition Execute (Data : option (option Win32ProcessInfo)) (Program : string)
  (args : list string) (envp : option (list string)) (redirects : Redirects)
  (memoryLimit : Z) (ErrMsg : option string) : IO ExecResult :=
  x <- can_execute Program ;;
  if negb x then
    ret (false, Data, match ErrMsg with
                      | Some _ => Some "program not executable"
                      | None => None
                      end)
  else
  (* Create a child process. *)
  let create (hStdInput hStdOutput hStdError : Z) (ErrMsg : option string)
    : IO ExecResult :=
    sys os (c_fflush 1) ;;;
    sys os (c_fflush 2) ;;;
    p <- sys os (c_CreateProcessA Program args envp
                                  hStdInput hStdOutput hStdError) ;;
    let rc := rv p in
    let pi_hProcess := out 0 p in
    let pi_hThread := out 1 p in
    let pi_dwProcessId := out 2 p in
    err <- get_errno ;;                                  (* GetLastError() *)
    (* Regardless of whether the process got created or not, we are done
       with the handles we created for it to inherit. *)
    sys os (c_CloseHandle hStdInput) ;;;
    sys os (c_CloseHandle hStdOutput) ;;;
    sys os (c_CloseHandle hStdError) ;;;
    (* Now return an error if the process didn't get created. *)
    if rc =? 0 then
      SetLastError err ;;;
      m <- MakeErrMsg ErrMsg ("Couldn't execute program '" ++ Program ++ "'")%string ;;
      ret (false, Data, snd m)
    else
    let Data' := match Data with
                 | Some _ => Some (Some {| hProcess := pi_hProcess;
                                           dwProcessId := pi_dwProcessId |})
                 | None => None
                 end in
    (* ScopedCommonHandle hThread(pi.hThread); ScopedJobHandle hJob; *)
    let hJob0 := 0 in
    (* Assign the process to a job if a memory limit is defined. *)
    if negb (memoryLimit =? 0) then
      j <- sys os c_CreateJobObject ;;
      scoped_close hJob0 ;;;                   (* operator= closes the old handle *)
      let hJob := rv j in
      success <- (if negb (hJob =? INVALID_HANDLE_VALUE) then     (* if (hJob) *)
                    s <- sys os (c_SetInformationJobObject hJob
                                   (Word.to_size_t (memoryLimit * 1048576))) ;;
                    if negb (rv s =? 0) then
                      a <- sys os (c_AssignProcessToJobObject hJob pi_hProcess) ;;
                      ret (negb (rv a =? 0))
                    else ret false
                  else ret false) ;;
      if negb success then
        e <- get_errno ;;
        SetLastError e ;;;
        m <- MakeErrMsg ErrMsg "Unable to set memory limit" ;;
        sys os (c_TerminateProcess pi_hProcess 1) ;;;
        sys os (c_WaitForSingleObject pi_hProcess INFINITE) ;;;
        scoped_close hJob ;;;
        scoped_close pi_hThread ;;;
        ret (false, Data', snd m)
      else
        (* Don't leak the handle if the caller doesn't want it. *)
        (match Data with
         | None => sys os (c_CloseHandle pi_hProcess) ;;; ret tt
         | Some _ => ret tt
         end) ;;;
        scoped_close hJob ;;;
        scoped_close pi_hThread ;;;
        ret (true, Data', ErrMsg)
    else
      (match Data with
       | None => sys os (c_CloseHandle pi_hProcess) ;;; ret tt
       | Some _ => ret tt
       end) ;;;
      scoped_close hJob0 ;;;
      scoped_close pi_hThread ;;;
      ret (true, Data', ErrMsg) in
  match redirects with
  | None => create INVALID_HANDLE_VALUE INVALID_HANDLE_VALUE INVALID_HANDLE_VALUE ErrMsg
  | Some (r0, r1, r2) =>
      i <- RedirectIO r0 0 ErrMsg ;;
      let hStdInput := fst i in
      if hStdInput =? INVALID_HANDLE_VALUE then
        m <- MakeErrMsg (snd i) "can't redirect stdin" ;;
        ret (false, Data, snd m)
      else
      o <- RedirectIO r1 1 (snd i) ;;
      let hStdOutput := fst o in
      if hStdOutput =? INVALID_HANDLE_VALUE then
        sys os (c_CloseHandle hStdInput) ;;;
        m <- MakeErrMsg (snd o) "can't redirect stdout" ;;
        ret (false, Data, snd m)
      else
      let just_stderr : IO ExecResult :=
        e <- RedirectIO r2 2 (snd o) ;;
        let hStdError := fst e in
        if hStdError =? INVALID_HANDLE_VALUE then
          sys os (c_CloseHandle hStdInput) ;;;
          sys os (c_CloseHandle hStdOutput) ;;;
          m <- MakeErrMsg (snd e) "can't redirect stderr" ;;
          ret (false, Data, snd m)
        else create hStdInput hStdOutput hStdError (snd e) in
      match r1, r2 with
      | Some p1, Some p2 =>
          if String.eqb p1 p2 then
            (* If stdout and stderr should go to the same place, redirect
               stderr to the handle already open for stdout. *)
            d <- sys os (c_DuplicateHandle hStdOutput) ;;
            create hStdInput hStdOutput (out 0 d) (snd o)
          else just_stderr
      | _, _ => just_stderr
      end
  end.

(** [WaitAux]. *)
Definition WaitAux (wpi : Win32ProcessInfo) (secondsToWait : Z)
  (ErrMsg : option string) : IO (Z * option string) :=
  (* Wait for the process to terminate. *)
  let hProcess := hProcess wpi in
  let millisecondsToWait :=
    if 0 <? secondsToWait then Word.to_u32 (secondsToWait * 1000) else INFINITE in
  let status_of (ErrMsg : option string) : IO (Z * option string) :=
    (* Get its exit status. *)
    g <- sys os (c_GetExitCodeProcess hProcess) ;;
    let rc := rv g in
    let status := out 0 g in
    err <- get_errno ;;
    if rc =? 0 then
      SetLastError err ;;;
      m <- MakeErrMsg ErrMsg "Failed getting status for program." ;;
      (* -2 indicates a crash or timeout as opposed to failure to execute. *)
      ret (-2, snd m)
    else if status =? 0 then ret (0, ErrMsg)
    (* Pass 10(Warning) and 11(Error) to the callee as negative value. *)
    else if Z.land status 0xBFFF0000 =? 0x80000000 then ret (Word.to_int status, ErrMsg)
    else if negb (Z.land status 0xFF =? 0) then ret (Z.land status 0x7FFFFFFF, ErrMsg)
    else ret (1, ErrMsg) in
  w <- sys os (c_WaitForSingleObject hProcess millisecondsToWait) ;;
  if rv w =? WAIT_TIMEOUT then
    t <- sys os (c_TerminateProcess hProcess 1) ;;
    if rv t =? 0 then
      m <- MakeErrMsg ErrMsg "Failed to terminate timed-out program." ;;
      (* -2 indicates a crash or timeout as opposed to failure to execute. *)
      ret (-2, snd m)
    else
      sys os (c_WaitForSingleObject hProcess INFINITE) ;;;
      status_of ErrMsg
  else status_of ErrMsg.

(** [Wait]: the third component is [Data] afterwards, always null. *)
Definition Wait (Data : Win32ProcessInfo) (Program : string) (secondsToWait : Z)
  (ErrMsg : option string) : IO (Z * option string * option Win32ProcessInfo) :=
  let wpi := Data in
  r <- WaitAux wpi secondsToWait ErrMsg ;;
  sys os (c_CloseHandle (hProcess wpi)) ;;;
  ret (fst r, snd r, None).

End Backend.

End ProcWin32.

(** ** Sample operating systems

    Concrete oracles, used to run the model on examples. *)

Module Sample.

(** A reply that leaves the error value [e] alone. *)
Definition gives (v : Z) (e : Z) : Reply := mkReply v [] e.

(** A system that answers zero to everything. *)
Definition os_zero : OS := fun _ e _ => gives 0 e.

(** Pages of 4096 bytes; mmap refuses every hinted address with ENOMEM
    and maps un-hinted requests at a fixed address; munmap succeeds. *)
Definition os_refuses_hints : OS := fun _ e c =>
  match c with
  | c_page_size => gives 4096 e
  | c_mmap addr _ _ _ _ _ =>
      if addr =? 0 then gives 0x7f0000000000 e
      else mkReply MemUnix.MAP_FAILED [] 12
  | c_GetSystemInfo => mkReply 0 [4096; 65536] e
  | c_VirtualAlloc addr _ _ _ =>
      if addr =? 0 then gives 0x10000 e
      else mkReply 0 [] 487              (* ERROR_INVALID_ADDRESS *)
  | c_VirtualFree _ _ _ => gives 1 e
  | _ => gives 0 e
  end.

Definition no_dev_zero : MemUnix.Config :=
  {| MemUnix.NEED_DEV_ZERO_FOR_MMAP := false; MemUnix.FreeBSD := false |}.

Definition read_write_flags : Z := Z.lor (MF_READ llvm_flags) (MF_WRITE llvm_flags).

End Sample.

(** ** Sample platforms and processes *)

Module SampleProc.

(** The <sys/wait.h> macros of glibc. *)
Definition glibc_WTERMSIG (s : Z) : Z := Z.land s 0x7f.
Definition glibc_WIFEXITED (s : Z) : bool := glibc_WTERMSIG s =? 0.
Definition glibc_WEXITSTATUS (s : Z) : Z := Z.shiftr (Z.land s 0xff00) 8.
Definition glibc_WIFSIGNALED (s : Z) : bool :=
  (0 <? glibc_WTERMSIG s) && (glibc_WTERMSIG s <? 0x7f).
Definition glibc_WCOREDUMP (s : Z) : bool := negb (Z.land s 0x80 =? 0).

Definition sample_strerror (e : Z) : string :=
  if e =? 2 then "No such file or directory"
  else if e =? 4 then "Interrupted system call"
  else if e =? 10 then "No child processes"
  else "Unknown error".

Definition sample_strsignal (s : Z) : string :=
  if s =? 9 then "Killed"
  else if s =? 11 then "Segmentation fault"
  else "Unknown signal".

(** A Linux build; [spawn] says whether HAVE_POSIX_SPAWN is defined. *)
Definition linux (spawn : bool) : ProcUnix.Platform :=
  {| ProcUnix.HAVE_POSIX_SPAWN := spawn;
     ProcUnix.HAVE_SYS_WAIT_H := true;
     ProcUnix.HAVE_RLIMIT := true;
     ProcUnix.HAVE_RLIMIT_RSS := true;
     ProcUnix.HAVE_RLIMIT_AS := true;
     ProcUnix.SANITIZER_BUILD := false;
     ProcUnix.WIFEXITED := glibc_WIFEXITED;
     ProcUnix.WEXITSTATUS := glibc_WEXITSTATUS;
     ProcUnix.WIFSIGNALED := glibc_WIFSIGNALED;
     ProcUnix.WTERMSIG := glibc_WTERMSIG;
     ProcUnix.WCOREDUMP := Some glibc_WCOREDUMP;
     ProcUnix.strerror := sample_strerror;
     ProcUnix.strsignal := sample_strsignal |}.

(** The status word of a child that called [exit(code)]. *)
Definition exited (code : Z) : Z := Z.shiftl code 8.

(** The status word of a child killed by [sig], with or without a core. *)
Definition killed (sig : Z) (core : bool) : Z := if core then sig + 0x80 else sig.

(** The child [pid] has ended with status word [status]; every path
    exists. *)
Definition os_child_ended (pid status : Z) : OS := fun _ e c =>
  match c with
  | c_waitpid _ _ => mkReply pid [status] e
  | c_wait => mkReply pid [status] e
  | _ => mkReply 0 [] e
  end.

(** The first waitpid is interrupted, by the signal [sig]; after that the
    child [pid] has ended with status word [status].  The second output
    of an interrupted waitpid names the signal: the code never reads it. *)
Definition os_interrupted_once (sig pid status : Z) : OS := fun h e c =>
  match c with
  | c_waitpid _ _ =>
      if existsb (fun c' => match c' with c_waitpid _ _ => true | _ => false end) h
      then mkReply pid [status] e
      else mkReply (-1) [0; sig] ProcUnix.EINTR
  | c_wait => mkReply pid [status] e
  | _ => mkReply 0 [] e
  end.


(** Win32: the child outlives the timeout, is terminated with exit code
    1, and that is the exit code the system then reports. *)
Definition os_win32_timeout : OS := fun h e c =>
  match c with
  | c_WaitForSingleObject _ ms =>
      if ms =? ProcWin32.INFINITE then mkReply 0 [] e
      else mkReply ProcWin32.WAIT_TIMEOUT [] e
  | c_TerminateProcess _ _ => mkReply 1 [] e
  | c_GetExitCodeProcess _ => mkReply 1 [1] e
  | _ => mkReply 1 [] e
  end.

Definition sample_FormatMessage (e : Z) : string := "error".

End SampleProc.

(** ** A sample child process *)

Module SampleChild.

(** The process is the forked child: fork returns 0, open returns
    descriptor 3, and exec succeeds. *)
Definition os_in_child : OS := fun _ e c =>
  match c with
  | c_fork => mkReply 0 [] e
  | c_open _ _ _ => mkReply 3 [] e
  | _ => mkReply 0 [] e
  end.

End SampleChild.

(** ** A system that is out of descriptors *)

Module SampleMerge.

(** Files are opened and programs are started, but nothing can be
    duplicated onto stderr: dup2 onto descriptor 2 fails with EINTR, and
    DuplicateHandle fails with ERROR_NOT_ENOUGH_MEMORY and leaves the
    handle it was to store at INVALID_HANDLE_VALUE, the value [Execute]
    put there.  The process is the forked child. *)
Definition os_no_duplicate : OS := fun _ e c =>
  match c with
  | c_fork => mkReply 0 [] e
  | c_open _ _ _ => mkReply 3 [] e
  | c_dup2 _ newfd => if newfd =? 2 then mkReply (-1) [] 4 else mkReply newfd [] e
  | c_GetFileAttributesW _ => mkReply ProcWin32.FILE_ATTRIBUTE_NORMAL [] e
  | c_CreateFileA path _ _ _ _ =>
      if String.eqb path "in.txt" then mkReply 100 [] e else mkReply 104 [] e
  | c_DuplicateHandle _ => mkReply 0 [ProcWin32.INVALID_HANDLE_VALUE] 8
  | c_CreateProcessA _ _ _ _ _ _ => mkReply 1 [200; 204; 4321] e
  | c_CloseHandle _ => mkReply 1 [] e
  | _ => mkReply 0 [] e
  end.


End SampleMerge.

(** * Specification vocabulary

    The notions the properties below are stated with: the calls a
    computation adds to the log, scenarios for the operating system, and
    the monitors that read a log. *)

(** The calls a computation adds to the log. *)
Definition since (w w' : World) : list Call :=
  skipn (List.length (trace w)) (trace w').

(** A block that owns nothing: the test [M.Address == 0 || M.Size == 0]
    of the code. *)
Definition is_empty_block (M : MemoryBlock) : Prop := Address M = 0 \/ Size M = 0.

(** [all_calls P m]: whatever the oracle answers, running [m] only adds
    to the log, and every call it adds satisfies [P]. *)
Definition all_calls {A} (P : Call -> Prop) (m : IO A) : Prop :=
  forall w r w', m w = (r, w') ->
    exists l, trace w' = trace w ++ l /\ Forall P l.

(** What a call that maps or protects memory allows on the pages it is
    about; [None] for every other call. *)
Definition granted (c : Call) : option Perm :=
  match c with
  | c_mmap _ _ prot _ _ _ => Some (MemUnix.prot_perm prot)
  | c_mprotect _ _ prot => Some (MemUnix.prot_perm prot)
  | c_VirtualAlloc _ _ _ protect => Some (MemWin32.page_perm protect)
  | c_VirtualProtect _ _ protect => Some (MemWin32.page_perm protect)
  | _ => None
  end.

(** [c] grants nothing less than [q]. *)
Definition grants_at_least (q : Perm) (c : Call) : Prop :=
  forall p, granted c = Some p -> covers p q = true.

(** ** Calls together with their answers

    The log of a world holds the calls.  The answers can be read back
    from it: the oracle is a function of the calls made before, of the
    error value current at the time, and of the call. *)

(** The answer to the call [c], made after the calls [h] with error
    value [e].  [SetLastError] is answered by nobody: it stores its
    argument as the error value. *)
Definition answer (os : OS) (h : list Call) (e : Z) (c : Call) : Reply :=
  match c with
  | c_SetLastError e' => mkReply 0 [] e'
  | _ => os h e c
  end.

(** The calls [l], made one after the other after [h], each with the
    answer it got. *)
Fixpoint replay (os : OS) (h : list Call) (e : Z) (l : list Call)
  : list (Call * Reply) :=
  match l with
  | [] => []
  | c :: l' =>
      let r := answer os h e c in
      (c, r) :: replay os (h ++ [c]) (err r) l'
  end.

(** The error value once the calls [l] have been answered. *)
Fixpoint errno_after (os : OS) (h : list Call) (e : Z) (l : list Call) : Z :=
  match l with
  | [] => e
  | c :: l' => errno_after os (h ++ [c]) (err (answer os h e c)) l'
  end.

(** The calls made between [w] and [w'], with their answers. *)
Definition transcript (os : OS) (w w' : World) : list (Call * Reply) :=
  replay os (trace w) (errno w) (since w w').

(** [w'] is reached from [w] by calls answered by [os]: the log has
    grown and the error value is the one the last answer left. *)
Definition answered_by (os : OS) (w w' : World) : Prop :=
  exists l, trace w' = trace w ++ l /\
            errno w' = errno_after os (trace w) (errno w) l.

(** An observer reads the transcript entry by entry and keeps a state of
    type [S].  [observes os S step pre m post]: whatever the oracle
    [os] answers, running [m] only adds calls answered by [os], and an
    observer that satisfies [pre] before them satisfies [post], at the
    result of [m], after them. *)
Definition observes (os : OS) (S : Type) (step : S -> Call * Reply -> S) {A}
  (pre : S -> Prop) (m : IO A) (post : Res A -> S -> Prop) : Prop :=
  forall w r w' s, m w = (r, w') -> pre s ->
    exists l, trace w' = trace w ++ l /\
              errno w' = errno_after os (trace w) (errno w) l /\
              post r (fold_left step (replay os (trace w) (errno w) l) s).

(** The address each mapping call made between [w] and [w'] asked for. *)
Definition map_addresses (w w' : World) : list Z :=
  flat_map (fun c => match c with
                     | c_mmap a _ _ _ _ _ => [a]
                     | c_VirtualAlloc a _ _ _ => [a]
                     | _ => []
                     end) (since w w').

(** A request reports failure when it returns with an error code that is
    not [success]. *)
Definition reports_failure {A} (r : Res (A * error_code)) : Prop :=
  exists a ec, r = Ret (a, ec) /\ ec <> success.

(** [w1] lies between [w] and [w']: the log only grows. *)
Definition between (w w1 w' : World) : Prop :=
  exists l1 l2, trace w1 = trace w ++ l1 /\ trace w' = trace w1 ++ l2.

(** The state in which the retry starts: the statics are set, the zero
    device is open if it is needed, and the flags have a translation. *)
Definition posix_ready (cfg : MemUnix.Config) (res : Res Z) (w : World) : Prop :=
  (exists ps, st_PageSize w = Some ps) /\
  (MemUnix.NEED_DEV_ZERO_FOR_MMAP cfg = true ->
   exists zf, st_zero_fd w = Some zf /\ (zf =? -1) = false) /\
  (exists p, res = Ret p).

(** The mapping calls of a transcript: the address each asked for and
    the address it was answered with. *)
Definition mappings (t : list (Call * Reply)) : list (Z * Z) :=
  flat_map (fun cr => match fst cr with
                      | c_mmap a _ _ _ _ _ => [(a, rv (snd cr))]
                      | c_VirtualAlloc a _ _ _ => [(a, rv (snd cr))]
                      | _ => []
                      end) t.

(** What a request makes of the answer [pa] to its last mapping call:
    an address, and it returns the block at that address with success;
    [failure], and it returns the empty block with an error of the
    system category. *)
Definition settled_by (failure pa : Z) (r : Res (MemoryBlock * error_code)) : Prop :=
  (pa <> failure /\ exists blk, r = Ret (blk, success) /\ Address blk = pa)
  \/ (pa = failure /\ exists e, r = Ret (empty_block, mkEC e system_category)).

(** What a hinted request may do, in terms of the request without the
    hint ([unhinted]) and of the address that signals failure.  It stops
    before mapping anything, just as the request without the hint would.
    Or its one mapping call is answered with an address, and it returns
    the block at that address.  Or its first mapping call is answered
    with [failure]: it then continues as the request without the hint,
    which makes one more mapping call, at no particular address, and the
    answer to that one settles the result. *)
Definition hinted_outcome (os : OS) (unhinted : IO (MemoryBlock * error_code))
  (failure : Z) (w : World) (r : Res (MemoryBlock * error_code)) (w' : World) : Prop :=
  r <> Stop OutOfFuel /\
  ((mappings (transcript os w w') = [] /\ between w w w' /\ unhinted w = (r, w'))
   \/ (exists a blk, r = Ret (blk, success) /\
                     mappings (transcript os w w') = [(a, Address blk)] /\
                     Address blk <> failure)
   \/ (exists a pa w1, mappings (transcript os w w') = [(a, failure); (0, pa)] /\
                       between w w1 w' /\
                       mappings (transcript os w w1) = [(a, failure)] /\
                       unhinted w1 = (r, w') /\
                       settled_by failure pa r)).

(** What an observer of the mapping calls remembers of the last mmap or
    VirtualAlloc call: the length and the protection it asked for and
    the address it was answered with. *)
Record Mapping : Type := mkMapping {
  asked_length : Z;
  asked_protection : Z;
  answered_address : Z
}.

Definition mapping_step (s : option Mapping) (cr : Call * Reply) : option Mapping :=
  match fst cr with
  | c_mmap _ len prot _ _ _ => Some (mkMapping len prot (rv (snd cr)))
  | c_VirtualAlloc _ len _ protect => Some (mkMapping len protect (rv (snd cr)))
  | _ => s
  end.

(** The last mapping call of a transcript, if it has one. *)
Definition last_mapping (t : list (Call * Reply)) : option Mapping :=
  fold_left mapping_step t None.

(** The result [(M, ec)] is the one the mapping call [m] gives:
    answered with an address, the block at that address, of the length
    asked for, with success; answered with [failure] (MAP_FAILED, or a
    null pointer on Win32), the empty block with an error of the system
    category. *)
Definition block_of (failure : Z) (m : Mapping) (M : MemoryBlock) (ec : error_code)
  : Prop :=
  (answered_address m <> failure /\
   M = mkBlock (answered_address m) (asked_length m) /\ ec = success)
  \/ (answered_address m = failure /\
      M = empty_block /\ exists e, ec = mkEC e system_category).

(** The observer's state at the result of a computation that returns. *)
Definition on_return {S A : Type} (Inv : S -> Prop) (r : Res A) (s : S) : Prop :=
  match r with
  | Ret _ => Inv s
  | Stop _ => False
  end.

(** The result of an allocation on Win32, by the last VirtualAlloc
    call. *)
Definition win32_allocated (NumBytes : Z) (res : Res Z) (s0 : option Mapping)
  (r : Res (MemoryBlock * error_code)) (s : option Mapping) : Prop :=
  match r with
  | Ret (M, ec) =>
      (NumBytes = 0 /\ M = empty_block /\ ec = success /\ s = s0)
      \/ (NumBytes <> 0 /\
          exists m p, res = Ret p /\ s = Some m /\ asked_protection m = p /\
                      block_of 0 m M ec)
  | Stop h => res = Stop h /\ s = s0
  end.


(** The same on POSIX, by the last mmap call.  Where the build maps
    /dev/zero and the device cannot be opened, nothing is mapped. *)
Definition posix_allocated (cfg : MemUnix.Config) (NumBytes : Z) (res : Res Z)
  (s0 : option Mapping) (r : Res (MemoryBlock * error_code)) (s : option Mapping)
  : Prop :=
  match r with
  | Ret (M, ec) =>
      (NumBytes = 0 /\ M = empty_block /\ ec = success /\ s = s0)
      \/ (NumBytes <> 0 /\ MemUnix.NEED_DEV_ZERO_FOR_MMAP cfg = true /\
          M = empty_block /\ (exists e, ec = mkEC e system_category) /\ s = s0)
      \/ (NumBytes <> 0 /\
          exists m p, res = Ret p /\ s = Some m /\ asked_protection m = p /\
                      block_of MemUnix.MAP_FAILED m M ec)
  | Stop h => res = Stop h /\ s = s0
  end.

(** The same on Win32: the granularity is known and the flags have a
    translation. *)
Definition win32_ready (res : Res Z) (w : World) : Prop :=
  (exists g, st_Granularity w = Some g) /\ (exists p, res = Ret p).

(** Writing a message through [ErrMsg], which may be null. *)
Definition said (ErrMsg : option string) (msg : string) : option string :=
  match ErrMsg with Some _ => Some msg | None => None end.

(** The message for a child ended by a signal: the signal's name,
    followed by " (core dumped)" when the system reports a core. *)
Definition signal_message (P : ProcUnix.Platform) (status : Z) : string :=
  let name := ProcUnix.strsignal P (ProcUnix.WTERMSIG P status) in
  match ProcUnix.WCOREDUMP P with
  | Some coredump => if coredump status then (name ++ " (core dumped)")%string else name
  | None => name
  end.

(** Scenario: whenever it is asked, waitpid reports that the child has
    ended, with status word [status]. *)
Definition child_has_ended (os : OS) (child status : Z) : Prop :=
  forall h e, rv (os h e (c_waitpid child 0)) = child /\
              out 0 (os h e (c_waitpid child 0)) = status.

(** Scenario: access finds the program file. *)
Definition program_exists (os : OS) (Program : string) : Prop :=
  forall h e, rv (os h e (c_access Program ProcUnix.F_OK)) <> -1.

(** Scenario: access does not find the program file. *)
Definition program_not_found (os : OS) (Program : string) : Prop :=
  forall h e, rv (os h e (c_access Program ProcUnix.F_OK)) = -1.

(** The claim as the specification words it, for exit code 127: the
    message is the "not found" one. *)
Definition exit_127_reads_not_found (os : OS) (P : ProcUnix.Platform)
  (Data : Z) (Program : string) (status : Z) : Prop :=
  child_has_ended os (Word.to_int Data) status ->
  ProcUnix.WIFEXITED P status = true ->
  ProcUnix.WEXITSTATUS P status = 127 ->
  forall fuel secondsToWait ErrMsg w,
    result (ProcUnix.Wait os P (S fuel) Data Program secondsToWait (Some ErrMsg) w)
    = Ret (-1, Some (ProcUnix.StrError P ProcUnix.ENOENT)).

(** A waitpid that came back without the child because a signal handler
    ran. *)
Definition interrupted (r : Reply) (child : Z) : Prop :=
  rv r <> child /\ err r = ProcUnix.EINTR.

(** The signal whose handler ran, as the scenario has it.  It is the
    second output of the call, which the code has no way to read. *)
Definition interrupting_signal (r : Reply) : Z := out 1 r.

(** What the next call of waitpid on [child] will be answered. *)
Definition next_waitpid (os : OS) (child : Z) (w : World) : Reply :=
  os (trace w) (errno w) (c_waitpid child 0).

(** The world once that call has been made. *)
Definition after_waitpid (os : OS) (child : Z) (w : World) : World :=
  record (c_waitpid child 0) (err (next_waitpid os child w)) w.

(** The next [n] calls of waitpid are all interrupted. *)
Fixpoint interrupted_times (os : OS) (child : Z) (n : nat) (w : World) : Prop :=
  match n with
  | O => True
  | S n' => interrupted (next_waitpid os child w) child /\
            interrupted_times os child n' (after_waitpid os child w)
  end.

(** The world after [n] calls of waitpid. *)
Fixpoint after_interruptions (os : OS) (child : Z) (n : nat) (w : World) : World :=
  match n with
  | O => w
  | S n' => after_interruptions os child n' (after_waitpid os child w)
  end.

(** The claim as the specification words it: a waitpid interrupted by a
    signal other than the alarm is followed by another waitpid. *)
Definition foreign_signal_is_retried (os : OS) (P : ProcUnix.Platform)
  (child secondsToWait Old : Z) (ErrMsg : option string) (w : World) : Prop :=
  interrupted (next_waitpid os child w) child ->
  interrupting_signal (next_waitpid os child w) <> ProcUnix.SIGALRM ->
  forall fuel r w',
    ProcUnix.Wait_loop os P (S (S fuel)) child secondsToWait Old ErrMsg w = (r, w') ->
    firstn 2 (since w w') = [c_waitpid child 0; c_waitpid child 0].






















(** ** SystemError.cpp, the command line of the Win32 backend

    Windows starts a process from one command line, not from an argument
    vector.  [Execute] builds it in two passes: the first adds up the
    space each argument needs, the second writes the arguments, quoted
    where necessary, into a buffer of that size.

    A C string is modelled by the list of its characters, the
    terminating NUL left out; a pointer into it by its offset from the
    start. *)

Module CommandLine.

Definition NUL : Ascii.ascii := Ascii.ascii_of_nat 0.
Definition backslash : Ascii.ascii := Ascii.ascii_of_nat 92.
Definition dquote : Ascii.ascii := Ascii.ascii_of_nat 34.
Definition space : Ascii.ascii := Ascii.ascii_of_nat 32.

(** The accept set of the [strpbrk] call in [ArgNeedsQuotes]: tab, space,
    double quote, ampersand, single quote, parentheses, asterisk, angle
    brackets, backslash, backquote, caret and bar. *)
Definition special : list Ascii.ascii :=
  map Ascii.ascii_of_nat [9; 32; 34; 38; 39; 40; 41; 42; 60; 62; 92; 96; 94; 124]%nat.

(** [strpbrk(Str, accept) != 0]. *)
Definition strpbrk_finds (Str accept : list Ascii.ascii) : bool :=
  existsb (fun c => existsb (Ascii.eqb c) accept) Str.

(** [ArgNeedsQuotes]. *)
Definition ArgNeedsQuotes (Str : list Ascii.ascii) : bool :=
  match Str with
  | [] => true                                    (* Str[0] == '\0' *)
  | _ => strpbrk_finds Str special
  end.

(** The loop of [CountPrecedingBackslashes], entered after [--Cur]: the
    first argument is the offset of [Cur] plus one, so that zero stands
    for a pointer that has moved before [Start]. *)
Fixpoint preceding_backslashes (Start : list Ascii.ascii) (Cur1 : nat) (Count : Z) : Z :=
  match Cur1 with
  | O => Count                                                  (* Cur < Start *)
  | S Cur =>
      if Ascii.eqb (nth Cur Start NUL) backslash
      then preceding_backslashes Start Cur (Word.to_u32 (Count + 1))
      else Count
  end.

(** [CountPrecedingBackslashes(Start, Cur)], [Cur] given as an offset. *)
Definition CountPrecedingBackslashes (Start : list Ascii.ascii) (Cur : nat) : Z :=
  preceding_backslashes Start Cur 0.

(** [EscapePrecedingEscapes(Dst, Start, Cur)].  [Dst] is what has been
    written to the buffer so far; the result is the buffer after the
    call. *)
Definition EscapePrecedingEscapes (Dst Start : list Ascii.ascii) (Cur : nat)
  : list Ascii.ascii :=
  let PrecedingEscapes := CountPrecedingBackslashes Start Cur in
  Dst ++ repeat backslash (Z.to_nat PrecedingEscapes).

(** The [while] over the characters of [Str] loop of [ArgLenWithQuotes]: [Str] is the
    offset reached, [rest] the characters from there on. *)
Fixpoint ArgLen_loop (Start : list Ascii.ascii) (Str : nat) (rest : list Ascii.ascii)
  (len : Z) : Z :=
  match rest with
  | [] => len
  | c :: rest' =>
      let len1 :=
        if Ascii.eqb c dquote then
          (* We need to add a backslash, but ensure that it isn't escaped. *)
          let PrecedingEscapes := CountPrecedingBackslashes Start Str in
          Word.to_u32 (len + Word.to_u32 (PrecedingEscapes + 1))
        else len in
      ArgLen_loop Start (S Str) rest' (Word.to_u32 (len1 + 1))
  end.

(** [ArgLenWithQuotes]. *)
Definition ArgLenWithQuotes (Str : list Ascii.ascii) : Z :=
  let Quoted := ArgNeedsQuotes Str in
  let len := if Quoted then 2 else 0 in
  let len := ArgLen_loop Str 0 Str len in
  if Quoted then
    (* Make sure the closing quote doesn't get escaped by a trailing backslash. *)
    let PrecedingEscapes := CountPrecedingBackslashes Str (List.length Str) in
    Word.to_u32 (len + Word.to_u32 (PrecedingEscapes + 1))
  else len.

(** The first loop of [Execute]: the length of the command line. *)
Definition command_length (args : list (list Ascii.ascii)) : Z :=
  fold_left (fun len arg => Word.to_u32 (len + Word.to_u32 (ArgLenWithQuotes arg + 1)))
            args 0.

(** The [while] over the characters of [arg] loop of [Execute]: [arg] is the offset
    reached, [rest] the characters from there on, [p] the buffer written
    so far. *)
Fixpoint copy_arg (start : list Ascii.ascii) (arg : nat) (rest p : list Ascii.ascii)
  : list Ascii.ascii :=
  match rest with
  | [] => p
  | c :: rest' =>
      let p1 :=
        if Ascii.eqb c dquote then
          (* Escape all preceding escapes (if any), and then escape the quote. *)
          EscapePrecedingEscapes p start arg ++ [backslash]
        else p in
      copy_arg start (S arg) rest' (p1 ++ [c])
  end.

(** One round of the second loop of [Execute]: the argument [arg] is
    appended to the buffer [p]. *)
Definition write_arg (p arg : list Ascii.ascii) : list Ascii.ascii :=
  let start := arg in
  let needsQuoting := ArgNeedsQuotes arg in
  let p := if needsQuoting then p ++ [dquote] else p in
  let p := copy_arg start 0 arg p in
  let p := if needsQuoting then
             (* Make sure our quote doesn't get escaped by a trailing backslash. *)
             EscapePrecedingEscapes p start (List.length arg) ++ [dquote]
           else p in
  p ++ [space].

(** The second loop of [Execute]: the command line, without the NUL that
    ends it. *)
Definition command_line (args : list (list Ascii.ascii)) : list Ascii.ascii :=
  fold_left write_arg args [].

(** [sys::argumentsFitWithinSystemLimits], Win32. *)
Definition MaxCommandStringLength : Z := 32768.

Fixpoint fits_loop (Args : list (list Ascii.ascii)) (ArgLength : Z) : bool :=
  match Args with
  | [] => true
  | Arg :: Args' =>
      (* Account for the trailing space for every arg but the last one and
         the trailing NULL of the last argument. *)
      let ArgLength := Word.to_size_t (ArgLength + Word.to_u32 (ArgLenWithQuotes Arg + 1)) in
      if MaxCommandStringLength <? ArgLength then false
      else fits_loop Args' ArgLength
  end.

Definition argumentsFitWithinSystemLimits (Args : list (list Ascii.ascii)) : bool :=
  fits_loop Args 0.

End CommandLine.

(** ** SystemError.cpp, [argumentsFitWithinSystemLimits] of the POSIX
    backend

    The function keeps the limit in a function-local [static long],
    initialised from [sysconf(_SC_ARG_MAX)] when control first reaches
    the declaration.  The static is threaded through explicitly: [None]
    before the first call, the value it holds afterwards. *)

Module ArgLimitUnix.

(** [long], 64 bits, two's complement. *)
Definition to_long (z : Z) : Z := (z + 2 ^ 63) mod 2 ^ 64 - 2 ^ 63.

(** [strlen]. *)
Definition strlen (s : string) : Z := Z.of_nat (String.length s).

(** The loop over [Args]. *)
Fixpoint fits_loop (Args : list string) (ArgLength ArgMax : Z) : bool :=
  match Args with
  | [] => true
  | Arg :: Args' =>
      let ArgLength := Word.to_size_t (ArgLength + Word.to_size_t (strlen Arg + 1)) in
      if Word.to_size_t ArgMax <? ArgLength then false
      else fits_loop Args' ArgLength ArgMax
  end.

(** [sys::argumentsFitWithinSystemLimits].  [sysconf_ARG_MAX] is what
    [sysconf(_SC_ARG_MAX)] returns; the result pairs the value returned
    with the static afterwards. *)
Definition argumentsFitWithinSystemLimits (sysconf_ARG_MAX : Z) (static_ArgMax : option Z)
  (Args : list string) : bool * option Z :=
  (* static long ArgMax = sysconf(_SC_ARG_MAX); *)
  let ArgMax := match static_ArgMax with
                | Some v => v
                | None => to_long sysconf_ARG_MAX
                end in
  (* System says no practical limit. *)
  if ArgMax =? -1 then (true, Some ArgMax) else
  (* Conservatively account for space required by environment variables. *)
  let ArgMax := Z.quot ArgMax 2 in
  (fits_loop Args 0 ArgMax, Some ArgMax).

(** The static after the function has been called on each vector of
    [calls] in turn. *)
Definition static_after (sysconf_ARG_MAX : Z) (calls : list (list string))
  : option Z :=
  fold_left (fun st Args => snd (argumentsFitWithinSystemLimits sysconf_ARG_MAX st Args))
            calls None.

End ArgLimitUnix.

(** ** Searching PATH (Unix)

    [sys::FindProgramByName] of the Unix part of SystemError.cpp.  The
    value of [getenv("PATH")] is a parameter of the model ([None] for a
    null pointer).  The loop walks the C string with the pointer
    [PathStr] and the count [PathLen]; the count is the length of what
    the pointer points to from the first test on, so the model keeps the
    rest of the string and tests it for emptiness.  [path::append] is
    kept abstract. *)
Module FindProgramUnix.

Definition colon : Ascii.ascii := Ascii.ascii_of_nat 58.
Definition slash : Ascii.ascii := Ascii.ascii_of_nat 47.

(** [progName.find('/') != std::string::npos] *)
Fixpoint contains (c : Ascii.ascii) (s : string) : bool :=
  match s with
  | EmptyString => false
  | String c' s' => Ascii.eqb c' c || contains c s'
  end.

(** [std::find(PathStr, PathStr + PathLen, ':') - PathStr] *)
Fixpoint find_colon (PathStr : string) : nat :=
  match PathStr with
  | EmptyString => O
  | String c s' => if Ascii.eqb c colon then O else S (find_colon s')
  end.

(** The characters from [PathStr] up to [PathStr + n]. *)
Fixpoint take (n : nat) (s : string) : string :=
  match n, s with
  | S n', String c s' => String c (take n' s')
  | _, _ => EmptyString
  end.

(** [PathStr + n] *)
Fixpoint drop (n : nat) (s : string) : string :=
  match n, s with
  | S n', String _ s' => drop n' s'
  | _, _ => s
  end.

(** Advance past duplicate colons. *)
Fixpoint skip_colons (PathStr : string) : string :=
  match PathStr with
  | String c s' => if Ascii.eqb c colon then skip_colons s' else PathStr
  | EmptyString => PathStr
  end.

Section Backend.

Variable os : OS.

(** [sys::path::append(FilePath, progName)], as a function of the two
    strings. *)
Variable append : string -> string -> string.

(** The loop [while (PathLen) ...]; [fuel] bounds its iterations. *)
Fixpoint search (fuel : nat) (progName PathStr : string) : IO string :=
  match fuel with
  | O => halt OutOfFuel
  | S fuel' =>
      if ProcUnix.is_empty PathStr then ret EmptyString else
      (* Find the first colon... *)
      let Colon := find_colon PathStr in
      (* Check to see if this first directory contains the executable... *)
      let FilePath := append (take Colon PathStr) progName in
      x <- ProcUnix.can_execute os FilePath ;;
      if x then ret FilePath                      (* Found the executable! *)
      else
        (* Nope it wasn't in this directory, check the next path in the list! *)
        search fuel' progName (skip_colons (drop Colon PathStr))
  end.

Definition FindProgramByName (fuel : nat) (PATH : option string) (progName : string)
  : IO string :=
  (* Check some degenerate cases *)
  if (String.length progName =? 0)%nat then ret EmptyString else
  (* Use the given path verbatim if it contains any slashes *)
  if contains slash progName then ret progName else
  (* Get the path. If its empty, we can't do anything to find it. *)
  match PATH with
  | None => ret EmptyString
  | Some PathStr => search fuel progName PathStr
  end.

End Backend.

End FindProgramUnix.

(** ** Memory.cpp, [setRangeWritable] and [setRangeExecutable] of the
    Win32 backend

    [getProtection] asks VirtualQuery for the protection of the page at
    [Addr].  What VirtualQuery answers is a parameter of the model:
    [Some p] when it fills the whole record, with [p] in [info.Protect],
    [None] when it does not. *)
Module MemWin32Range.

Import MemWin32.

(** [getProtection] *)
Definition getProtection (query : option Z) : Z :=
  match query with
  | Some Protect => Protect
  | None => 0
  end.

Section Backend.

Variable os : OS.

(** [Memory::setRangeWritable] *)
Definition setRangeWritable (query : option Z) (Addr Size : Z) : IO bool :=
  let prot := getProtection query in
  if prot =? 0 then ret false else
  let prot :=
    if (prot =? PAGE_EXECUTE) || (prot =? PAGE_EXECUTE_READ) then PAGE_EXECUTE_READWRITE
    else if (prot =? PAGE_NOACCESS) || (prot =? PAGE_READONLY) then PAGE_READWRITE
    else prot in
  InvalidateInstructionCache os Addr Size ;;;
  r <- sys os (c_VirtualProtect Addr Size prot) ;;
  ret (rv r =? 1).                                       (* == TRUE *)

(** [Memory::setRangeExecutable] *)
Definition setRangeExecutable (query : option Z) (Addr Size : Z) : IO bool :=
  let prot := getProtection query in
  if prot =? 0 then ret false else
  let prot :=
    if prot =? PAGE_NOACCESS then PAGE_EXECUTE
    else if prot =? PAGE_READONLY then PAGE_EXECUTE_READ
    else if prot =? PAGE_READWRITE then PAGE_EXECUTE_READWRITE
    else prot in
  InvalidateInstructionCache os Addr Size ;;;
  r <- sys os (c_VirtualProtect Addr Size prot) ;;
  ret (rv r =? 1).                                       (* == TRUE *)

End Backend.

End MemWin32Range.

(** ** Vocabulary of the further properties *)

(** More sample systems. *)
Module SampleProc2.

(** Win32: the process has ended with exit code [code]. *)
Definition os_exit_code (code : Z) : OS := fun _ e c =>
  match c with
  | c_GetExitCodeProcess _ => mkReply 1 [code] e
  | _ => mkReply 0 [] e
  end.

(** posix_spawn starts the child [pid]; whenever it is waited for, the
    child has ended with status word [status]. *)
Definition os_spawned_then_ended (pid status : Z) : OS := fun _ e c =>
  match c with
  | c_posix_spawn _ _ _ _ => mkReply 0 [pid] e
  | c_waitpid _ _ => mkReply pid [status] e
  | c_wait => mkReply pid [status] e
  | _ => mkReply 0 [] e
  end.

End SampleProc2.

(** The way a Windows program started by [Execute] finds its arguments
    again: the rules of the Microsoft C runtime, to which the comment in
    [ArgLenWithQuotes] refers.  Arguments are separated by spaces and
    tabs; a double quote opens or closes a quoted part, in which
    separators are ordinary characters; backslashes stand for themselves
    unless a double quote follows them, in which case every pair gives
    one backslash and an odd one left over makes the quote an ordinary
    character.  [inq] says whether a quoted part is open, [bs] counts the
    backslashes read whose meaning is still open, [cur] is the argument
    being read, if any. *)
Fixpoint split_arguments (line : list Ascii.ascii) (inq : bool) (bs : nat)
  (cur : option (list Ascii.ascii)) : list (list Ascii.ascii) :=
  let word := match cur with Some w => w | None => [] end in
  match line with
  | [] =>
      match cur with
      | None => []
      | Some w => [w ++ repeat CommandLine.backslash bs]
      end
  | c :: line' =>
      if Ascii.eqb c CommandLine.backslash then
        split_arguments line' inq (S bs) (Some word)
      else if Ascii.eqb c CommandLine.dquote then
        let w := word ++ repeat CommandLine.backslash (Nat.div2 bs) in
        if Nat.even bs
        then split_arguments line' (negb inq) 0 (Some w)
        else split_arguments line' inq 0 (Some (w ++ [c]))
      else
        let w := word ++ repeat CommandLine.backslash bs in
        if (Ascii.eqb c CommandLine.space || Ascii.eqb c (Ascii.ascii_of_nat 9))
           && negb inq
        then match cur with
             | None => split_arguments line' false 0 None
             | Some _ => w :: split_arguments line' false 0 None
             end
        else split_arguments line' inq 0 (Some (w ++ [c]))
  end.

(** The argument vector a command line stands for. *)
Definition arguments_of (line : list Ascii.ascii) : list (list Ascii.ascii) :=
  split_arguments line false 0 None.

(** Sample argument vectors. *)
Definition sample_args : list (list Ascii.ascii) :=
  map list_ascii_of_string ["prog.exe"; "two words"; "plain"; EmptyString].

(** [M] holds [NumBytes] rounded up to a whole number of units of [unit]
    bytes: pages on POSIX, allocation granules on Win32. *)
Definition rounded_up (unit NumBytes : Z) (M : MemoryBlock) : Prop :=
  Size M mod unit = 0 /\ NumBytes <= Size M < NumBytes + unit.

(** [a] is the first multiple of [unit] that is not below [e]. *)
Definition aligned_up (unit e a : Z) : Prop :=
  a mod unit = 0 /\ e <= a < e + unit.

(** The system reports pages of [ps] bytes, and the page size remembered
    in [w], if one is, is that one. *)
Definition page_size_is (os : OS) (w : World) (ps : Z) : Prop :=
  (forall h e, Word.to_size_t (rv (os h e c_page_size)) = ps) /\
  (st_PageSize w = None \/ st_PageSize w = Some ps).

(** The same for the allocation granularity of Win32: the larger of the
    two sizes GetSystemInfo reports is [g]. *)
Definition granularity_is (os : OS) (w : World) (g : Z) : Prop :=
  (forall h e, Z.max (out 0 (os h e c_GetSystemInfo)) (out 1 (os h e c_GetSystemInfo)) = g) /\
  (st_Granularity w = None \/ st_Granularity w = Some g).

(** [returns m]: whatever the oracle answers, [m] runs to its end and
    hands back a value. *)
Definition returns {A} (m : IO A) : Prop :=
  forall w, exists a w', m w = (Ret a, w').

(** [results Q m]: whatever the oracle answers, the outcome of [m]
    satisfies [Q]. *)
Definition results {A} (Q : Res A -> Prop) (m : IO A) : Prop :=
  forall w r w', m w = (r, w') -> Q r.

(** What [Execute] can come to in the forked child: it returns false,
    or the program has taken the process over, or the process has left
    through [_exit] with one of the two codes kept for a program that
    could not be run. *)
Definition child_outcome (r : Res ProcUnix.ExecResult) : Prop :=
  match r with
  | Ret (ok, _, _) => ok = false
  | Stop Execd => True
  | Stop (Exited code) => code = 126 \/ code = 127
  | Stop _ => False
  end.

(** Calls that wait for a child. *)
Definition waits_for_child (c : Call) : bool :=
  match c with
  | c_waitpid _ _ => true
  | c_wait => true
  | _ => false
  end.

(** The timer of the process as the logged calls leave it: the number of
    seconds the alarm is set to (0: none pending) and the handler
    installed for SIGALRM. *)
Definition timer_step (st : Z * Z) (c : Call) : Z * Z :=
  match c with
  | c_alarm seconds => (seconds, snd st)
  | c_sigaction signum act => if signum =? ProcUnix.SIGALRM then (fst st, act) else st
  | _ => st
  end.

Definition timer_after (st : Z * Z) (l : list Call) : Z * Z :=
  fold_left timer_step l st.

Module SampleProc3.

(** There is no such child: waitpid fails with ECHILD.  sigaction
    reports the handler [old] as the one it replaces. *)
Definition os_no_such_child (old : Z) : OS := fun _ e c =>
  match c with
  | c_waitpid _ _ => mkReply (-1) [] 10
  | c_sigaction _ _ => mkReply 0 [old] e
  | _ => mkReply 0 [] e
  end.

End SampleProc3.





(** The calls [Wait] may make when it is given no timeout. *)
Definition plain_wait_call (child : Z) (Program : string) (c : Call) : Prop :=
  c = c_waitpid child 0 \/ c = c_access Program ProcUnix.F_OK.


(** The pieces of a string between its colons: one more than it has
    colons. *)
Fixpoint split_colons (s : string) : list string :=
  match s with
  | EmptyString => [EmptyString]
  | String c s' =>
      if Ascii.eqb c FindProgramUnix.colon then EmptyString :: split_colons s'
      else match split_colons s' with
           | piece :: pieces => String c piece :: pieces
           | [] => [String c EmptyString]
           end
  end.

(** The directories a PATH value names, in order: its pieces between
    colons, an empty piece counting only where the value starts with a
    colon.  The empty value names none. *)
Definition path_entries (PathStr : string) : list string :=
  if ProcUnix.is_empty PathStr then [] else
  match split_colons PathStr with
  | first :: others => first :: filter (fun d => negb (ProcUnix.is_empty d)) others
  | [] => []
  end.

(** Try the candidates in turn; the first that can be executed is the
    answer, the empty string if there is none. *)
Fixpoint first_executable (os : OS) (candidates : list string) : IO string :=
  match candidates with
  | [] => ret EmptyString
  | c :: cs =>
      x <- ProcUnix.can_execute os c ;;
      if x then ret c else first_executable os cs
  end.

Module SampleFind.

(** Only "/usr/bin/cc" is an executable regular file. *)
Definition os_one_program : OS := fun _ e c =>
  match c with
  | c_access p _ => if String.eqb p "/usr/bin/cc" then mkReply 0 [] e else mkReply (-1) [] 2
  | c_stat p => mkReply 0 [ProcUnix.S_IFREG] e
  | _ => mkReply 0 [] e
  end.

(** [!path.empty() && is_separator(path[path.size() - 1])] *)
Fixpoint path_has_sep (path : string) : bool :=
  match path with
  | EmptyString => false
  | String c EmptyString => Ascii.eqb c FindProgramUnix.slash
  | String _ rest => path_has_sep rest
  end.

(** [component_has_sep]: the component is not empty and its first
    character is a separator. *)
Definition component_has_sep (component : string) : bool :=
  match component with
  | String c _ => Ascii.eqb c FindProgramUnix.slash
  | EmptyString => false
  end.

(** [i->substr(i->find_first_not_of(separators))]: the component without
    the separators it starts with. *)
Fixpoint strip_separators (component : string) : string :=
  match component with
  | String c rest =>
      if Ascii.eqb c FindProgramUnix.slash then strip_separators rest else component
  | EmptyString => EmptyString
  end.

(** [path::append] with one component, where the separator is the
    slash: after a path that ends with a separator, the component
    without its leading separators; else the component as it is after
    an empty path or when it starts with a separator; else a separator
    and the component.  (A root name starts with two separators there,
    so the test for it adds nothing to the one on the first
    character.) *)
Definition join (path component : string) : string :=
  if path_has_sep path then (path ++ strip_separators component)%string
  else if negb (component_has_sep component) && negb (ProcUnix.is_empty path)
       then (path ++ String FindProgramUnix.slash component)%string
       else (path ++ component)%string.

End SampleFind.

(** The six page protections the Win32 backend itself hands out or
    names. *)
Definition plain_protections : list Z :=
  [MemWin32.PAGE_NOACCESS; MemWin32.PAGE_READONLY; MemWin32.PAGE_READWRITE;
   MemWin32.PAGE_EXECUTE; MemWin32.PAGE_EXECUTE_READ; MemWin32.PAGE_EXECUTE_READWRITE].

(** [m] flushes the instruction cache for the range and then sets its
    protection to one that takes nothing away from [old] and allows
    [wanted]; it makes no other call. *)
Definition widens_protection (m : IO bool) (Addr Size old : Z) (wanted : Perm)
  : Prop :=
  forall w, exists new,
    since w (snd (m w)) = [c_FlushInstructionCache Addr Size;
                           c_VirtualProtect Addr Size new] /\
    covers (MemWin32.page_perm new) (MemWin32.page_perm old) = true /\
    covers (MemWin32.page_perm new) wanted = true.

(** * Properties *)

(** ** Running a computation step by step *)

Lemma bind_ret {A B} (a : A) (k : A -> IO B) w : bind (ret a) k w = k a w.
Proof. reflexivity. Qed.

Lemma bind_sys {B} os c (k : Reply -> IO B) w :
  bind (sys os c) k w =
  k (os (trace w) (errno w) c) (record c (err (os (trace w) (errno w) c)) w).
Proof. reflexivity. Qed.

Lemma bind_get_errno {B} (k : Z -> IO B) w :
  bind get_errno k w = k (errno w) w.
Proof. reflexivity. Qed.

Lemma bind_assoc {A B C} (m : IO A) (k : A -> IO B) (k' : B -> IO C) w :
  bind (bind m k) k' w = bind m (fun a => bind (k a) k') w.
Proof. unfold bind. destruct (m w) as [[a|h] w']; reflexivity. Qed.

Lemma since_refl w : since w w = [].
Proof. unfold since. apply skipn_all. Qed.

Lemma since_app w w' l : trace w' = trace w ++ l -> since w w' = l.
Proof.
  intros H. unfold since. rewrite H.
  rewrite skipn_app, skipn_all, Nat.sub_diag. reflexivity.
Qed.

(** ** Zero-size requests and empty blocks (C7) *)

Lemma empty_block_test M :
  is_empty_block M -> (Address M =? 0) || (Size M =? 0) = true.
Proof.
  intros [H | H]; rewrite H; simpl; [reflexivity | apply orb_true_r].
Qed.

Lemma nonempty_block_test M :
  Address M <> 0 -> Size M <> 0 -> (Address M =? 0) || (Size M =? 0) = false.
Proof.
  intros Ha Hs. apply orb_false_intro; now apply Z.eqb_neq.
Qed.

(** C7. A request for zero bytes returns the empty block and success and
    leaves the world as it was, so no call reaches the operating system;
    protecting or releasing a block whose address is null or whose size
    is zero returns success and likewise leaves the world as it was.
    Both backends. *)
Theorem C7_zero_size_and_empty_block_are_noops :
  forall (os : OS) (MF : ProtectionFlags) (cfg : MemUnix.Config)
         (NearBlock : option MemoryBlock) (Flags : Z) (M : MemoryBlock) (w : World),
    MemUnix.allocateMappedMemory os MF cfg 0 NearBlock Flags w
      = (Ret (empty_block, success), w) /\
    MemWin32.allocateMappedMemory os MF 0 NearBlock Flags w
      = (Ret (empty_block, success), w) /\
    (is_empty_block M ->
       MemUnix.protectMappedMemory os MF cfg M Flags w = (Ret success, w) /\
       MemUnix.releaseMappedMemory os M w = (Ret (success, M), w) /\
       MemWin32.protectMappedMemory os MF M Flags w = (Ret success, w) /\
       MemWin32.releaseMappedMemory os M w = (Ret (success, M), w)).
Proof.
  intros os MF cfg NearBlock Flags M w.
  split; [reflexivity | split; [reflexivity |]].
  intros HM. apply empty_block_test in HM.
  unfold MemUnix.protectMappedMemory, MemUnix.releaseMappedMemory,
    MemWin32.protectMappedMemory, MemWin32.releaseMappedMemory.
  rewrite HM. repeat split.
Qed.

(** C7 at an instance: a block with an address but no size. *)
Lemma C7_witness :
  is_empty_block (mkBlock 4096 0) /\
  MemUnix.protectMappedMemory Sample.os_zero llvm_flags Sample.no_dev_zero
    (mkBlock 4096 0) Sample.read_write_flags initial = (Ret success, initial) /\
  MemUnix.releaseMappedMemory Sample.os_zero (mkBlock 4096 0) initial
    = (Ret (success, mkBlock 4096 0), initial) /\
  MemWin32.protectMappedMemory Sample.os_zero llvm_flags
    (mkBlock 4096 0) Sample.read_write_flags initial = (Ret success, initial) /\
  MemWin32.releaseMappedMemory Sample.os_zero (mkBlock 4096 0) initial
    = (Ret (success, mkBlock 4096 0), initial).
Proof.
  assert (H : is_empty_block (mkBlock 4096 0)) by (right; reflexivity).
  split; [exact H |].
  exact (proj2 (proj2 (C7_zero_size_and_empty_block_are_noops
                         Sample.os_zero llvm_flags Sample.no_dev_zero None
                         Sample.read_write_flags (mkBlock 4096 0) initial)) H).
Defined.

(** ** A small logic of calls *)

Lemma all_calls_ret {A} P (a : A) : all_calls P (ret a).
Proof.
  intros w r w' H. injection H as <- <-. exists []. split.
  - now rewrite app_nil_r.
  - constructor.
Qed.

Lemma all_calls_halt {A} P h : all_calls P (@halt A h).
Proof.
  intros w r w' H. injection H as <- <-. exists []. split.
  - now rewrite app_nil_r.
  - constructor.
Qed.

Lemma all_calls_get_errno P : all_calls P get_errno.
Proof.
  intros w r w' H. injection H as <- <-. exists []. split.
  - now rewrite app_nil_r.
  - constructor.
Qed.

Lemma all_calls_sys P os c : P c -> all_calls P (sys os c).
Proof.
  intros Hc w r w' H. injection H as <- <-. exists [c]. split.
  - reflexivity.
  - repeat constructor. exact Hc.
Qed.

Lemma all_calls_SetLastError P e : P (c_SetLastError e) -> all_calls P (SetLastError e).
Proof.
  intros Hc w r w' H. injection H as <- <-. exists [c_SetLastError e]. split.
  - reflexivity.
  - repeat constructor. exact Hc.
Qed.

Lemma all_calls_bind {A B} P (m : IO A) (k : A -> IO B) :
  all_calls P m -> (forall a, all_calls P (k a)) -> all_calls P (bind m k).
Proof.
  intros Hm Hk w r w'. unfold bind.
  destruct (m w) as [[a | h] w1] eqn:E; intros H.
  - destruct (Hm _ _ _ E) as (l1 & T1 & F1).
    destruct (Hk a _ _ _ H) as (l2 & T2 & F2).
    exists (l1 ++ l2). split.
    + now rewrite T2, T1, app_assoc.
    + apply Forall_app. now split.
  - injection H as <- <-. exact (Hm _ _ _ E).
Qed.

Lemma all_calls_static_local P read write (init : IO Z) :
  (forall v w, trace (write v w) = trace w) ->
  all_calls P init -> all_calls P (static_local read write init).
Proof.
  intros Hw Hi w r w'. unfold static_local.
  destruct (read w) as [v |].
  - intros H. injection H as <- <-. exists []. split.
    + now rewrite app_nil_r.
    + constructor.
  - destruct (init w) as [[v | h] w1] eqn:E; intros H; injection H as <- <-.
    + rewrite Hw. exact (Hi _ _ _ E).
    + exact (Hi _ _ _ E).
Qed.

Lemma all_calls_weaken {A} (P Q : Call -> Prop) (m : IO A) :
  (forall c, P c -> Q c) -> all_calls P m -> all_calls Q m.
Proof.
  intros HPQ Hm w r w' H. destruct (Hm _ _ _ H) as (l & T & F).
  exists l. split; [exact T |]. eapply Forall_impl; eauto.
Qed.

(** From the logic back to the log. *)
Lemma all_calls_since {A} P (m : IO A) w r w' :
  all_calls P m -> m w = (r, w') -> Forall P (since w w').
Proof.
  intros Hm H. destruct (Hm _ _ _ H) as (l & T & F).
  now rewrite (since_app _ _ _ T).
Qed.

(** Break a computation into its calls. *)
Ltac step_calls :=
  repeat first
    [ apply all_calls_ret
    | apply all_calls_halt
    | apply all_calls_get_errno
    | apply all_calls_bind; [| intros ?]
    | apply all_calls_sys
    | apply all_calls_SetLastError
    | apply all_calls_static_local; [reflexivity |]
    | match goal with
      | |- all_calls _ (if ?b then _ else _) => destruct b
      | |- all_calls _ (match ?x with _ => _ end) => destruct x
      | |- all_calls _ (let '(_, _) := ?x in _) => destruct x
      end ].

(** The continuation of a bind only matters at values the first part can
    return. *)
Lemma all_calls_bind_ret {A B} P (m : IO A) (k : A -> IO B) :
  all_calls P m ->
  (forall a w w', m w = (Ret a, w') -> all_calls P (k a)) ->
  all_calls P (bind m k).
Proof.
  intros Hm Hk w r w'. unfold bind.
  destruct (m w) as [[a | h] w1] eqn:E; intros H.
  - destruct (Hm _ _ _ E) as (l1 & T1 & F1).
    destruct (Hk a _ _ E _ _ _ H) as (l2 & T2 & F2).
    exists (l1 ++ l2). split.
    + now rewrite T2, T1, app_assoc.
    + apply Forall_app. now split.
  - injection H as <- <-. exact (Hm _ _ _ E).
Qed.

(** ** A logic of answered calls *)

Lemma replay_app os l1 : forall h e l2,
  replay os h e (l1 ++ l2)
  = replay os h e l1 ++ replay os (h ++ l1) (errno_after os h e l1) l2.
Proof.
  induction l1 as [|c l1 IH]; intros h e l2; cbn [replay errno_after app].
  - now rewrite app_nil_r.
  - rewrite IH, <- app_assoc. reflexivity.
Qed.

Lemma errno_after_app os l1 : forall h e l2,
  errno_after os h e (l1 ++ l2)
  = errno_after os (h ++ l1) (errno_after os h e l1) l2.
Proof.
  induction l1 as [|c l1 IH]; intros h e l2; cbn [errno_after app].
  - now rewrite app_nil_r.
  - rewrite IH, <- app_assoc. reflexivity.
Qed.

Lemma replay_calls os l : forall h e, map fst (replay os h e l) = l.
Proof.
  induction l as [|c l IH]; intros h e; cbn [replay map fst]; [reflexivity|].
  now rewrite IH.
Qed.

Lemma answered_by_refl os w : answered_by os w w.
Proof. exists []. split; [now rewrite app_nil_r | reflexivity]. Qed.

Lemma answered_by_trans os w w1 w' :
  answered_by os w w1 -> answered_by os w1 w' -> answered_by os w w'.
Proof.
  intros (l1 & T1 & E1) (l2 & T2 & E2). exists (l1 ++ l2). split.
  - now rewrite T2, T1, app_assoc.
  - now rewrite E2, E1, T1, errno_after_app.
Qed.

(** The transcript of a run in two parts. *)
Lemma transcript_trans os w w1 w' :
  answered_by os w w1 -> (exists l, trace w' = trace w1 ++ l) ->
  transcript os w w' = transcript os w w1 ++ transcript os w1 w'.
Proof.
  intros (l1 & T1 & E1) (l2 & T2). unfold transcript.
  rewrite (since_app w w1 l1 T1), (since_app w1 w' l2 T2).
  rewrite (since_app w w' (l1 ++ l2)) by (now rewrite T2, T1, app_assoc).
  now rewrite replay_app, T1, E1.
Qed.

Section Observing.

Variable os : OS.
Variable S : Type.
Variable step : S -> Call * Reply -> S.

Lemma observes_ret {A} (pre : S -> Prop) (a : A) post :
  (forall s, pre s -> post (Ret a) s) -> observes os S step pre (ret a) post.
Proof.
  intros H w r w' s E Hs. injection E as <- <-. exists [].
  split; [now rewrite app_nil_r |]. split; [reflexivity |]. now apply H.
Qed.


Lemma observes_get_errno (pre : S -> Prop) post :
  (forall e s, pre s -> post (Ret e) s) -> observes os S step pre get_errno post.
Proof.
  intros H w r w' s E Hs. injection E as <- <-. exists [].
  split; [now rewrite app_nil_r |]. split; [reflexivity |]. now apply H.
Qed.

(** A call: the observer reads it with the answer the program gets. *)
Lemma observes_sys c (pre : S -> Prop) post :
  (forall e, c <> c_SetLastError e) ->
  (forall r s, pre s -> post (Ret r) (step s (c, r))) ->
  observes os S step pre (sys os c) post.
Proof.
  intros Hc H w r w' s E Hs. injection E as <- <-. exists [c].
  assert (Ha : answer os (trace w) (errno w) c = os (trace w) (errno w) c).
  { destruct c; try reflexivity. now contradiction (Hc e). }
  cbn [replay errno_after fold_left]. rewrite Ha.
  split; [reflexivity |]. split; [reflexivity |]. now apply H.
Qed.

Lemma observes_SetLastError e (pre : S -> Prop) post :
  (forall s, pre s -> post (Ret tt) (step s (c_SetLastError e, mkReply 0 [] e))) ->
  observes os S step pre (SetLastError e) post.
Proof.
  intros H w r w' s E Hs. injection E as <- <-. exists [c_SetLastError e].
  cbn [replay errno_after fold_left answer err].
  split; [reflexivity |]. split; [reflexivity |]. now apply H.
Qed.

Lemma observes_bind {A B} (pre : S -> Prop) (m : IO A) (k : A -> IO B)
  (mid : Res A -> S -> Prop) post :
  observes os S step pre m mid ->
  (forall h s, mid (Stop h) s -> post (Stop h) s) ->
  (forall a, observes os S step (mid (Ret a)) (k a) post) ->
  observes os S step pre (bind m k) post.
Proof.
  intros Hm Hstop Hk w r w' s. unfold bind.
  destruct (m w) as [[a | h] w1] eqn:E; intros H Hs.
  - destruct (Hm _ _ _ _ E Hs) as (l1 & T1 & E1 & F1).
    destruct (Hk a _ _ _ _ H F1) as (l2 & T2 & E2 & F2).
    exists (l1 ++ l2). split; [now rewrite T2, T1, app_assoc |].
    split.
    + now rewrite E2, E1, T1, errno_after_app.
    + rewrite replay_app, fold_left_app. now rewrite T1, E1 in F2.
  - injection H as <- <-.
    destruct (Hm _ _ _ _ E Hs) as (l1 & T1 & E1 & F1).
    exists l1. split; [exact T1 |]. split; [exact E1 |]. now apply Hstop.
Qed.

Lemma observes_weaken {A} (pre pre' : S -> Prop) (m : IO A)
  (post post' : Res A -> S -> Prop) :
  observes os S step pre' m post' ->
  (forall s, pre s -> pre' s) ->
  (forall r s, post' r s -> post r s) ->
  observes os S step pre m post.
Proof.
  intros Hm Hpre Hpost w r w' s E Hs.
  destruct (Hm _ _ _ _ E (Hpre _ Hs)) as (l & T & Ee & F).
  exists l. split; [exact T |]. split; [exact Ee |]. now apply Hpost.
Qed.


(** A function-local static: its initialiser runs or not; the value is
    any. *)
Lemma observes_static_local read write (init : IO Z) (pre : S -> Prop) post :
  (forall v w, trace (write v w) = trace w) ->
  (forall v w, errno (write v w) = errno w) ->
  (forall v s, pre s -> post (Ret v) s) ->
  observes os S step pre init post ->
  observes os S step pre (static_local read write init) post.
Proof.
  intros Ht He Hv Hi w r w' s. unfold static_local.
  destruct (read w) as [v |].
  - intros H Hs. injection H as <- <-. exists [].
    split; [now rewrite app_nil_r |]. split; [reflexivity |]. now apply Hv.
  - destruct (init w) as [[v | h] w1] eqn:E; intros H Hs; injection H as <- <-.
    + rewrite Ht, He. exact (Hi _ _ _ _ E Hs).
    + exact (Hi _ _ _ _ E Hs).
Qed.

(** From the logic back to the transcript. *)
Lemma observes_transcript {A} (pre : S -> Prop) (m : IO A) post w r w' s :
  observes os S step pre m post -> m w = (r, w') -> pre s ->
  post r (fold_left step (transcript os w w') s).
Proof.
  intros Hm E Hs. destruct (Hm _ _ _ _ E Hs) as (l & T & _ & F).
  unfold transcript. now rewrite (since_app _ _ _ T).
Qed.

End Observing.

(** An invariant of the observer that every call of a computation
    preserves, whatever the answer and whether or not the computation
    returns. *)
Section Keeping.

Variable os : OS.
Variable S : Type.
Variable step : S -> Call * Reply -> S.
Variable Inv : S -> Prop.









(** A part that keeps the invariant, and what follows it. *)
Lemma observes_then {A B} (m : IO A) (k : A -> IO B) post :
  observes os S step Inv m (fun _ => Inv) ->
  (forall h s, Inv s -> post (Stop h) s) ->
  (forall a, observes os S step Inv (k a) post) ->
  observes os S step Inv (bind m k) post.
Proof. intros Hm Hs Hk. eapply observes_bind; [exact Hm | exact Hs | exact Hk]. Qed.

End Keeping.


(** ** The mapping call behind a block *)

Section Staying.

Variable os : OS.
Variable S : Type.
Variable step : S -> Call * Reply -> S.
Variable Inv : S -> Prop.

Lemma stays_ret {A} (a : A) : observes os S step Inv (ret a) (on_return Inv).
Proof. apply observes_ret. intros s Hs. exact Hs. Qed.

Lemma stays_get_errno : observes os S step Inv get_errno (on_return Inv).
Proof. apply observes_get_errno. intros e s Hs. exact Hs. Qed.

Lemma stays_sys c :
  (forall e, c <> c_SetLastError e) ->
  (forall r s, Inv s -> Inv (step s (c, r))) ->
  observes os S step Inv (sys os c) (on_return Inv).
Proof. intros Hc H. apply observes_sys; [exact Hc | exact H]. Qed.

Lemma stays_SetLastError e :
  (forall s, Inv s -> Inv (step s (c_SetLastError e, mkReply 0 [] e))) ->
  observes os S step Inv (SetLastError e) (on_return Inv).
Proof. intros H. apply observes_SetLastError. exact H. Qed.

(** A part that returns and keeps the invariant, and what follows it. *)
Lemma observes_after {A B} (m : IO A) (k : A -> IO B) post :
  observes os S step Inv m (on_return Inv) ->
  (forall a, observes os S step Inv (k a) post) ->
  observes os S step Inv (bind m k) post.
Proof.
  intros Hm Hk. eapply observes_bind; [exact Hm | | exact Hk].
  intros h s [].
Qed.

Lemma stays_static_local read write (init : IO Z) :
  (forall v w, trace (write v w) = trace w) ->
  (forall v w, errno (write v w) = errno w) ->
  observes os S step Inv init (on_return Inv) ->
  observes os S step Inv (static_local read write init) (on_return Inv).
Proof.
  intros Ht He Hi. apply observes_static_local; try assumption.
  intros v s Hs. exact Hs.
Qed.

(** A part that changes nothing and whose result is known. *)
Lemma observes_known {A B} (m : IO A) (res : Res A) (k : A -> IO B)
  (pre : S -> Prop) post :
  (forall w, m w = (res, w)) ->
  (forall h, res = Stop h -> forall s, pre s -> post (Stop h) s) ->
  (forall a, res = Ret a -> observes os S step pre (k a) post) ->
  observes os S step pre (bind m k) post.
Proof.
  intros Hm Hstop Hk w r w' s. unfold bind. rewrite Hm.
  destruct res as [a | h].
  - exact (Hk a eq_refl w r w' s).
  - intros H Hs. injection H as <- <-. exists [].
    split; [now rewrite app_nil_r |]. split; [reflexivity |].
    now apply (Hstop h).
Qed.

End Staying.

(** Every call of a computation that returns keeps the invariant. *)
Ltac stays :=
  repeat first
    [ apply stays_ret
    | apply stays_get_errno
    | apply observes_after; [| intros ?]
    | apply stays_static_local; [reflexivity | reflexivity |]
    | apply stays_sys; [intros ?; discriminate |]
    | apply stays_SetLastError
    | match goal with
      | |- observes _ _ _ _ (if ?b then _ else _) _ => destruct b
      | |- observes _ _ _ _ (match ?x with _ => _ end) _ => destruct x
      | |- observes _ _ _ _ (let '(_, _) := ?x in _) _ => destruct x
      end ].

Section BlockAndMapping.

Variable os : OS.
Variable MF : ProtectionFlags.

Ltac unmapped := stays; intros ? ? Hs; exact Hs.

Lemma win32_allocation_unhinted NumBytes Flags res d s0 :
  (forall w, MemWin32.getWindowsProtectionFlags MF Flags w = (res, w)) ->
  observes os (option Mapping) mapping_step (eq s0)
    (MemWin32.allocateMappedMemory_rec os MF d NumBytes None Flags)
    (win32_allocated NumBytes res s0).
Proof.
  intros Hres.
  assert (Hd : MemWin32.allocateMappedMemory_rec os MF d NumBytes None Flags
               = MemWin32.allocateMappedMemory_rec os MF 0 NumBytes None Flags)
    by (destruct d; reflexivity).
  rewrite Hd. cbn [MemWin32.allocateMappedMemory_rec].
  destruct (Z.eqb_spec NumBytes 0) as [HN | HN].
  { apply observes_ret. intros s <-. left. auto. }
  apply observes_after.
  { unfold MemWin32.Granularity_static, MemWin32.getAllocationGranularity. unmapped. }
  intros Granularity. cbv zeta.
  eapply observes_known with (res := res); [exact Hres | |].
  { intros h -> s <-. split; reflexivity. }
  intros p ->.
  eapply observes_bind with
    (mid := fun r s =>
              match r with
              | Ret rep =>
                  s = Some (mkMapping
                              (Word.to_size_t
                                 (Word.to_size_t (NumBytes + Granularity - 1) / Granularity
                                  * Granularity)) p (rv rep))
              | Stop _ => False
              end).
  { apply observes_sys; [intros e; discriminate |]. intros r s _. reflexivity. }
  { intros h s []. }
  intros rep. destruct (Z.eqb_spec (rv rep) 0) as [Hz | Hz].
  - eapply observes_bind with (mid := on_return _);
      [ apply stays_get_errno | intros h s [] | intros e ].
    apply observes_ret. intros s ->. right. split; [exact HN |].
    eexists _, p. split; [reflexivity |]. split; [reflexivity |].
    split; [reflexivity |]. right. cbn [answered_address].
    split; [exact Hz |]. split; [reflexivity |]. now exists e.
  - apply observes_after.
    { unfold MemWin32.InvalidateInstructionCache. unmapped. }
    intros _. apply observes_ret. intros s ->. right. split; [exact HN |].
    eexists _, p. split; [reflexivity |]. split; [reflexivity |].
    split; [reflexivity |]. left. cbn [answered_address asked_length].
    split; [exact Hz |]. split; reflexivity.
Qed.

Lemma win32_allocation_hinted NumBytes nb Flags res d s0 :
  (forall w, MemWin32.getWindowsProtectionFlags MF Flags w = (res, w)) ->
  observes os (option Mapping) mapping_step (eq s0)
    (MemWin32.allocateMappedMemory_rec os MF (S d) NumBytes (Some nb) Flags)
    (win32_allocated NumBytes res s0).
Proof.
  intros Hres. cbn [MemWin32.allocateMappedMemory_rec].
  destruct (Z.eqb_spec NumBytes 0) as [HN | HN].
  { apply observes_ret. intros s <-. left. auto. }
  apply observes_after.
  { unfold MemWin32.Granularity_static, MemWin32.getAllocationGranularity. unmapped. }
  intros Granularity. cbv zeta.
  eapply observes_known with (res := res); [exact Hres | |].
  { intros h -> s <-. split; reflexivity. }
  intros p ->.
  eapply observes_bind with
    (mid := fun r s =>
              match r with
              | Ret rep =>
                  s = Some (mkMapping
                              (Word.to_size_t
                                 (Word.to_size_t (NumBytes + Granularity - 1) / Granularity
                                  * Granularity)) p (rv rep))
              | Stop _ => False
              end).
  { apply observes_sys; [intros e; discriminate |]. intros r s _. reflexivity. }
  { intros h s []. }
  intros rep. destruct (Z.eqb_spec (rv rep) 0) as [Hz | Hz].
  - eapply observes_weaken;
      [ apply (win32_allocation_unhinted NumBytes Flags (Ret p) d
                 (Some (mkMapping
                          (Word.to_size_t
                             (Word.to_size_t (NumBytes + Granularity - 1) / Granularity
                              * Granularity)) p (rv rep))) Hres)
      | intros s ->; reflexivity
      | intros [[M ec] | h] s ].
    + intros [(HN0 & _) | H]; [contradiction | right; exact H].
    + intros [H _]. discriminate H.
  - apply observes_after.
    { unfold MemWin32.InvalidateInstructionCache. unmapped. }
    intros _. apply observes_ret. intros s ->. right. split; [exact HN |].
    eexists _, p. split; [reflexivity |]. split; [reflexivity |].
    split; [reflexivity |]. left. cbn [answered_address asked_length].
    split; [exact Hz |]. split; reflexivity.
Qed.

Lemma win32_allocation_observed NumBytes NearBlock Flags res s0 :
  (forall w, MemWin32.getWindowsProtectionFlags MF Flags w = (res, w)) ->
  observes os (option Mapping) mapping_step (eq s0)
    (MemWin32.allocateMappedMemory os MF NumBytes NearBlock Flags)
    (win32_allocated NumBytes res s0).
Proof.
  intros Hres. unfold MemWin32.allocateMappedMemory.
  destruct NearBlock as [nb |].
  - now apply win32_allocation_hinted.
  - now apply win32_allocation_unhinted.
Qed.

Variable cfg : MemUnix.Config.

(** From the translation of the flags on: the mmap call and what
    follows it, without a hint. *)
Ltac posix_maps res Hres len :=
  eapply observes_known with (res := res); [exact Hres | |];
  [ intros ? -> ? <-; split; reflexivity |];
  let p := fresh "p" in
  intros p ->;
  eapply observes_bind with
    (mid := fun r s =>
              match r with
              | Ret rep => s = Some (mkMapping len p (rv rep))
              | Stop _ => False
              end);
  [ apply observes_sys; [intros ?; discriminate |];
    intros ? ? _; reflexivity
  | intros ? ? []
  | ].

Lemma posix_allocation_unhinted NumBytes PFlags res d s0 :
  (forall w, MemUnix.getPosixProtectionFlags MF cfg PFlags w = (res, w)) ->
  observes os (option Mapping) mapping_step (eq s0)
    (MemUnix.allocateMappedMemory_rec os MF cfg d NumBytes None PFlags)
    (posix_allocated cfg NumBytes res s0).
Proof.
  intros Hres.
  assert (Hd : MemUnix.allocateMappedMemory_rec os MF cfg d NumBytes None PFlags
               = MemUnix.allocateMappedMemory_rec os MF cfg 0 NumBytes None PFlags)
    by (destruct d; reflexivity).
  rewrite Hd. cbn [MemUnix.allocateMappedMemory_rec].
  destruct (Z.eqb_spec NumBytes 0) as [HN | HN].
  { apply observes_ret. intros s <-. left. auto. }
  apply observes_after.
  { unfold MemUnix.PageSize_static. unmapped. }
  intros PageSize. cbv zeta.
  assert (Hsize : Word.to_size_t
                    (PageSize * (Word.to_size_t (NumBytes + PageSize - 1) / PageSize))
                  = Word.to_size_t
                      (Word.to_size_t (NumBytes + PageSize - 1) / PageSize * PageSize))
    by (f_equal; apply Z.mul_comm).
  rewrite Hsize.
  destruct (MemUnix.NEED_DEV_ZERO_FOR_MMAP cfg) eqn:Hdev.
  - apply observes_after.
    { unfold MemUnix.zero_fd_static. unmapped. }
    intros zero_fd. destruct (zero_fd =? -1).
    { eapply observes_bind with (mid := on_return _);
        [ apply stays_get_errno | intros h s [] | intros e ].
      apply observes_ret. intros s <-. right; left.
      split; [exact HN |]. split; [exact Hdev |]. split; [reflexivity |].
      split; [now exists e | reflexivity]. }
    posix_maps res Hres
      (Word.to_size_t (Word.to_size_t (NumBytes + PageSize - 1) / PageSize * PageSize)).
    intros rep. destruct (Z.eqb_spec (rv rep) MemUnix.MAP_FAILED) as [Hz | Hz].
    + eapply observes_bind with (mid := on_return _);
        [ apply stays_get_errno | intros h s [] | intros e ].
      apply observes_ret. intros s ->. right; right. split; [exact HN |].
      eexists _, p. split; [reflexivity |]. split; [reflexivity |].
      split; [reflexivity |]. right. cbn [answered_address].
      split; [exact Hz |]. split; [reflexivity |]. now exists e.
    + apply observes_after.
      { unfold MemUnix.InvalidateInstructionCache. unmapped. }
      intros _. apply observes_ret. intros s ->. right; right.
      split; [exact HN |].
      eexists _, p. split; [reflexivity |]. split; [reflexivity |].
      split; [reflexivity |]. left. cbn [answered_address asked_length].
      split; [exact Hz |]. split; reflexivity.
  - posix_maps res Hres
      (Word.to_size_t (Word.to_size_t (NumBytes + PageSize - 1) / PageSize * PageSize)).
    intros rep. destruct (Z.eqb_spec (rv rep) MemUnix.MAP_FAILED) as [Hz | Hz].
    + eapply observes_bind with (mid := on_return _);
        [ apply stays_get_errno | intros h s [] | intros e ].
      apply observes_ret. intros s ->. right; right. split; [exact HN |].
      eexists _, p. split; [reflexivity |]. split; [reflexivity |].
      split; [reflexivity |]. right. cbn [answered_address].
      split; [exact Hz |]. split; [reflexivity |]. now exists e.
    + apply observes_after.
      { unfold MemUnix.InvalidateInstructionCache. unmapped. }
      intros _. apply observes_ret. intros s ->. right; right.
      split; [exact HN |].
      eexists _, p. split; [reflexivity |]. split; [reflexivity |].
      split; [reflexivity |]. left. cbn [answered_address asked_length].
      split; [exact Hz |]. split; reflexivity.
Qed.

Lemma posix_allocation_hinted NumBytes nb PFlags res d s0 :
  (forall w, MemUnix.getPosixProtectionFlags MF cfg PFlags w = (res, w)) ->
  observes os (option Mapping) mapping_step (eq s0)
    (MemUnix.allocateMappedMemory_rec os MF cfg (S d) NumBytes (Some nb) PFlags)
    (posix_allocated cfg NumBytes res s0).
Proof.
  intros Hres. cbn [MemUnix.allocateMappedMemory_rec].
  destruct (Z.eqb_spec NumBytes 0) as [HN | HN].
  { apply observes_ret. intros s <-. left. auto. }
  apply observes_after.
  { unfold MemUnix.PageSize_static. unmapped. }
  intros PageSize. cbv zeta.
  assert (Hsize : Word.to_size_t
                    (PageSize * (Word.to_size_t (NumBytes + PageSize - 1) / PageSize))
                  = Word.to_size_t
                      (Word.to_size_t (NumBytes + PageSize - 1) / PageSize * PageSize))
    by (f_equal; apply Z.mul_comm).
  rewrite Hsize.
  assert (Hretry : forall p rep,
             res = Ret p -> rv rep = MemUnix.MAP_FAILED ->
             observes os (option Mapping) mapping_step
               (fun s => s = Some (mkMapping
                                     (Word.to_size_t
                                        (Word.to_size_t (NumBytes + PageSize - 1) / PageSize
                                         * PageSize)) p (rv rep)))
               (MemUnix.allocateMappedMemory_rec os MF cfg d NumBytes None PFlags)
               (posix_allocated cfg NumBytes res s0)).
  { intros p rep Hp Hz.
    eapply observes_weaken;
      [ apply (posix_allocation_unhinted NumBytes PFlags res d
                 (Some (mkMapping
                          (Word.to_size_t
                             (Word.to_size_t (NumBytes + PageSize - 1) / PageSize
                              * PageSize)) p (rv rep))) Hres)
      | intros s ->; reflexivity
      | intros [[M ec] | h] s ].
    - intros [(HN0 & _) | [(_ & _ & HM & He & Hs) | H]];
        [contradiction | | right; right; exact H].
      right; right. split; [exact HN |].
      eexists _, p. split; [exact Hp |]. split; [exact Hs |].
      split; [reflexivity |]. right. cbn [answered_address].
      split; [exact Hz |]. split; [exact HM | exact He].
    - intros [H _]. rewrite Hp in H. discriminate H. }
  destruct (MemUnix.NEED_DEV_ZERO_FOR_MMAP cfg) eqn:Hdev.
  - apply observes_after.
    { unfold MemUnix.zero_fd_static. unmapped. }
    intros zero_fd. destruct (zero_fd =? -1).
    { eapply observes_bind with (mid := on_return _);
        [ apply stays_get_errno | intros h s [] | intros e ].
      apply observes_ret. intros s <-. right; left.
      split; [exact HN |]. split; [exact Hdev |]. split; [reflexivity |].
      split; [now exists e | reflexivity]. }
    posix_maps res Hres
      (Word.to_size_t (Word.to_size_t (NumBytes + PageSize - 1) / PageSize * PageSize)).
    intros rep. destruct (Z.eqb_spec (rv rep) MemUnix.MAP_FAILED) as [Hz | Hz].
    + now apply Hretry.
    + apply observes_after.
      { unfold MemUnix.InvalidateInstructionCache. unmapped. }
      intros _. apply observes_ret. intros s ->. right; right.
      split; [exact HN |].
      eexists _, p. split; [reflexivity |]. split; [reflexivity |].
      split; [reflexivity |]. left. cbn [answered_address asked_length].
      split; [exact Hz |]. split; reflexivity.
  - posix_maps res Hres
      (Word.to_size_t (Word.to_size_t (NumBytes + PageSize - 1) / PageSize * PageSize)).
    intros rep. destruct (Z.eqb_spec (rv rep) MemUnix.MAP_FAILED) as [Hz | Hz].
    + now apply Hretry.
    + apply observes_after.
      { unfold MemUnix.InvalidateInstructionCache. unmapped. }
      intros _. apply observes_ret. intros s ->. right; right.
      split; [exact HN |].
      eexists _, p. split; [reflexivity |]. split; [reflexivity |].
      split; [reflexivity |]. left. cbn [answered_address asked_length].
      split; [exact Hz |]. split; reflexivity.
Qed.

Lemma posix_allocation_observed NumBytes NearBlock PFlags res s0 :
  (forall w, MemUnix.getPosixProtectionFlags MF cfg PFlags w = (res, w)) ->
  observes os (option Mapping) mapping_step (eq s0)
    (MemUnix.allocateMappedMemory os MF cfg NumBytes NearBlock PFlags)
    (posix_allocated cfg NumBytes res s0).
Proof.
  intros Hres. unfold MemUnix.allocateMappedMemory.
  destruct NearBlock as [nb |].
  - now apply posix_allocation_hinted.
  - now apply posix_allocation_unhinted.
Qed.

End BlockAndMapping.

(** ** Permission translation (C5) *)

Section Translation.

Variable MF : ProtectionFlags.
Hypothesis indep : independent MF.

Lemma has_disjoint a b : Z.land a b = 0 -> has a b = false.
Proof. intros H. unfold has. rewrite H. reflexivity. Qed.

Lemma has_lor_disjoint a b c :
  Z.land a c = 0 -> Z.land b c = 0 -> has (Z.lor a b) c = false.
Proof.
  intros Ha Hb. apply has_disjoint.
  rewrite Z.land_lor_distr_l, Ha, Hb. reflexivity.
Qed.

Lemma MF_read_write : Z.land (MF_READ MF) (MF_WRITE MF) = 0.
Proof. apply indep. Qed.

Lemma MF_read_exec : Z.land (MF_READ MF) (MF_EXEC MF) = 0.
Proof. apply indep. Qed.

Lemma MF_write_exec : Z.land (MF_WRITE MF) (MF_EXEC MF) = 0.
Proof. apply indep. Qed.

Lemma MF_write_read : Z.land (MF_WRITE MF) (MF_READ MF) = 0.
Proof. rewrite Z.land_comm. apply indep. Qed.

Lemma MF_exec_read : Z.land (MF_EXEC MF) (MF_READ MF) = 0.
Proof. rewrite Z.land_comm. apply indep. Qed.

Lemma MF_exec_write : Z.land (MF_EXEC MF) (MF_WRITE MF) = 0.
Proof. rewrite Z.land_comm. apply indep. Qed.

Lemma MF_WRITE_not_READ : (MF_WRITE MF =? MF_READ MF) = false.
Proof.
  apply Z.eqb_neq. intros E.
  pose proof MF_read_write as H. rewrite <- E, Z.land_diag in H.
  destruct indep as (_ & Hw & _). contradiction.
Qed.

Ltac disjoint :=
  first [ apply has_disjoint;
          first [ apply MF_read_write | apply MF_read_exec | apply MF_write_exec
                | apply MF_write_read | apply MF_exec_read | apply MF_exec_write ]
        | apply has_lor_disjoint;
          first [ apply MF_read_write | apply MF_read_exec | apply MF_write_exec
                | apply MF_write_read | apply MF_exec_read | apply MF_exec_write ] ].

Ltac covered :=
  unfold covers, requested; cbn [readable writable executable];
  rewrite ?implb_true_r;
  repeat match goal with
         | |- context [implb (has ?a ?b) false] =>
             replace (has a b) with false by (symmetry; disjoint)
         end;
  reflexivity.

(** Whatever [getWindowsProtectionFlags] returns allows all that was
    asked for, and the function calls nothing. *)
Lemma getWindowsProtectionFlags_covers Flags w p w' :
  MemWin32.getWindowsProtectionFlags MF Flags w = (Ret p, w') ->
  w' = w /\ covers (MemWin32.page_perm p) (requested MF Flags) = true.
Proof.
  unfold MemWin32.getWindowsProtectionFlags.
  repeat match goal with
         | |- context [Flags =? ?x] => destruct (Z.eqb_spec Flags x) as [E | _]
         end;
    intros H; try discriminate H;
    injection H as <- <-; split; try reflexivity; subst Flags;
    repeat match goal with
           | |- context [MemWin32.page_perm ?c] =>
               let v := eval vm_compute in (MemWin32.page_perm c) in
               change (MemWin32.page_perm c) with v
           end;
    covered.
Qed.

(** The same for [getPosixProtectionFlags]. *)
Lemma getPosixProtectionFlags_covers cfg Flags w p w' :
  MemUnix.getPosixProtectionFlags MF cfg Flags w = (Ret p, w') ->
  w' = w /\ covers (MemUnix.prot_perm p) (requested MF Flags) = true.
Proof.
  unfold MemUnix.getPosixProtectionFlags.
  repeat match goal with
         | |- context [Flags =? ?x] => destruct (Z.eqb_spec Flags x) as [E | _]
         end;
    intros H; try discriminate H;
    injection H as <- <-; split; try reflexivity; subst Flags;
    try destruct (MemUnix.FreeBSD cfg);
    repeat match goal with
           | |- context [MemUnix.prot_perm ?c] =>
               let v := eval vm_compute in (MemUnix.prot_perm c) in
               change (MemUnix.prot_perm c) with v
           end;
    covered.
Qed.

(** Write-only has no constant of its own on Win32: it is translated to
    the read-write one. *)
Lemma getWindowsProtectionFlags_write_only w :
  MemWin32.getWindowsProtectionFlags MF (MF_WRITE MF) w
  = (Ret MemWin32.PAGE_READWRITE, w).
Proof.
  unfold MemWin32.getWindowsProtectionFlags.
  rewrite MF_WRITE_not_READ, Z.eqb_refl. reflexivity.
Qed.

End Translation.

Section Grants.

Variable os : OS.
Variable MF : ProtectionFlags.
Variable Flags : Z.

(** [q]: a permission set every translation of [Flags] is known to cover. *)
Variable q : Perm.
Hypothesis win32_covers : forall p w w',
  MemWin32.getWindowsProtectionFlags MF Flags w = (Ret p, w') ->
  covers (MemWin32.page_perm p) q = true.
Hypothesis posix_covers : forall cfg p w w',
  MemUnix.getPosixProtectionFlags MF cfg Flags w = (Ret p, w') ->
  covers (MemUnix.prot_perm p) q = true.

Ltac no_grant := intros ? Hg; discriminate Hg.

Lemma win32_translation_calls :
  all_calls (grants_at_least q) (MemWin32.getWindowsProtectionFlags MF Flags).
Proof. unfold MemWin32.getWindowsProtectionFlags. step_calls. Qed.

Lemma posix_translation_calls cfg :
  all_calls (grants_at_least q) (MemUnix.getPosixProtectionFlags MF cfg Flags).
Proof. unfold MemUnix.getPosixProtectionFlags. step_calls. Qed.

Lemma win32_allocate_grants depth NumBytes :
  forall NearBlock,
    all_calls (grants_at_least q) (MemWin32.allocateMappedMemory_rec os MF depth NumBytes NearBlock Flags).
Proof.
  induction depth as [| d IH]; intros NearBlock;
    cbn [MemWin32.allocateMappedMemory_rec];
    (destruct (NumBytes =? 0); [apply all_calls_ret |]);
    (apply all_calls_bind;
     [ unfold MemWin32.Granularity_static, MemWin32.getAllocationGranularity;
       step_calls; no_grant | intros G ]);
    (apply all_calls_bind_ret; [apply win32_translation_calls | intros p w w' Hp]);
    apply win32_covers in Hp;
    (apply all_calls_bind;
     [ apply all_calls_sys; intros g Hg; injection Hg as <-; exact Hp | intros r ]);
    (destruct (rv r =? 0);
     [ destruct NearBlock; [| step_calls]
     | unfold MemWin32.InvalidateInstructionCache; step_calls; no_grant ]).
  - apply all_calls_halt.
  - apply IH.
Qed.

Lemma win32_protect_grants M :
  all_calls (grants_at_least q) (MemWin32.protectMappedMemory os MF M Flags).
Proof.
  unfold MemWin32.protectMappedMemory.
  destruct ((Address M =? 0) || (Size M =? 0)); [apply all_calls_ret |].
  apply all_calls_bind_ret; [apply win32_translation_calls | intros p w w' Hp].
  apply win32_covers in Hp.
  apply all_calls_bind;
    [ apply all_calls_sys; intros g Hg; injection Hg as <-; exact Hp | intros r ].
  unfold MemWin32.InvalidateInstructionCache; step_calls; no_grant.
Qed.

Lemma posix_allocate_grants cfg depth NumBytes :
  forall NearBlock,
    all_calls (grants_at_least q) (MemUnix.allocateMappedMemory_rec os MF cfg depth NumBytes NearBlock Flags).
Proof.
  induction depth as [| d IH]; intros NearBlock;
    cbn [MemUnix.allocateMappedMemory_rec];
    (destruct (NumBytes =? 0); [apply all_calls_ret |]);
    (apply all_calls_bind;
     [ unfold MemUnix.PageSize_static; step_calls; no_grant | intros PageSize ]);
    (destruct (MemUnix.NEED_DEV_ZERO_FOR_MMAP cfg);
     [ apply all_calls_bind;
       [ unfold MemUnix.zero_fd_static; step_calls; no_grant | intros fd ];
       (destruct (fd =? -1); [step_calls |]) |]);
    (apply all_calls_bind_ret; [apply posix_translation_calls | intros p w w' Hp]);
    apply posix_covers in Hp;
    (apply all_calls_bind;
     [ apply all_calls_sys; intros g Hg; injection Hg as <-; exact Hp | intros r ]);
    (destruct (rv r =? MemUnix.MAP_FAILED);
     [ destruct NearBlock; [| step_calls]
     | unfold MemUnix.InvalidateInstructionCache; step_calls; no_grant ]);
    first [apply all_calls_halt | apply IH].
Qed.

Lemma posix_protect_grants cfg M :
  all_calls (grants_at_least q) (MemUnix.protectMappedMemory os MF cfg M Flags).
Proof.
  unfold MemUnix.protectMappedMemory.
  destruct ((Address M =? 0) || (Size M =? 0)); [apply all_calls_ret |].
  destruct (Flags =? 0); [apply all_calls_ret |].
  apply all_calls_bind_ret; [apply posix_translation_calls | intros p w w' Hp].
  apply posix_covers in Hp.
  apply all_calls_bind;
    [ apply all_calls_sys; intros g Hg; injection Hg as <-; exact Hp | intros r ].
  unfold MemUnix.InvalidateInstructionCache; step_calls; no_grant.
Qed.

End Grants.

(** A write-only re-protection on Win32, run: one VirtualProtect call,
    with PAGE_READWRITE. *)
Lemma win32_protect_write_only os MF (indep : independent MF) M w :
  Address M <> 0 -> Size M <> 0 ->
  MemWin32.protectMappedMemory os MF M (MF_WRITE MF) w
  = (let r := os (trace w) (errno w)
                 (c_VirtualProtect (Address M) (Size M) MemWin32.PAGE_READWRITE) in
     (Ret (if rv r =? 0 then mkEC (err r) system_category else success),
      record (c_VirtualProtect (Address M) (Size M) MemWin32.PAGE_READWRITE) (err r) w)).
Proof.
  intros HA HS. apply Z.eqb_neq in HA, HS.
  unfold MemWin32.protectMappedMemory. rewrite HA, HS. cbn [orb].
  unfold bind at 1. rewrite (getWindowsProtectionFlags_write_only MF indep).
  rewrite bind_sys. cbv zeta.
  destruct (rv _ =? 0); [reflexivity |].
  assert (Hx : has (MF_WRITE MF) (MF_EXEC MF) = false).
  { destruct indep as (_ & _ & _ & _ & _ & H). unfold has. now rewrite H. }
  rewrite Hx. reflexivity.
Qed.

(** A write-only allocation on Win32: its last VirtualAlloc call asks
    for PAGE_READWRITE, and the answer to it is the result. *)
Lemma win32_allocate_write_only os MF (indep : independent MF) NumBytes NearBlock
      w r w' :
  NumBytes <> 0 ->
  MemWin32.allocateMappedMemory os MF NumBytes NearBlock (MF_WRITE MF) w = (r, w') ->
  exists M ec m,
    r = Ret (M, ec) /\
    last_mapping (transcript os w w') = Some m /\
    asked_protection m = MemWin32.PAGE_READWRITE /\
    block_of 0 m M ec.
Proof.
  intros HN H.
  pose proof (observes_transcript _ _ _ _ _ _ _ _ _ None
                (win32_allocation_observed os MF NumBytes NearBlock (MF_WRITE MF)
                   (Ret MemWin32.PAGE_READWRITE) None
                   (getWindowsProtectionFlags_write_only MF indep))
                H eq_refl) as Hpost.
  fold (last_mapping (transcript os w w')) in Hpost.
  destruct r as [[M ec] | h]; cbn [win32_allocated] in Hpost.
  - destruct Hpost as [(HN0 & _) | (_ & m & p & Hp & Hs & Hprot & Hb)];
      [contradiction |].
    injection Hp as <-. now exists M, ec, m.
  - destruct Hpost as [Hp _]. discriminate Hp.
Qed.

(** C5. A request for write-only memory ([MF_WRITE] alone) on the Win32
    backend, whose page protections have no write-only constant, is
    translated to PAGE_READWRITE, so every VirtualAlloc or VirtualProtect
    call made for it grants reading and writing.  Such a call is made:
    re-protecting a block that is not empty is exactly one
    VirtualProtect call with PAGE_READWRITE, which succeeds when that
    call does; and an allocation of more than zero bytes ends with a
    VirtualAlloc call that asks for PAGE_READWRITE, whose answer is the
    block returned, or the failure reported.  More generally, on either
    backend, every call that maps or protects memory for a request
    grants at least the permissions the request names. *)
Theorem C5_write_only_is_promoted_to_read_write :
  forall (os : OS) (MF : ProtectionFlags),
    independent MF ->
    forall (cfg : MemUnix.Config) (w : World),
      MemWin32.getWindowsProtectionFlags MF (MF_WRITE MF) w
        = (Ret MemWin32.PAGE_READWRITE, w) /\
      MemWin32.page_perm MemWin32.PAGE_READWRITE = read_write /\
      (forall NumBytes NearBlock r w',
          MemWin32.allocateMappedMemory os MF NumBytes NearBlock (MF_WRITE MF) w = (r, w') ->
          Forall (grants_at_least read_write) (since w w')) /\
      (forall M r w',
          MemWin32.protectMappedMemory os MF M (MF_WRITE MF) w = (r, w') ->
          Forall (grants_at_least read_write) (since w w')) /\
      (forall Flags NumBytes NearBlock r w',
          MemWin32.allocateMappedMemory os MF NumBytes NearBlock Flags w = (r, w') ->
          Forall (grants_at_least (requested MF Flags)) (since w w')) /\
      (forall Flags M r w',
          MemWin32.protectMappedMemory os MF M Flags w = (r, w') ->
          Forall (grants_at_least (requested MF Flags)) (since w w')) /\
      (forall Flags NumBytes NearBlock r w',
          MemUnix.allocateMappedMemory os MF cfg NumBytes NearBlock Flags w = (r, w') ->
          Forall (grants_at_least (requested MF Flags)) (since w w')) /\
      (forall Flags M r w',
          MemUnix.protectMappedMemory os MF cfg M Flags w = (r, w') ->
          Forall (grants_at_least (requested MF Flags)) (since w w')) /\
      (forall M,
          Address M <> 0 -> Size M <> 0 ->
          MemWin32.protectMappedMemory os MF M (MF_WRITE MF) w
          = (let r := os (trace w) (errno w)
                         (c_VirtualProtect (Address M) (Size M)
                                           MemWin32.PAGE_READWRITE) in
             (Ret (if rv r =? 0 then mkEC (err r) system_category else success),
              record (c_VirtualProtect (Address M) (Size M) MemWin32.PAGE_READWRITE)
                     (err r) w))) /\
      (forall NumBytes NearBlock r w',
          NumBytes <> 0 ->
          MemWin32.allocateMappedMemory os MF NumBytes NearBlock (MF_WRITE MF) w = (r, w') ->
          exists M ec m,
            r = Ret (M, ec) /\
            last_mapping (transcript os w w') = Some m /\
            asked_protection m = MemWin32.PAGE_READWRITE /\
            block_of 0 m M ec).
Proof.
  intros os MF indep cfg w.
  assert (Hrw : forall p w0 w1,
             MemWin32.getWindowsProtectionFlags MF (MF_WRITE MF) w0 = (Ret p, w1) ->
             covers (MemWin32.page_perm p) read_write = true).
  { intros p w0 w1 H. rewrite (getWindowsProtectionFlags_write_only MF indep) in H.
    injection H as <- _. reflexivity. }
  assert (Hw : forall Flags p w0 w1,
             MemWin32.getWindowsProtectionFlags MF Flags w0 = (Ret p, w1) ->
             covers (MemWin32.page_perm p) (requested MF Flags) = true).
  { intros Flags p w0 w1 H.
    exact (proj2 (getWindowsProtectionFlags_covers MF indep _ _ _ _ H)). }
  assert (Hp : forall Flags cfg0 p w0 w1,
             MemUnix.getPosixProtectionFlags MF cfg0 Flags w0 = (Ret p, w1) ->
             covers (MemUnix.prot_perm p) (requested MF Flags) = true).
  { intros Flags cfg0 p w0 w1 H.
    exact (proj2 (getPosixProtectionFlags_covers MF indep _ _ _ _ _ H)). }
  split; [apply (getWindowsProtectionFlags_write_only MF indep) |].
  split; [reflexivity |].
  split; [| split; [| split; [| split; [| split; [| split; [| split]]]]]].
  - intros NumBytes NearBlock r w' H.
    eapply all_calls_since; [| exact H].
    apply win32_allocate_grants. exact Hrw.
  - intros M r w' H.
    eapply all_calls_since; [| exact H].
    apply win32_protect_grants. exact Hrw.
  - intros Flags NumBytes NearBlock r w' H.
    eapply all_calls_since; [| exact H].
    apply win32_allocate_grants. apply Hw.
  - intros Flags M r w' H.
    eapply all_calls_since; [| exact H].
    apply win32_protect_grants. apply Hw.
  - intros Flags NumBytes NearBlock r w' H.
    eapply all_calls_since; [| exact H].
    apply posix_allocate_grants. apply Hp.
  - intros Flags M r w' H.
    eapply all_calls_since; [| exact H].
    apply posix_protect_grants. apply Hp.
  - intros M HA HS. now apply win32_protect_write_only.
  - intros NumBytes NearBlock r w' HN H.
    now apply (win32_allocate_write_only os MF indep NumBytes NearBlock w r w').
Qed.

Lemma llvm_flags_independent : independent llvm_flags.
Proof. repeat split; discriminate. Qed.

(** C5 at an instance: LLVM's flag values, a write-only request for one
    page on Win32.  The system maps the page at 65536; the block
    returned is the one the VirtualAlloc call, made with PAGE_READWRITE,
    was answered with. *)
Lemma C5_witness :
  independent llvm_flags /\
  MemWin32.getWindowsProtectionFlags llvm_flags (MF_WRITE llvm_flags) initial
    = (Ret MemWin32.PAGE_READWRITE, initial) /\
  (forall r w',
      MemWin32.allocateMappedMemory Sample.os_refuses_hints llvm_flags 4096 None
        (MF_WRITE llvm_flags) initial = (r, w') ->
      Forall (grants_at_least read_write) (since initial w')) /\
  (forall r w',
      MemWin32.allocateMappedMemory Sample.os_refuses_hints llvm_flags 4096 None
        (MF_WRITE llvm_flags) initial = (r, w') ->
      exists M ec m,
        r = Ret (M, ec) /\
        last_mapping (transcript Sample.os_refuses_hints initial w') = Some m /\
        asked_protection m = MemWin32.PAGE_READWRITE /\
        block_of 0 m M ec).
Proof.
  assert (H : independent llvm_flags) by (repeat split; discriminate).
  split; [exact H |].
  pose proof (C5_write_only_is_promoted_to_read_write
                Sample.os_refuses_hints llvm_flags H Sample.no_dev_zero initial)
    as (H1 & _ & H3 & _ & _ & _ & _ & _ & _ & H10).
  split; [exact H1 |]. split; [intros r w'; apply H3 |].
  intros r w'. apply H10. discriminate.
Defined.

(** The same request, run: one VirtualAlloc, with PAGE_READWRITE. *)
Example write_only_request_on_win32 :
  calls (MemWin32.allocateMappedMemory Sample.os_refuses_hints llvm_flags 4096 None
           (MF_WRITE llvm_flags) initial)
  = [c_GetSystemInfo;
     c_VirtualAlloc 0 65536 (Z.lor MemWin32.MEM_RESERVE MemWin32.MEM_COMMIT)
                    MemWin32.PAGE_READWRITE].
Proof. reflexivity. Qed.

(** ** Placement hints (C6) *)

(** The translations consult neither the world nor the depth bound. *)
Lemma posix_translation_pure MF cfg Flags :
  exists res, res <> Stop OutOfFuel /\
    forall w, MemUnix.getPosixProtectionFlags MF cfg Flags w = (res, w).
Proof.
  unfold MemUnix.getPosixProtectionFlags.
  repeat match goal with
         | |- context [Flags =? ?x] => destruct (Flags =? x)
         end; eexists; (split; [| intros w; reflexivity]); discriminate.
Qed.

Lemma win32_translation_pure MF Flags :
  exists res, res <> Stop OutOfFuel /\
    forall w, MemWin32.getWindowsProtectionFlags MF Flags w = (res, w).
Proof.
  unfold MemWin32.getWindowsProtectionFlags.
  repeat match goal with
         | |- context [Flags =? ?x] => destruct (Flags =? x)
         end; eexists; (split; [| intros w; reflexivity]); discriminate.
Qed.

(** Without a hint the depth bound is never consulted. *)
Lemma posix_allocate_no_hint_depth os MF cfg d d' NumBytes PFlags w :
  MemUnix.allocateMappedMemory_rec os MF cfg d NumBytes None PFlags w
  = MemUnix.allocateMappedMemory_rec os MF cfg d' NumBytes None PFlags w.
Proof. destruct d, d'; reflexivity. Qed.

Lemma win32_allocate_no_hint_depth os MF d d' NumBytes Flags w :
  MemWin32.allocateMappedMemory_rec os MF d NumBytes None Flags w
  = MemWin32.allocateMappedMemory_rec os MF d' NumBytes None Flags w.
Proof. destruct d, d'; reflexivity. Qed.

Lemma since_trans w w1 w' l1 l2 :
  trace w1 = trace w ++ l1 -> trace w' = trace w1 ++ l2 ->
  since w w' = since w w1 ++ since w1 w'.
Proof.
  intros H1 H2.
  rewrite (since_app _ _ _ H1), (since_app _ _ _ H2).
  apply since_app. now rewrite H2, H1, app_assoc.
Qed.

Lemma map_addresses_trans w w1 w' l1 l2 :
  trace w1 = trace w ++ l1 -> trace w' = trace w1 ++ l2 ->
  map_addresses w w' = map_addresses w w1 ++ map_addresses w1 w'.
Proof.
  intros H1 H2. unfold map_addresses.
  rewrite (since_trans _ _ _ _ _ H1 H2). apply flat_map_app.
Qed.

(** Compute the calls logged between two explicit worlds. *)
Ltac log_trace :=
  cbn [trace record set_PageSize set_zero_fd set_Granularity];
  first [ symmetry; apply app_nil_r
        | rewrite <- ?app_assoc; reflexivity ].

Ltac log_since :=
  unfold map_addresses;
  erewrite since_app by log_trace;
  cbn [flat_map app].

Ltac run_io :=
  unfold static_local, bind, sys, get_errno, ret, halt;
  cbn [st_PageSize st_zero_fd st_Granularity record
       set_PageSize set_zero_fd set_Granularity].

Ltac use_eqs :=
  repeat match goal with
         | H : ?x = _ |- context [?x] => rewrite H
         end.

(** Compute the mapping calls, with their answers, between two explicit
    worlds. *)
Ltac log_mappings :=
  unfold mappings, transcript;
  erewrite since_app by log_trace;
  cbn [replay answer flat_map app fst snd trace errno record
       set_PageSize set_zero_fd set_Granularity Address].

(** An explicit world is reached by calls the oracle answered. *)
Ltac log_answered :=
  eexists; split; [log_trace |];
  cbn [errno_after answer trace errno record
       set_PageSize set_zero_fd set_Granularity];
  reflexivity.

(** Read the tests on answers as equations. *)
Ltac read_tests :=
  repeat match goal with
         | H : (_ =? _) = true |- _ => apply Z.eqb_eq in H
         | H : (_ =? _) = false |- _ => apply Z.eqb_neq in H
         end;
  cbn [trace errno record set_PageSize set_zero_fd set_Granularity] in *.

Section PosixHint.

Variable os : OS.
Variable MF : ProtectionFlags.
Variable cfg : MemUnix.Config.
Variable NumBytes : Z.
Variable PFlags : Z.

Ltac crunch :=
  repeat (cbv beta iota;
          match goal with
          | |- context [NumBytes =? 0] => destruct (NumBytes =? 0) eqn:?
          | |- context [match st_PageSize ?w with _ => _ end] =>
              destruct (st_PageSize w) eqn:?
          | |- context [MemUnix.NEED_DEV_ZERO_FOR_MMAP cfg] =>
              destruct (MemUnix.NEED_DEV_ZERO_FOR_MMAP cfg) eqn:?
          | |- context [match st_zero_fd ?w with _ => _ end] =>
              destruct (st_zero_fd w) eqn:?
          | |- context [?z =? -1] => destruct (z =? -1) eqn:?
          | H : forall w, MemUnix.getPosixProtectionFlags _ _ _ w = _
            |- context [MemUnix.getPosixProtectionFlags _ _ _ ?w] => rewrite (H w)
          | |- context [match ?res with Ret _ => _ | Stop _ => _ end] =>
              is_var res; destruct res
          | |- context [rv ?x =? MemUnix.MAP_FAILED] =>
              destruct (rv x =? MemUnix.MAP_FAILED) eqn:?
          | |- context [has PFlags (MF_EXEC MF)] =>
              destruct (has PFlags (MF_EXEC MF)) eqn:?
          end;
          cbn [st_PageSize st_zero_fd st_Granularity record
               set_PageSize set_zero_fd set_Granularity]).

(** The request without a hint, from a state in which nothing is left
    to prepare: one mapping call, at address 0, and its answer settles
    the result. *)
Lemma posix_ready_run res d w r w' :
  (forall w, MemUnix.getPosixProtectionFlags MF cfg PFlags w = (res, w)) ->
  (NumBytes =? 0) = false ->
  posix_ready cfg res w ->
  MemUnix.allocateMappedMemory_rec os MF cfg d NumBytes None PFlags w = (r, w') ->
  r <> Stop OutOfFuel /\
  (exists pa, mappings (transcript os w w') = [(0, pa)] /\
              settled_by MemUnix.MAP_FAILED pa r) /\
  exists l, trace w' = trace w ++ l.
Proof.
  intros Hres HN ((ps & Hps) & Hzf & (p & ->)).
  rewrite (posix_allocate_no_hint_depth os MF cfg d 0).
  cbn [MemUnix.allocateMappedMemory_rec].
  unfold MemUnix.PageSize_static, MemUnix.zero_fd_static,
    MemUnix.InvalidateInstructionCache.
  run_io. rewrite HN, Hps.
  destruct (MemUnix.NEED_DEV_ZERO_FOR_MMAP cfg).
  - destruct (Hzf eq_refl) as (zf & -> & ->). crunch.
    all: intros H; injection H as <- <-.
    all: (split; [discriminate | split; [| eexists; log_trace]]).
    all: eexists; (split; [log_mappings; reflexivity |]); read_tests.
    all: first [ right; split; [assumption | eexists; reflexivity]
               | left; split; [assumption | eexists; split; reflexivity] ].
  - crunch.
    all: intros H; injection H as <- <-.
    all: (split; [discriminate | split; [| eexists; log_trace]]).
    all: eexists; (split; [log_mappings; reflexivity |]); read_tests.
    all: first [ right; split; [assumption | eexists; reflexivity]
               | left; split; [assumption | eexists; split; reflexivity] ].
Qed.

(** The first pass of a hinted request: it stops before mapping, or it
    maps at the first attempt, or the attempt fails and the function
    calls itself without the hint. *)
Lemma posix_hinted_first_pass res d nb w r w' :
  res <> Stop OutOfFuel ->
  (forall w, MemUnix.getPosixProtectionFlags MF cfg PFlags w = (res, w)) ->
  MemUnix.allocateMappedMemory_rec os MF cfg (S d) NumBytes (Some nb) PFlags w = (r, w') ->
  (mappings (transcript os w w') = [] /\ r <> Stop OutOfFuel /\
   (exists l, trace w' = trace w ++ l) /\
   MemUnix.allocateMappedMemory_rec os MF cfg 0 NumBytes None PFlags w = (r, w') /\
   (NumBytes = 0 \/ (exists h, r = Stop h) \/
    (MemUnix.NEED_DEV_ZERO_FOR_MMAP cfg = true /\ st_zero_fd w' = Some (-1))))
  \/ (exists a blk, r = Ret (blk, success) /\
                    mappings (transcript os w w') = [(a, Address blk)] /\
                    Address blk <> MemUnix.MAP_FAILED)
  \/ (exists a w1,
         MemUnix.allocateMappedMemory_rec os MF cfg d NumBytes None PFlags w1 = (r, w') /\
         mappings (transcript os w w1) = [(a, MemUnix.MAP_FAILED)] /\
         answered_by os w w1 /\
         (NumBytes =? 0) = false /\ posix_ready cfg res w1).
Proof.
  intros Hfuel Hres.
  match goal with |- _ -> ?G => set (Concl := G) end.
  cbn [MemUnix.allocateMappedMemory_rec].
  unfold MemUnix.PageSize_static, MemUnix.zero_fd_static,
    MemUnix.InvalidateInstructionCache.
  run_io. crunch.
  all: intros H; subst Concl.
  all: first
    [ (* the attempt failed: the function has called itself *)
      match type of H with
      | MemUnix.allocateMappedMemory_rec _ _ _ _ _ _ _ _ = _ =>
          right; right; eexists _, _;
          split; [exact H |];
          split; [log_mappings;
                  repeat match goal with
                         | E : (rv _ =? MemUnix.MAP_FAILED) = true |- _ =>
                             apply Z.eqb_eq in E;
                             cbn [trace errno record set_PageSize set_zero_fd] in E;
                             rewrite E
                         end;
                  reflexivity |];
          split; [log_answered |];
          split; [reflexivity |];
          unfold posix_ready;
          cbn [st_PageSize st_zero_fd record set_PageSize set_zero_fd];
          split; [eexists; first [reflexivity | eassumption] |];
          split; [| eexists; reflexivity];
          intros Hdev; first [congruence | eexists; split; [first [reflexivity | eassumption] | assumption]]
      end
    | (* stopped before any mapping call *)
      injection H as <- <-; left;
      split; [log_mappings; reflexivity |];
      split; [first [discriminate | intros E; apply Hfuel; injection E as ->; reflexivity] |];
      split; [eexists; log_trace |];
      split;
      [ cbn [MemUnix.allocateMappedMemory_rec];
        unfold MemUnix.PageSize_static, MemUnix.zero_fd_static;
        run_io;
        repeat (cbv beta iota;
                cbn [st_PageSize st_zero_fd record set_PageSize set_zero_fd];
                use_eqs; rewrite ?Hres);
        reflexivity
      | read_tests;
        first [ left; assumption
              | right; left; eexists; reflexivity
              | right; right; split; [reflexivity |];
                cbn [st_zero_fd record set_PageSize set_zero_fd];
                first [ congruence | f_equal; assumption ] ] ]
    | (* mapped at the first attempt *)
      injection H as <- <-; right; left; eexists _, _;
      split; [reflexivity |];
      split; [log_mappings; reflexivity |];
      cbn [Address]; apply Z.eqb_neq; assumption ].
Qed.

End PosixHint.

Lemma mappings_app t1 t2 : mappings (t1 ++ t2) = mappings t1 ++ mappings t2.
Proof. unfold mappings. apply flat_map_app. Qed.

Lemma answered_by_between os w w1 w' :
  answered_by os w w1 -> (exists l, trace w' = trace w1 ++ l) -> between w w1 w'.
Proof. intros (l1 & T1 & _) (l2 & T2). now exists l1, l2. Qed.

(** A failed first attempt followed by the request without the hint. *)
Lemma retried_outcome os unhinted failure a w w1 r w' :
  mappings (transcript os w w1) = [(a, failure)] ->
  answered_by os w w1 ->
  unhinted w1 = (r, w') ->
  r <> Stop OutOfFuel ->
  (exists pa, mappings (transcript os w1 w') = [(0, pa)] /\ settled_by failure pa r) ->
  (exists l, trace w' = trace w1 ++ l) ->
  hinted_outcome os unhinted failure w r w' /\ mappings (transcript os w w') <> [].
Proof.
  intros Hm Ha Hu Hr (pa & Hm' & Hs) Ht.
  assert (Hall : mappings (transcript os w w') = [(a, failure); (0, pa)]).
  { rewrite (transcript_trans os w w1 w' Ha Ht), mappings_app, Hm, Hm'. reflexivity. }
  split; [| rewrite Hall; discriminate].
  split; [exact Hr |]. right; right. exists a, pa, w1.
  split; [exact Hall |].
  split; [now apply (answered_by_between os) |].
  split; [exact Hm |]. split; [exact Hu | exact Hs].
Qed.

Lemma hinted_failure_is_unhinted_failure os unhinted failure w r w' :
  hinted_outcome os unhinted failure w r w' ->
  reports_failure r ->
  exists w1, between w w1 w' /\ unhinted w1 = (r, w').
Proof.
  intros (_ & [(_ & Hb & Hu) | [(a & blk & Hr & _) | (a & pa & w1 & _ & Hb & _ & Hu & _)]])
         (x & ec & Hx & Hec).
  - exists w. now split.
  - rewrite Hr in Hx. injection Hx as _ <-. now contradiction Hec.
  - exists w1. now split.
Qed.

Lemma posix_hinted_run os MF cfg NumBytes PFlags nb w r w' :
  MemUnix.allocateMappedMemory os MF cfg NumBytes (Some nb) PFlags w = (r, w') ->
  hinted_outcome os (MemUnix.allocateMappedMemory os MF cfg NumBytes None PFlags)
                 MemUnix.MAP_FAILED w r w' /\
  (mappings (transcript os w w') = [] ->
   NumBytes = 0 \/ (exists h, r = Stop h) \/
   (MemUnix.NEED_DEV_ZERO_FOR_MMAP cfg = true /\ st_zero_fd w' = Some (-1))).
Proof.
  intros H.
  destruct (posix_translation_pure MF cfg PFlags) as (res & Hfuel & Hres).
  unfold MemUnix.allocateMappedMemory in *.
  destruct (posix_hinted_first_pass os MF cfg NumBytes PFlags res 0 nb w r w' Hfuel Hres H)
    as [(Hm & Hr & (l & Hl) & Hu & Hidle) | [(a & blk & Hr & Hm & Ha)
                                            | (a & w1 & Hu & Hm & Hans & HN & Hready)]].
  - split; [| intros _; exact Hidle].
    split; [exact Hr |]. left.
    rewrite (posix_allocate_no_hint_depth os MF cfg 1 0).
    repeat split; try assumption.
    exists [], l. now rewrite app_nil_r.
  - split; [| rewrite Hm; discriminate].
    split; [rewrite Hr; discriminate |]. right; left. now exists a, blk.
  - destruct (posix_ready_run os MF cfg NumBytes PFlags res 0 w1 r w' Hres HN Hready Hu)
      as (Hr & Hpa & Ht).
    rewrite <- (posix_allocate_no_hint_depth os MF cfg 1 0) in Hu.
    destruct (retried_outcome os _ MemUnix.MAP_FAILED a w w1 r w' Hm Hans Hu Hr Hpa Ht)
      as (Ho & Hne).
    split; [exact Ho |]. intros E. now contradiction Hne.
Qed.

Section Win32Hint.

Variable os : OS.
Variable MF : ProtectionFlags.
Variable NumBytes : Z.
Variable Flags : Z.

Ltac crunch :=
  repeat (cbv beta iota;
          match goal with
          | |- context [NumBytes =? 0] => destruct (NumBytes =? 0) eqn:?
          | |- context [match st_Granularity ?w with _ => _ end] =>
              destruct (st_Granularity w) eqn:?
          | |- context [out 1 ?i <? out 0 ?i] => destruct (out 1 i <? out 0 i) eqn:?
          | H : forall w, MemWin32.getWindowsProtectionFlags _ _ w = _
            |- context [MemWin32.getWindowsProtectionFlags _ _ ?w] => rewrite (H w)
          | |- context [match ?res with Ret _ => _ | Stop _ => _ end] =>
              is_var res; destruct res
          | |- context [rv ?x =? 0] => destruct (rv x =? 0) eqn:?
          | |- context [has Flags (MF_EXEC MF)] =>
              destruct (has Flags (MF_EXEC MF)) eqn:?
          end;
          cbn [st_PageSize st_zero_fd st_Granularity record
               set_PageSize set_zero_fd set_Granularity]).

Lemma win32_ready_run res d w r w' :
  (forall w, MemWin32.getWindowsProtectionFlags MF Flags w = (res, w)) ->
  (NumBytes =? 0) = false ->
  win32_ready res w ->
  MemWin32.allocateMappedMemory_rec os MF d NumBytes None Flags w = (r, w') ->
  r <> Stop OutOfFuel /\
  (exists pa, mappings (transcript os w w') = [(0, pa)] /\ settled_by 0 pa r) /\
  exists l, trace w' = trace w ++ l.
Proof.
  intros Hres HN ((g & Hg) & (p & ->)).
  rewrite (win32_allocate_no_hint_depth os MF d 0).
  cbn [MemWin32.allocateMappedMemory_rec].
  unfold MemWin32.Granularity_static, MemWin32.getAllocationGranularity,
    MemWin32.InvalidateInstructionCache.
  run_io. rewrite HN, Hg. crunch.
  all: intros H; injection H as <- <-.
  all: (split; [discriminate | split; [| eexists; log_trace]]).
  all: eexists; (split; [log_mappings; reflexivity |]); read_tests.
  all: first [ right; split; [assumption | eexists; reflexivity]
             | left; split; [assumption | eexists; split; reflexivity] ].
Qed.

Lemma win32_hinted_first_pass res d nb w r w' :
  res <> Stop OutOfFuel ->
  (forall w, MemWin32.getWindowsProtectionFlags MF Flags w = (res, w)) ->
  MemWin32.allocateMappedMemory_rec os MF (S d) NumBytes (Some nb) Flags w = (r, w') ->
  (mappings (transcript os w w') = [] /\ r <> Stop OutOfFuel /\
   (exists l, trace w' = trace w ++ l) /\
   MemWin32.allocateMappedMemory_rec os MF 0 NumBytes None Flags w = (r, w') /\
   (NumBytes = 0 \/ exists h, r = Stop h))
  \/ (exists a blk, r = Ret (blk, success) /\
                    mappings (transcript os w w') = [(a, Address blk)] /\
                    Address blk <> 0)
  \/ (exists a w1,
         MemWin32.allocateMappedMemory_rec os MF d NumBytes None Flags w1 = (r, w') /\
         mappings (transcript os w w1) = [(a, 0)] /\
         answered_by os w w1 /\
         (NumBytes =? 0) = false /\ win32_ready res w1).
Proof.
  intros Hfuel Hres.
  match goal with |- _ -> ?G => set (Concl := G) end.
  cbn [MemWin32.allocateMappedMemory_rec].
  unfold MemWin32.Granularity_static, MemWin32.getAllocationGranularity,
    MemWin32.InvalidateInstructionCache.
  run_io. crunch.
  all: intros H; subst Concl.
  all: first
    [ (* the attempt failed: the function has called itself *)
      match type of H with
      | MemWin32.allocateMappedMemory_rec _ _ _ _ _ _ _ = _ =>
          right; right; eexists _, _;
          split; [exact H |];
          split; [log_mappings;
                  repeat match goal with
                         | E : (rv _ =? 0) = true |- _ =>
                             apply Z.eqb_eq in E;
                             cbn [trace errno record set_Granularity] in E;
                             rewrite E
                         end;
                  reflexivity |];
          split; [log_answered |];
          split; [reflexivity |];
          unfold win32_ready;
          cbn [st_Granularity record set_Granularity];
          split; eexists; first [reflexivity | eassumption]
      end
    | (* stopped before any mapping call *)
      injection H as <- <-; left;
      split; [log_mappings; reflexivity |];
      split; [first [discriminate | intros E; apply Hfuel; injection E as ->; reflexivity] |];
      split; [eexists; log_trace |];
      split;
      [ cbn [MemWin32.allocateMappedMemory_rec];
        unfold MemWin32.Granularity_static, MemWin32.getAllocationGranularity;
        run_io;
        repeat (cbv beta iota;
                cbn [st_Granularity record set_Granularity];
                use_eqs; rewrite ?Hres);
        reflexivity
      | read_tests;
        first [ left; assumption | right; eexists; reflexivity ] ]
    | (* mapped at the first attempt *)
      injection H as <- <-; right; left; eexists _, _;
      split; [reflexivity |];
      split; [log_mappings; reflexivity |];
      cbn [Address]; apply Z.eqb_neq; assumption ].
Qed.

End Win32Hint.

Lemma win32_hinted_run os MF NumBytes Flags nb w r w' :
  MemWin32.allocateMappedMemory os MF NumBytes (Some nb) Flags w = (r, w') ->
  hinted_outcome os (MemWin32.allocateMappedMemory os MF NumBytes None Flags) 0 w r w' /\
  (mappings (transcript os w w') = [] -> NumBytes = 0 \/ exists h, r = Stop h).
Proof.
  intros H.
  destruct (win32_translation_pure MF Flags) as (res & Hfuel & Hres).
  unfold MemWin32.allocateMappedMemory in *.
  destruct (win32_hinted_first_pass os MF NumBytes Flags res 0 nb w r w' Hfuel Hres H)
    as [(Hm & Hr & (l & Hl) & Hu & Hidle) | [(a & blk & Hr & Hm & Ha)
                                            | (a & w1 & Hu & Hm & Hans & HN & Hready)]].
  - split; [| intros _; exact Hidle].
    split; [exact Hr |]. left.
    rewrite (win32_allocate_no_hint_depth os MF 1 0).
    repeat split; try assumption.
    exists [], l. now rewrite app_nil_r.
  - split; [| rewrite Hm; discriminate].
    split; [rewrite Hr; discriminate |]. right; left. now exists a, blk.
  - destruct (win32_ready_run os MF NumBytes Flags res 0 w1 r w' Hres HN Hready Hu)
      as (Hr & Hpa & Ht).
    rewrite <- (win32_allocate_no_hint_depth os MF 1 0) in Hu.
    destruct (retried_outcome os _ 0 a w w1 r w' Hm Hans Hu Hr Hpa Ht) as (Ho & Hne).
    split; [exact Ho |]. intros E. now contradiction Hne.
Qed.

(** C6. A request with a placement hint whose first mapping attempt
    fails is continued as the same request without the hint, which makes
    one more attempt, at no particular address, before any failure is
    reported.  With their answers, the mapping calls of a hinted request
    are: none; or one that is answered with an address, and the request
    returns the block at that address; or one that is answered with
    failure, followed by exactly one at address 0, whose answer settles
    the result.  No mapping call is made only for a request of zero
    bytes, for flags without a translation, which stop the process, or,
    where the build maps /dev/zero, when that device cannot be opened.
    Hence a hinted request that reports failure does so only where the
    request without the hint, run in the state the failed attempt
    leaves, reports the very same failure.  Both backends; the depth
    bound of the model is never reached. *)
Theorem C6_failed_hint_is_retried_once_without_hint :
  forall (os : OS) (MF : ProtectionFlags) (cfg : MemUnix.Config)
         (NumBytes : Z) (NearBlock : MemoryBlock) (Flags : Z) (w : World),
    (forall r w',
        MemUnix.allocateMappedMemory os MF cfg NumBytes (Some NearBlock) Flags w = (r, w') ->
        hinted_outcome os (MemUnix.allocateMappedMemory os MF cfg NumBytes None Flags)
                       MemUnix.MAP_FAILED w r w' /\
        (mappings (transcript os w w') = [] ->
         NumBytes = 0 \/ (exists h, r = Stop h) \/
         (MemUnix.NEED_DEV_ZERO_FOR_MMAP cfg = true /\ st_zero_fd w' = Some (-1))) /\
        (reports_failure r ->
         exists w1, between w w1 w' /\
                    MemUnix.allocateMappedMemory os MF cfg NumBytes None Flags w1 = (r, w')))
    /\
    (forall r w',
        MemWin32.allocateMappedMemory os MF NumBytes (Some NearBlock) Flags w = (r, w') ->
        hinted_outcome os (MemWin32.allocateMappedMemory os MF NumBytes None Flags)
                       0 w r w' /\
        (mappings (transcript os w w') = [] -> NumBytes = 0 \/ exists h, r = Stop h) /\
        (reports_failure r ->
         exists w1, between w w1 w' /\
                    MemWin32.allocateMappedMemory os MF NumBytes None Flags w1 = (r, w'))).
Proof.
  intros os MF cfg NumBytes NearBlock Flags w. split; intros r w' H.
  - destruct (posix_hinted_run _ _ _ _ _ _ _ _ _ H) as (Ho & Hidle).
    split; [exact Ho |]. split; [exact Hidle |]. intros Hf.
    exact (hinted_failure_is_unhinted_failure _ _ _ _ _ _ Ho Hf).
  - destruct (win32_hinted_run _ _ _ _ _ _ _ _ H) as (Ho & Hidle).
    split; [exact Ho |]. split; [exact Hidle |]. intros Hf.
    exact (hinted_failure_is_unhinted_failure _ _ _ _ _ _ Ho Hf).
Qed.

(** A run of C6: the system refuses the hinted address; the second
    attempt, at address 0, succeeds, and so does the request. *)
Lemma C6_witness :
  exists r w',
    MemUnix.allocateMappedMemory Sample.os_refuses_hints llvm_flags Sample.no_dev_zero
      100 (Some (mkBlock 4096 4096)) Sample.read_write_flags initial = (r, w') /\
    r = Ret (mkBlock 0x7f0000000000 4096, success) /\
    mappings (transcript Sample.os_refuses_hints initial w')
    = [(8192, MemUnix.MAP_FAILED); (0, 0x7f0000000000)] /\
    hinted_outcome Sample.os_refuses_hints
      (MemUnix.allocateMappedMemory Sample.os_refuses_hints llvm_flags Sample.no_dev_zero
         100 None Sample.read_write_flags)
      MemUnix.MAP_FAILED initial r w'.
Proof.
  eexists _, _. split; [vm_compute; reflexivity |].
  split; [reflexivity |]. split; [reflexivity |].
  apply (proj1 (C6_failed_hint_is_retried_once_without_hint
                  Sample.os_refuses_hints llvm_flags Sample.no_dev_zero
                  100 (mkBlock 4096 4096) Sample.read_write_flags initial)).
  vm_compute; reflexivity.
Defined.

(** ** Releasing twice (C10) *)

(** C10. When the operating system releases the pages of a non-empty
    block (munmap returns 0, VirtualFree returns non-zero),
    [releaseMappedMemory] returns success and leaves the caller's block
    empty, with address 0 and size 0; releasing that block once more
    returns success again and calls nothing.  Both backends. *)
Theorem C10_release_resets_block_and_is_idempotent :
  forall (os : OS) (M : MemoryBlock) (w : World),
    Address M <> 0 -> Size M <> 0 ->
    (rv (os (trace w) (errno w) (c_munmap (Address M) (Size M))) = 0 ->
     exists w',
       MemUnix.releaseMappedMemory os M w = (Ret (success, empty_block), w') /\
       since w w' = [c_munmap (Address M) (Size M)] /\
       MemUnix.releaseMappedMemory os empty_block w' = (Ret (success, empty_block), w'))
    /\
    (rv (os (trace w) (errno w) (c_VirtualFree (Address M) 0 MemWin32.MEM_RELEASE)) <> 0 ->
     exists w',
       MemWin32.releaseMappedMemory os M w = (Ret (success, empty_block), w') /\
       since w w' = [c_VirtualFree (Address M) 0 MemWin32.MEM_RELEASE] /\
       MemWin32.releaseMappedMemory os empty_block w' = (Ret (success, empty_block), w')).
Proof.
  intros os M w Ha Hs.
  pose proof (nonempty_block_test M Ha Hs) as HM.
  split; intros Hok.
  - unfold MemUnix.releaseMappedMemory. rewrite HM, bind_sys.
    rewrite Hok. cbn [Z.eqb negb]. eexists. split; [reflexivity |].
    split; [apply since_app; reflexivity | reflexivity].
  - unfold MemWin32.releaseMappedMemory. rewrite HM, bind_sys.
    apply Z.eqb_neq in Hok. rewrite Hok.
    eexists. split; [reflexivity |].
    split; [apply since_app; reflexivity | reflexivity].
Qed.

Lemma C10_witness :
  4096 <> 0 /\ 8192 <> 0 /\
  exists w',
    MemUnix.releaseMappedMemory Sample.os_zero (mkBlock 4096 8192) initial
      = (Ret (success, empty_block), w') /\
    since initial w' = [c_munmap 4096 8192] /\
    MemUnix.releaseMappedMemory Sample.os_zero empty_block w'
      = (Ret (success, empty_block), w').
Proof.
  split; [discriminate |]. split; [discriminate |].
  apply (proj1 (C10_release_resets_block_and_is_idempotent
                  Sample.os_zero (mkBlock 4096 8192) initial
                  ltac:(discriminate) ltac:(discriminate))).
  reflexivity.
Defined.

(** ** Decoding the exit status (C2) *)

Section Decoding.

Variable os : OS.
Variable P : ProcUnix.Platform.
Variable Program : string.
Variable status : Z.
Variable ErrMsg : option string.

Lemma decode_exit_plain w :
  ProcUnix.WIFEXITED P status = true -> ProcUnix.WEXITSTATUS P status <> 126 -> ProcUnix.WEXITSTATUS P status <> 127 ->
  ProcUnix.decode_status os P Program status ErrMsg w = (Ret (ProcUnix.WEXITSTATUS P status, ErrMsg), w).
Proof.
  intros He H126 H127. unfold ProcUnix.decode_status. rewrite He.
  apply Z.eqb_neq in H126, H127. rewrite H127, andb_false_r, bind_ret.
  rewrite H127, H126. reflexivity.
Qed.

Lemma decode_exit_126 w :
  ProcUnix.WIFEXITED P status = true -> ProcUnix.WEXITSTATUS P status = 126 ->
  ProcUnix.decode_status os P Program status ErrMsg w
  = (Ret (-1, said ErrMsg "Program could not be executed"), w).
Proof.
  intros He H126. unfold ProcUnix.decode_status. rewrite He.
  rewrite H126. cbn [Z.eqb Pos.eqb]. rewrite andb_false_r, bind_ret. reflexivity.
Qed.

Lemma decode_exit_127_without_posix_spawn w :
  ProcUnix.WIFEXITED P status = true -> ProcUnix.WEXITSTATUS P status = 127 ->
  ProcUnix.HAVE_POSIX_SPAWN P = false ->
  ProcUnix.decode_status os P Program status ErrMsg w
  = (Ret (-1, said ErrMsg (ProcUnix.StrError P ProcUnix.ENOENT)), w).
Proof.
  intros He H127 Hs. unfold ProcUnix.decode_status. rewrite He, Hs.
  rewrite H127. reflexivity.
Qed.

Lemma decode_exit_127_program_not_found w :
  ProcUnix.WIFEXITED P status = true -> ProcUnix.WEXITSTATUS P status = 127 ->
  program_not_found os Program ->
  result (ProcUnix.decode_status os P Program status ErrMsg w)
  = Ret (-1, said ErrMsg (ProcUnix.StrError P ProcUnix.ENOENT)).
Proof.
  intros He H127 Hnf. unfold ProcUnix.decode_status. rewrite He.
  rewrite H127. destruct (ProcUnix.HAVE_POSIX_SPAWN P); [| reflexivity].
  cbn [andb Z.eqb Pos.eqb]. unfold ProcUnix.fs_exists.
  rewrite !bind_assoc, bind_sys, (Hnf (trace w) (errno w)).
  cbn [Z.eqb Pos.eqb]. rewrite bind_assoc, bind_get_errno.
  match goal with |- context [negb ?b] => destruct b end; cbn [negb];
    rewrite bind_ret; cbn [fst snd value]; [reflexivity |].
  match goal with |- context [if ?b then _ else _] => destruct b end; reflexivity.
Qed.

Lemma decode_exit_127_program_exists w :
  ProcUnix.WIFEXITED P status = true -> ProcUnix.WEXITSTATUS P status = 127 ->
  ProcUnix.HAVE_POSIX_SPAWN P = true ->
  program_exists os Program ->
  result (ProcUnix.decode_status os P Program status ErrMsg w)
  = Ret (-1, said ErrMsg "Program could not be executed").
Proof.
  intros He H127 Hs Hex. unfold ProcUnix.decode_status. rewrite He, Hs.
  rewrite H127. cbn [andb Z.eqb Pos.eqb]. unfold ProcUnix.fs_exists.
  rewrite !bind_assoc, bind_sys.
  pose proof (Hex (trace w) (errno w)) as Hrv. apply Z.eqb_neq in Hrv.
  rewrite Hrv. reflexivity.
Qed.

Lemma decode_signaled w :
  ProcUnix.WIFEXITED P status = false -> ProcUnix.WIFSIGNALED P status = true ->
  ProcUnix.decode_status os P Program status ErrMsg w
  = (Ret (-2, said ErrMsg (signal_message P status)), w).
Proof.
  intros He Hs. unfold ProcUnix.decode_status. rewrite He, Hs. reflexivity.
Qed.

(** Once the child has ended, [Wait] comes down to decoding its status. *)
Lemma Wait_decodes fuel Data secondsToWait w :
  ProcUnix.HAVE_SYS_WAIT_H P = true -> Data <> 0 ->
  child_has_ended os (Word.to_int Data) status ->
  exists w1,
    ProcUnix.Wait os P (S fuel) Data Program secondsToWait ErrMsg w
    = ProcUnix.decode_status os P Program status ErrMsg w1.
Proof.
  intros Hw HD Hc. unfold ProcUnix.Wait. rewrite Hw. cbn [negb].
  apply Z.eqb_neq in HD. rewrite HD.
  cbn [ProcUnix.Wait_loop].
  destruct (secondsToWait =? 0); cbn [negb];
    repeat (rewrite ?bind_assoc, ?bind_sys, ?bind_ret);
    match goal with
    | |- context [rv (os ?h ?e (c_waitpid ?c 0)) =? ?c] =>
        destruct (Hc h e) as [-> ->]; rewrite Z.eqb_refl
    end;
    repeat (rewrite ?bind_assoc, ?bind_sys, ?bind_ret);
    eexists; reflexivity.
Qed.

End Decoding.

(** C2, as the code has it.  Once the child has ended, [Wait] returns:
    the exit code N itself for a normal exit with N in 0..125; -1 and
    "Program could not be executed" for exit code 126; -1 and the ENOENT
    text for exit code 127, unless the build has posix_spawn and the
    program file exists, in which case 127 is read as 126 and the message
    is "Program could not be executed"; -2 and the signal's name,
    followed by " (core dumped)" when the system reports a core, for a
    child ended by a signal.  Messages are written only through a
    non-null [ErrMsg]. *)
Theorem C2_wait_decodes_exit_status :
  forall (os : OS) (P : ProcUnix.Platform) (fuel : nat) (Data : Z)
         (Program : string) (secondsToWait : Z) (ErrMsg : option string)
         (status : Z) (w : World),
    ProcUnix.HAVE_SYS_WAIT_H P = true -> Data <> 0 ->
    child_has_ended os (Word.to_int Data) status ->
    let N := ProcUnix.WEXITSTATUS P status in
    let outcome :=
      result (ProcUnix.Wait os P (S fuel) Data Program secondsToWait ErrMsg w) in
    (ProcUnix.WIFEXITED P status = true ->
     (0 <= N <= 125 -> outcome = Ret (N, ErrMsg)) /\
     (N = 126 -> outcome = Ret (-1, said ErrMsg "Program could not be executed")) /\
     (N = 127 ->
      ProcUnix.HAVE_POSIX_SPAWN P = false \/ program_not_found os Program ->
      outcome = Ret (-1, said ErrMsg (ProcUnix.StrError P ProcUnix.ENOENT))) /\
     (N = 127 ->
      ProcUnix.HAVE_POSIX_SPAWN P = true -> program_exists os Program ->
      outcome = Ret (-1, said ErrMsg "Program could not be executed"))) /\
    (ProcUnix.WIFEXITED P status = false -> ProcUnix.WIFSIGNALED P status = true ->
     outcome = Ret (-2, said ErrMsg (signal_message P status))).
Proof.
  intros os P fuel Data Program secondsToWait ErrMsg status w Hw HD Hc N outcome.
  destruct (Wait_decodes os P Program status ErrMsg fuel Data secondsToWait w Hw HD Hc)
    as (w1 & HW).
  subst outcome. rewrite HW. split.
  - intros He. repeat split.
    + intros HN. rewrite decode_exit_plain; [reflexivity | assumption | |]; fold N; lia.
    + intros HN. now rewrite decode_exit_126.
    + intros HN [Hs | Hnf].
      * now rewrite decode_exit_127_without_posix_spawn.
      * now apply decode_exit_127_program_not_found.
    + intros HN Hs Hex. now apply decode_exit_127_program_exists.
  - intros He Hs. now rewrite decode_signaled.
Qed.

(** In a build with posix_spawn, a child that exits with 127 although
    its program file exists is reported with the message for 126. *)
Lemma C2_counterexample :
  ~ exit_127_reads_not_found
      (SampleProc.os_child_ended 4321 (SampleProc.exited 127))
      (SampleProc.linux true) 4321 "/usr/bin/tool" (SampleProc.exited 127).
Proof.
  intros H.
  assert (Hc : child_has_ended (SampleProc.os_child_ended 4321 (SampleProc.exited 127))
                 (Word.to_int 4321) (SampleProc.exited 127))
    by (intros h e; split; reflexivity).
  specialize (H Hc eq_refl eq_refl 0%nat 0 EmptyString initial).
  vm_compute in H. discriminate H.
Qed.

(** C2 at an instance: a child that exits with code 3. *)
Lemma C2_witness :
  ProcUnix.HAVE_SYS_WAIT_H (SampleProc.linux true) = true /\ 4321 <> 0 /\
  child_has_ended (SampleProc.os_child_ended 4321 (SampleProc.exited 3))
    (Word.to_int 4321) (SampleProc.exited 3) /\
  ProcUnix.WIFEXITED (SampleProc.linux true) (SampleProc.exited 3) = true /\
  0 <= ProcUnix.WEXITSTATUS (SampleProc.linux true) (SampleProc.exited 3) <= 125 /\
  result (ProcUnix.Wait (SampleProc.os_child_ended 4321 (SampleProc.exited 3))
            (SampleProc.linux true) 1 4321 "/usr/bin/tool" 0 (Some EmptyString) initial)
  = Ret (3, Some EmptyString).
Proof.
  assert (Hc : child_has_ended (SampleProc.os_child_ended 4321 (SampleProc.exited 3))
                 (Word.to_int 4321) (SampleProc.exited 3))
    by (intros h e; split; reflexivity).
  assert (HD : 4321 <> 0) by discriminate.
  assert (HN : 0 <= ProcUnix.WEXITSTATUS (SampleProc.linux true) (SampleProc.exited 3) <= 125)
    by (vm_compute; split; discriminate).
  split; [reflexivity |]. split; [exact HD |]. split; [exact Hc |].
  split; [reflexivity |]. split; [exact HN |].
  exact (proj1 (proj1 (C2_wait_decodes_exit_status
                         (SampleProc.os_child_ended 4321 (SampleProc.exited 3))
                         (SampleProc.linux true) 0 4321 "/usr/bin/tool" 0 (Some EmptyString)
                         (SampleProc.exited 3) initial eq_refl HD Hc) eq_refl) HN).
Defined.

(** ** Interrupted waits and timeouts (C8, C3) *)

Section WaitLoop.

Variable os : OS.
Variable P : ProcUnix.Platform.
Variable child : Z.

Lemma trace_after_interruptions n w :
  trace (after_interruptions os child n w) = trace w ++ repeat (c_waitpid child 0) n.
Proof.
  revert w. induction n as [| n IH]; intros w; cbn [after_interruptions repeat].
  - now rewrite app_nil_r.
  - rewrite IH. unfold after_waitpid. cbn [trace record].
    now rewrite <- app_assoc.
Qed.

(** Without a timeout, an interrupted waitpid is followed by another
    waitpid and by nothing else. *)
Lemma Wait_loop_retries_without_timeout n fuel Old ErrMsg w :
  interrupted_times os child n w ->
  ProcUnix.Wait_loop os P (n + fuel) child 0 Old ErrMsg w
  = ProcUnix.Wait_loop os P fuel child 0 Old ErrMsg (after_interruptions os child n w).
Proof.
  revert w. induction n as [| n IH]; intros w Hn.
  - reflexivity.
  - destruct Hn as [[Hrv Herr] Hn].
    cbn [Nat.add ProcUnix.Wait_loop after_interruptions].
    rewrite bind_sys. fold (next_waitpid os child w). fold (after_waitpid os child w).
    apply Z.eqb_neq in Hrv. rewrite Hrv.
    rewrite bind_get_errno.
    replace (errno (after_waitpid os child w)) with ProcUnix.EINTR by (symmetry; exact Herr).
    rewrite Z.eqb_refl. cbn [Z.eqb negb andb].
    now apply IH.
Qed.

(** With a timeout, an interrupted waitpid is taken for the alarm,
    whatever interrupted it: the child is killed with SIGKILL, the alarm
    and the handler are reset, wait is called once, and -2 is returned. *)
Lemma Wait_loop_takes_interruption_for_timeout fuel secondsToWait Old ErrMsg w :
  secondsToWait <> 0 ->
  interrupted (next_waitpid os child w) child ->
  exists E w',
    ProcUnix.Wait_loop os P (S fuel) child secondsToWait Old ErrMsg w
    = (Ret (ProcUnix.Return (-2) E), w') /\
    since w w' = [c_waitpid child 0; c_kill child ProcUnix.SIGKILL; c_alarm 0;
                  c_sigaction ProcUnix.SIGALRM Old; c_wait].
Proof.
  intros Hs [Hrv Herr].
  cbn [ProcUnix.Wait_loop].
  rewrite bind_sys. fold (next_waitpid os child w).
  apply Z.eqb_neq in Hrv, Hs. rewrite Hrv.
  rewrite bind_get_errno. cbn [errno record].
  rewrite Herr, Hs, Z.eqb_refl. cbn [negb andb].
  repeat (rewrite ?bind_assoc, ?bind_sys).
  unfold ProcUnix.MakeErrMsg.
  match goal with
  | |- context [if negb ?b then _ else _] => destruct b
  end; cbn [negb]; destruct ErrMsg;
    repeat (rewrite ?bind_assoc, ?bind_sys, ?bind_ret, ?bind_get_errno);
    cbn [Z.eqb]; repeat (rewrite ?bind_assoc, ?bind_sys, ?bind_ret, ?bind_get_errno);
    eexists _, _; (split; [reflexivity | apply since_app; log_trace]).
Qed.

End WaitLoop.

(** C8, as the code has it.  Without a timeout ([secondsToWait] zero) a
    waitpid interrupted by a signal is called again, and nothing else is
    called, however often that happens.  With a timeout the first
    interrupted waitpid is taken for the timeout, whichever signal
    interrupted it: the child is killed and -2 returned. *)
Theorem C8_interrupted_wait_is_retried_only_without_timeout :
  forall (os : OS) (P : ProcUnix.Platform) (child : Z) (Old : Z)
         (ErrMsg : option string) (w : World),
    (forall n fuel,
        interrupted_times os child n w ->
        ProcUnix.Wait_loop os P (n + fuel) child 0 Old ErrMsg w
        = ProcUnix.Wait_loop os P fuel child 0 Old ErrMsg (after_interruptions os child n w)
        /\ trace (after_interruptions os child n w)
           = trace w ++ repeat (c_waitpid child 0) n)
    /\
    (forall fuel secondsToWait,
        secondsToWait <> 0 ->
        interrupted (next_waitpid os child w) child ->
        exists E w',
          ProcUnix.Wait_loop os P (S fuel) child secondsToWait Old ErrMsg w
          = (Ret (ProcUnix.Return (-2) E), w') /\
          since w w' = [c_waitpid child 0; c_kill child ProcUnix.SIGKILL; c_alarm 0;
                        c_sigaction ProcUnix.SIGALRM Old; c_wait]).
Proof.
  intros os P child Old ErrMsg w. split.
  - intros n fuel Hn. split.
    + now apply Wait_loop_retries_without_timeout.
    + apply trace_after_interruptions.
  - intros fuel secondsToWait Hs Hi.
    now apply Wait_loop_takes_interruption_for_timeout.
Qed.

(** With a timeout of five seconds, a wait interrupted by SIGUSR1 (10)
    is not retried: the next call kills the child. *)
Lemma C8_counterexample :
  ~ foreign_signal_is_retried
      (SampleProc.os_interrupted_once 10 4321 (SampleProc.exited 0))
      (SampleProc.linux true) 4321 5 0 (Some EmptyString) initial.
Proof.
  intros H.
  assert (Hi : interrupted
                 (next_waitpid (SampleProc.os_interrupted_once 10 4321 (SampleProc.exited 0))
                               4321 initial) 4321)
    by (split; [discriminate | reflexivity]).
  specialize (H Hi ltac:(discriminate) 0%nat _ _ eq_refl).
  vm_compute in H. discriminate H.
Qed.

(** C8 at an instance: no timeout, one interruption, then the child. *)
Lemma C8_witness :
  interrupted_times (SampleProc.os_interrupted_once 10 4321 (SampleProc.exited 0))
    4321 1 initial /\
  ProcUnix.Wait_loop (SampleProc.os_interrupted_once 10 4321 (SampleProc.exited 0))
    (SampleProc.linux true) (1 + 1) 4321 0 0 (Some EmptyString) initial
  = ProcUnix.Wait_loop (SampleProc.os_interrupted_once 10 4321 (SampleProc.exited 0))
      (SampleProc.linux true) 1 4321 0 0 (Some EmptyString)
      (after_interruptions (SampleProc.os_interrupted_once 10 4321 (SampleProc.exited 0))
         4321 1 initial) /\
  calls (ProcUnix.Wait_loop (SampleProc.os_interrupted_once 10 4321 (SampleProc.exited 0))
           (SampleProc.linux true) (1 + 1) 4321 0 0 (Some EmptyString) initial)
  = [c_waitpid 4321 0; c_waitpid 4321 0].
Proof.
  assert (Hn : interrupted_times
                 (SampleProc.os_interrupted_once 10 4321 (SampleProc.exited 0))
                 4321 1 initial)
    by (split; [split; [discriminate | reflexivity] | exact I]).
  split; [exact Hn |].
  split; [| reflexivity].
  exact (proj1 (proj1 (C8_interrupted_wait_is_retried_only_without_timeout
                         (SampleProc.os_interrupted_once 10 4321 (SampleProc.exited 0))
                         (SampleProc.linux true) 4321 0 (Some EmptyString) initial)
                      1%nat 1%nat Hn)).
Defined.

(** The POSIX side of C3: with a timeout, [Wait] on a child that is
    still running when the alarm interrupts waitpid kills it with
    SIGKILL, reaps it with one call of wait, and returns -2. *)
Lemma posix_timeout_kills_reaps_and_returns_minus_2 :
  forall (os : OS) (P : ProcUnix.Platform) (fuel : nat) (Data : Z) (Program : string)
         (secondsToWait : Z) (ErrMsg : option string) (w : World),
    ProcUnix.HAVE_SYS_WAIT_H P = true -> Data <> 0 -> secondsToWait <> 0 ->
    (forall h e, interrupted (os h e (c_waitpid (Word.to_int Data) 0)) (Word.to_int Data)) ->
    exists E Old w',
      ProcUnix.Wait os P (S fuel) Data Program secondsToWait ErrMsg w = (Ret (-2, E), w') /\
      since w w' = [c_sigaction ProcUnix.SIGALRM ProcUnix.TimeOutHandler;
                    c_alarm secondsToWait;
                    c_waitpid (Word.to_int Data) 0;
                    c_kill (Word.to_int Data) ProcUnix.SIGKILL;
                    c_alarm 0;
                    c_sigaction ProcUnix.SIGALRM Old;
                    c_wait].
Proof.
  intros os P fuel Data Program secondsToWait ErrMsg w Hw HD Hs Hi.
  unfold ProcUnix.Wait. rewrite Hw. cbn [negb].
  apply Z.eqb_neq in HD. rewrite HD.
  apply Z.eqb_neq in Hs. rewrite Hs. cbn [negb ProcUnix.Wait_loop].
  repeat (rewrite ?bind_assoc, ?bind_sys, ?bind_ret).
  match goal with
  | |- context [rv (os ?h ?e (c_waitpid ?c 0)) =? ?c] =>
      destruct (Hi h e) as [Hrv Herr]; apply Z.eqb_neq in Hrv; rewrite Hrv
  end.
  rewrite bind_assoc, bind_get_errno. cbn [errno record] in Herr |- *.
  rewrite Herr, Hs, Z.eqb_refl. cbn [negb andb].
  repeat (rewrite ?bind_assoc, ?bind_sys).
  unfold ProcUnix.MakeErrMsg.
  match goal with
  | |- context [if negb ?b then _ else _] => destruct b
  end; cbn [negb]; destruct ErrMsg;
    repeat (rewrite ?bind_assoc, ?bind_sys, ?bind_ret, ?bind_get_errno);
    cbn [Z.eqb]; repeat (rewrite ?bind_assoc, ?bind_sys, ?bind_ret, ?bind_get_errno);
    eexists _, _, _; (split; [reflexivity | apply since_app; log_trace]).
Qed.

(** The Win32 side of C3, for any system: when the first wait times
    out, TerminateProcess succeeds and the system then reports the exit
    code 1 that was passed to it, [WaitAux] returns 1. *)
Lemma win32_timeout_returns_the_exit_status :
  forall (os : OS) (FormatMessage : Z -> string) (wpi : ProcWin32.Win32ProcessInfo)
         (secondsToWait : Z) (ErrMsg : option string) (w : World),
    0 < secondsToWait ->
    (forall h e ms, ms <> ProcWin32.INFINITE ->
        rv (os h e (c_WaitForSingleObject (ProcWin32.hProcess wpi) ms))
        = ProcWin32.WAIT_TIMEOUT) ->
    Word.to_u32 (secondsToWait * 1000) <> ProcWin32.INFINITE ->
    (forall h e, rv (os h e (c_TerminateProcess (ProcWin32.hProcess wpi) 1)) <> 0) ->
    (forall h e, rv (os h e (c_GetExitCodeProcess (ProcWin32.hProcess wpi))) <> 0 /\
                 out 0 (os h e (c_GetExitCodeProcess (ProcWin32.hProcess wpi))) = 1) ->
    result (ProcWin32.WaitAux os FormatMessage wpi secondsToWait ErrMsg w)
    = Ret (1, ErrMsg).
Proof.
  intros os FormatMessage wpi secondsToWait ErrMsg w Hs Hwait Hms Hterm Hexit.
  unfold ProcWin32.WaitAux.
  apply Z.ltb_lt in Hs. rewrite Hs.
  rewrite bind_sys, (Hwait _ _ _ Hms), Z.eqb_refl.
  rewrite bind_sys.
  match goal with
  | |- context [rv (os ?h ?e (c_TerminateProcess ?p 1)) =? 0] =>
      pose proof (Hterm h e) as Ht; apply Z.eqb_neq in Ht; rewrite Ht
  end.
  rewrite bind_sys, bind_sys, bind_get_errno.
  match goal with
  | |- context [rv (os ?h ?e (c_GetExitCodeProcess ?p)) =? 0] =>
      destruct (Hexit h e) as [Hrc Hst]; apply Z.eqb_neq in Hrc; rewrite Hrc, Hst
  end.
  reflexivity.
Qed.

(** C3 on the Win32 backend, run: the child outlives a timeout of one
    second, TerminateProcess(hProcess, 1) succeeds, the process is waited
    for, and [WaitAux] then returns the exit code the system reports for
    the terminated process, 1, not -2. *)
Theorem C3_win32_timeout_returns_exit_code_1 :
  result (ProcWin32.WaitAux SampleProc.os_win32_timeout SampleProc.sample_FormatMessage
            (ProcWin32.mkWPI 77 4321) 1 (Some EmptyString) initial)
  = Ret (1, Some EmptyString) /\
  calls (ProcWin32.WaitAux SampleProc.os_win32_timeout SampleProc.sample_FormatMessage
           (ProcWin32.mkWPI 77 4321) 1 (Some EmptyString) initial)
  = [c_WaitForSingleObject 77 1000;
     c_TerminateProcess 77 1;
     c_WaitForSingleObject 77 ProcWin32.INFINITE;
     c_GetExitCodeProcess 77].
Proof. split; reflexivity. Qed.

(** ** Redirecting stdout and stderr to one file (C4) *)

(** C4 on the Win32 backend, run: stdout and stderr are both redirected
    to "out.log" and DuplicateHandle, asked for a duplicate of the
    handle opened for stdout, fails.  [Execute] does not look at the
    answer: it starts the program with INVALID_HANDLE_VALUE as
    hStdError, beside the handle of "out.log" as hStdOutput, and returns
    true with the message untouched.  The POSIX backend, in the same
    situation (dup2 of descriptor 1 onto 2 fails in the forked child),
    returns false with a message and never calls exec. *)
Theorem C4_win32_ignores_a_failed_duplication :
  result (ProcWin32.Execute SampleMerge.os_no_duplicate SampleProc.sample_FormatMessage
            (Some None) "tool.exe" ["tool.exe"] None
            (Some (Some "in.txt", Some "out.log", Some "out.log")) 0
            (Some EmptyString) initial)
  = Ret (true, Some (Some (ProcWin32.mkWPI 200 4321)), Some EmptyString) /\
  firstn 8 (transcript SampleMerge.os_no_duplicate initial
              (snd (ProcWin32.Execute SampleMerge.os_no_duplicate
                      SampleProc.sample_FormatMessage
                      (Some None) "tool.exe" ["tool.exe"] None
                      (Some (Some "in.txt", Some "out.log", Some "out.log")) 0
                      (Some EmptyString) initial)))
  = [(c_UTF8ToUTF16 "tool.exe", mkReply 0 [] 0);
     (c_GetFileAttributesW "tool.exe", mkReply ProcWin32.FILE_ATTRIBUTE_NORMAL [] 0);
     (c_CreateFileA "in.txt" ProcWin32.GENERIC_READ ProcWin32.FILE_SHARE_READ
        ProcWin32.OPEN_EXISTING ProcWin32.FILE_ATTRIBUTE_NORMAL, mkReply 100 [] 0);
     (c_CreateFileA "out.log" ProcWin32.GENERIC_WRITE ProcWin32.FILE_SHARE_READ
        ProcWin32.CREATE_ALWAYS ProcWin32.FILE_ATTRIBUTE_NORMAL, mkReply 104 [] 0);
     (c_DuplicateHandle 104, mkReply 0 [ProcWin32.INVALID_HANDLE_VALUE] 8);
     (c_fflush 1, mkReply 0 [] 8);
     (c_fflush 2, mkReply 0 [] 8);
     (c_CreateProcessA "tool.exe" ["tool.exe"] None
        100 104 ProcWin32.INVALID_HANDLE_VALUE, mkReply 1 [200; 204; 4321] 8)] /\
  result (ProcUnix.Execute SampleMerge.os_no_duplicate (SampleProc.linux false)
            (Some 0) "/bin/tool" ["/bin/tool"] None
            (Some (Some "in.txt", Some "out.log", Some "out.log")) 0
            (Some EmptyString) initial)
  = Ret (false, Some 0,
         Some "Can't redirect stderr to stdout: Interrupted system call") /\
  calls (ProcUnix.Execute SampleMerge.os_no_duplicate (SampleProc.linux false)
           (Some 0) "/bin/tool" ["/bin/tool"] None
           (Some (Some "in.txt", Some "out.log", Some "out.log")) 0
           (Some EmptyString) initial)
  = [c_fork;
     c_open "in.txt" ProcUnix.O_RDONLY ProcUnix.mode_0666; c_dup2 3 0; c_close 3;
     c_open "out.log" (Z.lor ProcUnix.O_WRONLY ProcUnix.O_CREAT) ProcUnix.mode_0666;
     c_dup2 3 1; c_close 3;
     c_dup2 1 2].
Proof. repeat split; reflexivity. Qed.

(** ** Programs that cannot be executed (C1) *)


Section NotExecutable.

Variable os : OS.





End NotExecutable.




(** ** The command line of the Win32 backend *)

Section CommandLineFacts.

Import CommandLine.

Ltac u32 :=
  unfold Word.to_u32 in *; change (2 ^ 32) with 4294967296 in *;
  Z.div_mod_to_equations; lia.

Lemma to_u32_range a : 0 <= Word.to_u32 a < 2 ^ 32.
Proof. unfold Word.to_u32. apply Z.mod_pos_bound. reflexivity. Qed.

Lemma to_u32_small a : 0 <= a < 2 ^ 32 -> Word.to_u32 a = a.
Proof. intros H. unfold Word.to_u32. apply Z.mod_small. exact H. Qed.

Lemma preceding_backslashes_range Start n c :
  0 <= c < 2 ^ 32 -> 0 <= preceding_backslashes Start n c < 2 ^ 32.
Proof.
  revert c. induction n as [|n IH]; intros c Hc; simpl; [exact Hc|].
  destruct (Ascii.eqb _ _); [|exact Hc].
  apply IH. apply to_u32_range.
Qed.

Lemma CountPrecedingBackslashes_range Start Cur :
  0 <= CountPrecedingBackslashes Start Cur < 2 ^ 32.
Proof. apply preceding_backslashes_range. cbv. split; [discriminate | reflexivity]. Qed.

Lemma EscapePrecedingEscapes_length Dst Start Cur :
  Z.of_nat (List.length (EscapePrecedingEscapes Dst Start Cur))
  = Z.of_nat (List.length Dst) + CountPrecedingBackslashes Start Cur.
Proof.
  unfold EscapePrecedingEscapes.
  rewrite length_app, repeat_length, Nat2Z.inj_add, Z2Nat.id; [reflexivity|].
  apply CountPrecedingBackslashes_range.
Qed.

Lemma copy_arg_grows start arg rest p :
  (List.length p <= List.length (copy_arg start arg rest p))%nat.
Proof.
  revert arg p. induction rest as [|c rest IH]; intros arg p; simpl; [lia|].
  etransitivity; [|apply IH].
  rewrite length_app. simpl.
  destruct (Ascii.eqb c dquote); [|lia].
  rewrite length_app. unfold EscapePrecedingEscapes. rewrite length_app. lia.
Qed.

(** The first pass counts what the second pass writes. *)
Lemma ArgLen_loop_counts_copy_arg rest : forall Start i len p,
  Word.to_u32 (ArgLen_loop Start i rest len)
  = Word.to_u32 (len + Z.of_nat (List.length (copy_arg Start i rest p))
                 - Z.of_nat (List.length p)).
Proof.
  induction rest as [|c rest IH]; intros Start i len p; simpl.
  - f_equal. lia.
  - rewrite (IH Start (S i) _ (((if Ascii.eqb c dquote
                                  then EscapePrecedingEscapes p Start i ++ [backslash]
                                  else p) ++ [c]))).
    set (X := Z.of_nat (List.length (copy_arg Start (S i) rest _))).
    rewrite length_app. simpl List.length. rewrite Nat2Z.inj_add.
    destruct (Ascii.eqb c dquote).
    + rewrite length_app. simpl List.length. rewrite Nat2Z.inj_add.
      rewrite EscapePrecedingEscapes_length.
      generalize (CountPrecedingBackslashes Start i). intros k.
      generalize (Z.of_nat (List.length p)). intros n. clearbody X.
      change (Z.of_nat 1) with 1. u32.
    + generalize (Z.of_nat (List.length p)). intros n. clearbody X.
      change (Z.of_nat 1) with 1. u32.
Qed.

Lemma ArgLen_loop_range rest : forall Start i len,
  0 <= len < 2 ^ 32 -> 0 <= ArgLen_loop Start i rest len < 2 ^ 32.
Proof.
  induction rest as [|c rest IH]; intros Start i len H; simpl; [exact H|].
  apply IH. apply to_u32_range.
Qed.

(** What one argument adds to the command line, and what the first pass
    reckons for it. *)
Lemma ArgLenWithQuotes_counts_write_arg p arg :
  Word.to_u32 (ArgLenWithQuotes arg + 1)
  = Word.to_u32 (Z.of_nat (List.length (write_arg p arg)) - Z.of_nat (List.length p)
                 + (if ArgNeedsQuotes arg then 1 else 0)).
Proof.
  unfold ArgLenWithQuotes, write_arg.
  destruct (ArgNeedsQuotes arg).
  - pose proof (ArgLen_loop_counts_copy_arg arg arg 0%nat 2 (p ++ [dquote])) as H.
    rewrite !length_app. simpl List.length.
    rewrite !Nat2Z.inj_add, EscapePrecedingEscapes_length.
    rewrite length_app in H. simpl List.length in H. rewrite Nat2Z.inj_add in H.
    revert H.
    generalize (CountPrecedingBackslashes arg (List.length arg)). intros k.
    generalize (ArgLen_loop arg 0 arg 2). intros a.
    generalize (Z.of_nat (List.length (copy_arg arg 0 arg (p ++ [dquote])))). intros X.
    generalize (Z.of_nat (List.length p)). intros n.
    change (Z.of_nat 1) with 1. intros H. u32.
  - pose proof (ArgLen_loop_counts_copy_arg arg arg 0%nat 0 p) as H.
    rewrite length_app. simpl List.length. rewrite Nat2Z.inj_add.
    revert H.
    generalize (ArgLen_loop arg 0 arg 0). intros a.
    generalize (Z.of_nat (List.length (copy_arg arg 0 arg p))). intros X.
    generalize (Z.of_nat (List.length p)). intros n.
    change (Z.of_nat 1) with 1. intros H. u32.
Qed.

Lemma write_arg_grows p arg : (List.length p < List.length (write_arg p arg))%nat.
Proof.
  unfold write_arg. rewrite length_app. simpl.
  destruct (ArgNeedsQuotes arg).
  - rewrite length_app. unfold EscapePrecedingEscapes. rewrite length_app.
    pose proof (copy_arg_grows arg 0 arg (p ++ [dquote])) as H.
    rewrite length_app in H. simpl in H. lia.
  - pose proof (copy_arg_grows arg 0 arg p). lia.
Qed.

(** What an argument contributes does not depend on what is already in
    the buffer. *)
Lemma copy_arg_app start rest : forall arg p q,
  copy_arg start arg rest (p ++ q) = p ++ copy_arg start arg rest q.
Proof.
  induction rest as [|c rest IH]; intros arg p q; simpl; [reflexivity|].
  destruct (Ascii.eqb c dquote).
  - unfold EscapePrecedingEscapes. rewrite <- !app_assoc. apply IH.
  - rewrite <- app_assoc. apply IH.
Qed.

Lemma write_arg_app p arg : write_arg p arg = p ++ write_arg [] arg.
Proof.
  unfold write_arg. destruct (ArgNeedsQuotes arg).
  - rewrite copy_arg_app. unfold EscapePrecedingEscapes.
    simpl app. rewrite <- !app_assoc. reflexivity.
  - rewrite <- (app_nil_r p) at 1. rewrite copy_arg_app, <- app_assoc. reflexivity.
Qed.

Lemma fold_write_arg_app args : forall p,
  fold_left write_arg args p = p ++ fold_left write_arg args [].
Proof.
  induction args as [|a args IH]; intros p; simpl.
  - rewrite app_nil_r. reflexivity.
  - rewrite IH, (IH (write_arg [] a)), write_arg_app, app_assoc. reflexivity.
Qed.

Lemma command_line_cons a args :
  command_line (a :: args) = write_arg [] a ++ command_line args.
Proof. unfold command_line. simpl. apply fold_write_arg_app. Qed.

Lemma command_length_from args : forall len,
  fold_left (fun len arg => Word.to_u32 (len + Word.to_u32 (ArgLenWithQuotes arg + 1)))
            args (Word.to_u32 len)
  = Word.to_u32 (len + Z.of_nat (List.length (command_line args))
                 + Z.of_nat (List.length (filter ArgNeedsQuotes args))).
Proof.
  induction args as [|a args IH]; intros len.
  - simpl. f_equal. lia.
  - cbn [fold_left]. rewrite IH, command_line_cons, length_app, Nat2Z.inj_add.
    pose proof (ArgLenWithQuotes_counts_write_arg [] a) as H.
    simpl List.length in H. cbn [filter].
    destruct (ArgNeedsQuotes a).
    + cbn [List.length]. rewrite Nat2Z.inj_succ. revert H.
      generalize (ArgLenWithQuotes a). intros x.
      generalize (Z.of_nat (List.length (write_arg [] a))). intros y.
      generalize (Z.of_nat (List.length (command_line args))). intros z.
      generalize (Z.of_nat (List.length (filter ArgNeedsQuotes args))). intros t.
      intros H. u32.
    + revert H.
      generalize (ArgLenWithQuotes a). intros x.
      generalize (Z.of_nat (List.length (write_arg [] a))). intros y.
      generalize (Z.of_nat (List.length (command_line args))). intros z.
      generalize (Z.of_nat (List.length (filter ArgNeedsQuotes args))). intros t.
      intros H. u32.
Qed.

End CommandLineFacts.

(** X1.  The buffer [Execute] allocates for the command line is large
    enough: as long as the sum stays below 2^32, the length its first
    loop computes is the number of characters its second loop writes,
    plus one for every argument that is quoted. *)
Theorem X1_command_line_fits_its_buffer :
  forall args : list (list Ascii.ascii),
    Z.of_nat (List.length (CommandLine.command_line args))
    + Z.of_nat (List.length (filter CommandLine.ArgNeedsQuotes args)) < 2 ^ 32 ->
    CommandLine.command_length args
    = Z.of_nat (List.length (CommandLine.command_line args))
      + Z.of_nat (List.length (filter CommandLine.ArgNeedsQuotes args)).
Proof.
  intros args H. unfold CommandLine.command_length.
  change 0 with (Word.to_u32 0) at 1.
  rewrite command_length_from. apply to_u32_small. lia.
Qed.

Section CommandLineRoundTrip.

Import CommandLine.

Lemma not_special_chars c :
  existsb (Ascii.eqb c) special = false ->
  Ascii.eqb c backslash = false /\ Ascii.eqb c dquote = false /\
  Ascii.eqb c space = false /\ Ascii.eqb c (Ascii.ascii_of_nat 9) = false.
Proof.
  unfold special. cbn [map existsb]. intros H.
  repeat (apply orb_false_iff in H; destruct H as [? H]).
  repeat split; assumption.
Qed.

Lemma copy_arg_plain start rest : forall arg p,
  strpbrk_finds rest special = false -> copy_arg start arg rest p = p ++ rest.
Proof.
  induction rest as [|c rest IH]; intros arg p H; simpl.
  - rewrite app_nil_r. reflexivity.
  - unfold strpbrk_finds in H. cbn [existsb] in H.
    apply orb_false_iff in H. destruct H as [Hc Hrest].
    destruct (not_special_chars c Hc) as (_ & Hq & _).
    rewrite Hq, IH by exact Hrest. rewrite <- app_assoc. reflexivity.
Qed.

End CommandLineRoundTrip.

(** X2.  An argument that needs no quoting reaches the command line
    unchanged, followed by one space. *)
Theorem X2_plain_argument_is_written_verbatim :
  forall p arg : list Ascii.ascii,
    CommandLine.ArgNeedsQuotes arg = false ->
    CommandLine.write_arg p arg = p ++ arg ++ [CommandLine.space].
Proof.
  intros p arg H. unfold CommandLine.write_arg. rewrite H.
  destruct arg as [|c arg]; [discriminate H|].
  cbn [CommandLine.ArgNeedsQuotes] in H.
  rewrite copy_arg_plain by exact H. rewrite <- app_assoc. reflexivity.
Qed.

Lemma X2_witness :
  CommandLine.ArgNeedsQuotes (list_ascii_of_string "plain") = false /\
  CommandLine.write_arg (list_ascii_of_string "prog.exe ") (list_ascii_of_string "plain")
  = list_ascii_of_string "prog.exe plain ".
Proof.
  split; [reflexivity|].
  exact (X2_plain_argument_is_written_verbatim
           (list_ascii_of_string "prog.exe ") (list_ascii_of_string "plain") eq_refl).
Defined.

Section CommandLineParsing.

Import CommandLine.

Lemma preceding_backslashes_run Start : forall i,
  exists m, (m <= i)%nat /\
    forall c, 0 <= c < 2 ^ 32 ->
      preceding_backslashes Start i c = Word.to_u32 (c + Z.of_nat m).
Proof.
  induction i as [|i [m [Hm IH]]].
  - exists 0%nat. split; [lia|]. intros c Hc. simpl.
    rewrite Z.add_0_r, to_u32_small by exact Hc. reflexivity.
  - simpl. destruct (Ascii.eqb (nth i Start NUL) backslash).
    + exists (S m). split; [lia|]. intros c Hc.
      rewrite IH by apply to_u32_range.
      rewrite Nat2Z.inj_succ. unfold Word.to_u32.
      rewrite Zplus_mod_idemp_l. f_equal. lia.
    + exists 0%nat. split; [lia|]. intros c Hc.
      rewrite Z.add_0_r, to_u32_small by exact Hc. reflexivity.
Qed.

Lemma CountPrecedingBackslashes_start Start : CountPrecedingBackslashes Start 0 = 0.
Proof. reflexivity. Qed.

Lemma CountPrecedingBackslashes_step Start i :
  Z.of_nat i < 2 ^ 32 - 1 ->
  CountPrecedingBackslashes Start (S i)
  = if Ascii.eqb (nth i Start NUL) backslash
    then CountPrecedingBackslashes Start i + 1 else 0.
Proof.
  intros Hi. unfold CountPrecedingBackslashes. simpl.
  destruct (Ascii.eqb (nth i Start NUL) backslash); [|reflexivity].
  destruct (preceding_backslashes_run Start i) as [m [Hm H]].
  rewrite (H 0) by (cbv; split; [discriminate | reflexivity]).
  rewrite H by apply to_u32_range.
  change (Word.to_u32 1) with 1.
  change (2 ^ 32) with 4294967296 in Hi.
  rewrite !to_u32_small by (change (2 ^ 32) with 4294967296; lia). lia.
Qed.

Lemma split_backslashes n : forall l inq bs w,
  split_arguments (repeat backslash n ++ l) inq bs (Some w)
  = split_arguments l inq (n + bs) (Some w).
Proof.
  induction n as [|n IH]; intros l inq bs w; [reflexivity|].
  cbn [repeat app split_arguments].
  change (Ascii.eqb backslash backslash) with true. cbn iota.
  rewrite IH. f_equal. lia.
Qed.

Lemma even_double k : Nat.even (k + k) = true.
Proof.
  induction k as [|k IH]; [reflexivity|].
  rewrite Nat.add_succ_r. exact IH.
Qed.

Lemma div2_double k : Nat.div2 (k + k) = k.
Proof.
  induction k as [|k IH]; [reflexivity|].
  rewrite Nat.add_succ_r. simpl. rewrite IH. reflexivity.
Qed.

Lemma even_succ_double k : Nat.even (S (k + k)) = false.
Proof.
  induction k as [|k IH]; [reflexivity|].
  rewrite Nat.add_succ_r. exact IH.
Qed.

Lemma div2_succ_double k : Nat.div2 (S (k + k)) = k.
Proof.
  induction k as [|k IH]; [reflexivity|].
  rewrite Nat.add_succ_r. simpl in *. rewrite IH. reflexivity.
Qed.

Lemma repeat_snoc {A} (a : A) n : repeat a n ++ [a] = repeat a (S n).
Proof. induction n as [|n IH]; simpl; [reflexivity|]. rewrite IH. reflexivity. Qed.

Lemma copy_arg_nil start rest arg p :
  copy_arg start arg rest p = p ++ copy_arg start arg rest [].
Proof. rewrite <- (app_nil_r p) at 1. apply copy_arg_app. Qed.

(** Reading back what [copy_arg] writes inside quotes: the reader has
    seen the argument up to the offset reached, the backslashes that end
    this part being those whose meaning is still open. *)
Lemma quoted_body_read_back start :
  Z.of_nat (List.length start) < 2 ^ 32 - 1 ->
  forall rest pre w k tail,
    start = pre ++ rest ->
    pre = w ++ repeat backslash k ->
    CountPrecedingBackslashes start (List.length pre) = Z.of_nat k ->
    exists w' k',
      start = w' ++ repeat backslash k' /\
      CountPrecedingBackslashes start (List.length start) = Z.of_nat k' /\
      split_arguments (copy_arg start (List.length pre) rest [] ++ tail) true k (Some w)
      = split_arguments tail true k' (Some w').
Proof.
  intros Hlen. induction rest as [|c rest IH]; intros pre w k tail Hs Hp Hc.
  - rewrite app_nil_r in Hs. rewrite <- Hs in Hp, Hc |- *.
    exists w, k. repeat split; assumption.
  - assert (Hs' : start = (pre ++ [c]) ++ rest) by (rewrite <- app_assoc; exact Hs).
    assert (Hn : nth (List.length pre) start NUL = c)
      by (rewrite Hs at 1; apply nth_middle).
    assert (Hi : Z.of_nat (List.length pre) < 2 ^ 32 - 1).
    { rewrite Hs in Hlen. rewrite length_app in Hlen. lia. }
    pose proof (CountPrecedingBackslashes_step start (List.length pre) Hi) as Hstep.
    rewrite Hn in Hstep. clear Hn.
    assert (Hl : List.length (pre ++ [c]) = S (List.length pre))
      by (rewrite length_app; simpl; lia).
    cbn [copy_arg]. rewrite copy_arg_nil, <- Hl.
    destruct (Ascii.eqb c backslash) eqn:Hb.
    + apply Ascii.eqb_eq in Hb. subst c.
      change (Ascii.eqb backslash dquote) with false. cbn iota.
      assert (Hp' : pre ++ [backslash] = w ++ repeat backslash (S k))
        by (rewrite Hp, <- app_assoc, repeat_snoc; reflexivity).
      assert (Hc' : CountPrecedingBackslashes start (List.length (pre ++ [backslash]))
                    = Z.of_nat (S k)).
      { rewrite Hl, Hstep, Hc. change (Ascii.eqb backslash backslash) with true.
        cbn iota. lia. }
      destruct (IH _ _ _ tail Hs' Hp' Hc') as (w' & k' & H1 & H2 & H3).
      exists w', k'. split; [exact H1 | split; [exact H2 |]].
      rewrite <- H3. cbn [app split_arguments].
      change (Ascii.eqb backslash backslash) with true. reflexivity.
    + destruct (Ascii.eqb c dquote) eqn:Hq.
      * apply Ascii.eqb_eq in Hq. subst c.
        assert (Hp' : pre ++ [dquote] = (pre ++ [dquote]) ++ repeat backslash 0)
          by (simpl; rewrite app_nil_r; reflexivity).
        assert (Hc' : CountPrecedingBackslashes start (List.length (pre ++ [dquote]))
                      = Z.of_nat 0)
          by (rewrite Hl, Hstep; reflexivity).
        destruct (IH _ _ _ tail Hs' Hp' Hc') as (w' & k' & H1 & H2 & H3).
        exists w', k'. split; [exact H1 | split; [exact H2 |]].
        rewrite <- H3. unfold EscapePrecedingEscapes.
        rewrite Hc, Nat2Z.id. cbn [app].
        rewrite <- !app_assoc, split_backslashes. cbn [app split_arguments].
        change (Ascii.eqb backslash backslash) with true. cbn iota.
        change (Ascii.eqb dquote backslash) with false.
        change (Ascii.eqb dquote dquote) with true. cbn iota.
        rewrite even_succ_double, div2_succ_double, Hp. reflexivity.
      * assert (Hp' : pre ++ [c] = (pre ++ [c]) ++ repeat backslash 0)
          by (simpl; rewrite app_nil_r; reflexivity).
        assert (Hc' : CountPrecedingBackslashes start (List.length (pre ++ [c]))
                      = Z.of_nat 0)
          by (rewrite Hl, Hstep; reflexivity).
        destruct (IH _ _ _ tail Hs' Hp' Hc') as (w' & k' & H1 & H2 & H3).
        exists w', k'. split; [exact H1 | split; [exact H2 |]].
        rewrite <- H3. cbn [app split_arguments]. rewrite Hb, Hq.
        cbn [negb andb]. rewrite andb_false_r, Hp. reflexivity.
Qed.

Lemma plain_body_read_back rest : forall w l,
  strpbrk_finds rest special = false ->
  split_arguments (rest ++ l) false 0 (Some w) = split_arguments l false 0 (Some (w ++ rest)).
Proof.
  induction rest as [|c rest IH]; intros w l H.
  - rewrite app_nil_r. reflexivity.
  - unfold strpbrk_finds in H. cbn [existsb] in H.
    apply orb_false_iff in H. destruct H as [Hc Hrest].
    destruct (not_special_chars c Hc) as (Hb & Hq & Hs & Ht).
    cbn [app split_arguments]. rewrite Hb, Hq, Hs, Ht. cbn [orb andb repeat].
    rewrite app_nil_r, IH by exact Hrest. rewrite <- app_assoc. reflexivity.
Qed.

(** One argument written, one argument read. *)
Lemma write_arg_read_back arg tail :
  Z.of_nat (List.length arg) < 2 ^ 32 - 1 ->
  split_arguments (write_arg [] arg ++ tail) false 0 None
  = arg :: split_arguments tail false 0 None.
Proof.
  intros Hlen. unfold write_arg. destruct (ArgNeedsQuotes arg) eqn:Hq.
  - rewrite copy_arg_nil. unfold EscapePrecedingEscapes. rewrite <- !app_assoc.
    cbn [app]. cbn [split_arguments].
    change (Ascii.eqb dquote backslash) with false.
    change (Ascii.eqb dquote dquote) with true. cbn iota.
    cbn [Nat.even Nat.div2 repeat app negb].
    destruct (quoted_body_read_back arg Hlen arg [] [] 0%nat
                (repeat backslash (Z.to_nat (CountPrecedingBackslashes arg (List.length arg)))
                 ++ dquote :: space :: tail) eq_refl eq_refl eq_refl)
      as (w' & k' & H1 & H2 & H3).
    change (List.length (@nil Ascii.ascii)) with 0%nat in H3.
    rewrite H3, H2, Nat2Z.id, split_backslashes.
    cbn [app split_arguments].
    change (Ascii.eqb dquote backslash) with false.
    change (Ascii.eqb dquote dquote) with true. cbn iota.
    rewrite even_double, div2_double.
    change (Ascii.eqb space backslash) with false.
    change (Ascii.eqb space dquote) with false.
    change (Ascii.eqb space space) with true. cbn [orb andb negb repeat].
    rewrite app_nil_r, <- H1. reflexivity.
  - destruct arg as [|c arg]; [discriminate Hq|].
    cbn [ArgNeedsQuotes] in Hq. rewrite copy_arg_plain by exact Hq.
    cbn [app]. pose proof Hq as Hq'.
    unfold strpbrk_finds in Hq. cbn [existsb] in Hq.
    apply orb_false_iff in Hq. destruct Hq as [Hc Hrest].
    destruct (not_special_chars c Hc) as (Hb & Hd & Hs & Ht).
    cbn [split_arguments]. rewrite Hb, Hd, Hs, Ht. cbn [orb andb repeat app].
    rewrite <- app_assoc, plain_body_read_back by exact Hrest.
    cbn [app split_arguments].
    change (Ascii.eqb space backslash) with false.
    change (Ascii.eqb space dquote) with false.
    change (Ascii.eqb space space) with true. cbn [orb andb negb repeat].
    rewrite app_nil_r. reflexivity.
Qed.

End CommandLineParsing.

(** X3.  The quoting of [Execute] loses nothing: split by the rules of
    the Microsoft C runtime, the command line it builds gives back the
    argument vector it was built from, whatever characters the
    arguments contain (arguments shorter than 2^32 - 1 characters). *)
Theorem X3_command_line_reads_back_as_the_arguments :
  forall args : list (list Ascii.ascii),
    Forall (fun arg => Z.of_nat (List.length arg) < 2 ^ 32 - 1) args ->
    arguments_of (CommandLine.command_line args) = args.
Proof.
  intros args H. unfold arguments_of.
  induction H as [|a args Ha Hargs IH]; [reflexivity|].
  rewrite command_line_cons, write_arg_read_back by exact Ha.
  rewrite IH. reflexivity.
Qed.

Section CommandLineLimit.

Import CommandLine.

Lemma fits_loop_counts Args : forall ArgLength,
  0 <= ArgLength <= MaxCommandStringLength ->
  Forall (fun arg => Z.of_nat (List.length (write_arg [] arg)) + 1 < 2 ^ 32) Args ->
  fits_loop Args ArgLength
  = (ArgLength + Z.of_nat (List.length (command_line Args))
     + Z.of_nat (List.length (filter ArgNeedsQuotes Args)) <=? MaxCommandStringLength).
Proof.
  induction Args as [|a Args IH]; intros A HA HF.
  - simpl. symmetry. apply Z.leb_le. lia.
  - inversion HF as [|? ? Ha HF']; subst. cbn [fits_loop].
    pose proof (ArgLenWithQuotes_counts_write_arg [] a) as Hc.
    simpl List.length in Hc. rewrite Hc.
    set (q := if ArgNeedsQuotes a then 1 else 0).
    assert (Hq : 0 <= q <= 1) by (unfold q; destruct (ArgNeedsQuotes a); lia).
    pose proof (write_arg_grows [] a) as Hg. simpl in Hg.
    rewrite to_u32_small
      by (change (2 ^ 32) with 4294967296 in *; change (Z.of_nat 0) with 0; lia).
    change (Z.of_nat 0) with 0. rewrite Z.sub_0_r.
    unfold Word.to_size_t. rewrite Z.mod_small
      by (unfold MaxCommandStringLength in HA; change (2 ^ 32) with 4294967296 in Ha;
          change Word.size_mod with 18446744073709551616; lia).
    rewrite command_line_cons, length_app, Nat2Z.inj_add. cbn [filter]. fold q.
    assert (Hf : Z.of_nat (List.length (if ArgNeedsQuotes a
                                        then a :: filter ArgNeedsQuotes Args
                                        else filter ArgNeedsQuotes Args))
                 = q + Z.of_nat (List.length (filter ArgNeedsQuotes Args))).
    { unfold q. destruct (ArgNeedsQuotes a); cbn [List.length]; lia. }
    rewrite Hf.
    destruct (Z.ltb_spec MaxCommandStringLength
                (A + (Z.of_nat (List.length (write_arg [] a)) + q))) as [Hlt | Hle].
    + symmetry. apply Z.leb_gt. lia.
    + rewrite IH by (try assumption; lia). f_equal. lia.
Qed.

End CommandLineLimit.

(** X6.  On Win32 [argumentsFitWithinSystemLimits] accepts exactly the
    argument vectors whose command line, as [Execute] builds it and
    counted with one extra character for every quoted argument, is at
    most 32768 characters long.  (Each argument, quoted, shorter than
    2^32 - 2 characters.) *)
Theorem X6_win32_argument_limit_is_the_command_line_length :
  forall Args : list (list Ascii.ascii),
    Forall (fun arg => Z.of_nat (List.length (CommandLine.write_arg [] arg)) + 1 < 2 ^ 32)
           Args ->
    CommandLine.argumentsFitWithinSystemLimits Args
    = (Z.of_nat (List.length (CommandLine.command_line Args))
       + Z.of_nat (List.length (filter CommandLine.ArgNeedsQuotes Args)) <=? 32768).
Proof.
  intros Args H. unfold CommandLine.argumentsFitWithinSystemLimits.
  rewrite fits_loop_counts; [reflexivity | cbv; split; discriminate | exact H].
Qed.

Lemma X6_witness :
  Forall (fun arg => Z.of_nat (List.length (CommandLine.write_arg [] arg)) + 1 < 2 ^ 32)
         sample_args /\
  CommandLine.argumentsFitWithinSystemLimits sample_args = true.
Proof.
  assert (H : Forall (fun arg => Z.of_nat (List.length (CommandLine.write_arg [] arg)) + 1
                                 < 2 ^ 32) sample_args)
    by (repeat constructor).
  split; [exact H|].
  rewrite (X6_win32_argument_limit_is_the_command_line_length sample_args H).
  reflexivity.
Defined.

Lemma X1_witness :
  Z.of_nat (List.length (CommandLine.command_line sample_args))
  + Z.of_nat (List.length (filter CommandLine.ArgNeedsQuotes sample_args)) < 2 ^ 32 /\
  CommandLine.command_length sample_args = 32 /\
  Z.of_nat (List.length (CommandLine.command_line sample_args)) = 30.
Proof.
  split; [reflexivity|]. split; [|reflexivity].
  rewrite (X1_command_line_fits_its_buffer sample_args eq_refl). reflexivity.
Defined.

Lemma X3_witness :
  Forall (fun arg => Z.of_nat (List.length arg) < 2 ^ 32 - 1) sample_args /\
  CommandLine.command_line sample_args
  = list_ascii_of_string
      (String.append "prog.exe "
         (String (Ascii.ascii_of_nat 34)
            (String.append "two words"
               (String (Ascii.ascii_of_nat 34)
                  (String.append " plain "
                     (String (Ascii.ascii_of_nat 34)
                        (String (Ascii.ascii_of_nat 34) " "))))))) /\
  arguments_of (CommandLine.command_line sample_args) = sample_args.
Proof.
  assert (H : Forall (fun arg => Z.of_nat (List.length arg) < 2 ^ 32 - 1) sample_args)
    by (repeat constructor).
  split; [exact H|]. split; [reflexivity|].
  exact (X3_command_line_reads_back_as_the_arguments sample_args H).
Defined.

Section ArgLimitUnixFacts.

Import ArgLimitUnix.

Lemma quot_pow2 a n : 0 <= a -> Z.quot (Z.quot a (2 ^ Z.of_nat n)) 2 = Z.quot a (2 ^ Z.of_nat (S n)).
Proof.
  intros Ha.
  assert (Hp : 0 < 2 ^ Z.of_nat n) by (apply Z.pow_pos_nonneg; lia).
  assert (Hp' : 0 < 2 ^ Z.of_nat (S n)) by (apply Z.pow_pos_nonneg; lia).
  rewrite (Z.quot_div_nonneg a _ Ha Hp), (Z.quot_div_nonneg a _ Ha Hp').
  rewrite Z.quot_div_nonneg by (try apply Z.div_pos; lia).
  rewrite Nat2Z.inj_succ, Z.pow_succ_r by lia.
  rewrite Z.div_div by lia. f_equal. lia.
Qed.

Lemma static_after_calls sc calls :
  0 <= to_long sc ->
  forall st n,
    st = (match n with
          | O => None
          | S _ => Some (Z.quot (to_long sc) (2 ^ Z.of_nat n))
          end) ->
    fold_left (fun st Args => snd (argumentsFitWithinSystemLimits sc st Args)) calls st
    = match (n + List.length calls)%nat with
      | O => None
      | S _ => Some (Z.quot (to_long sc) (2 ^ Z.of_nat (n + List.length calls)))
      end.
Proof.
  intros Hsc. induction calls as [|Args calls IH]; intros st n Hst.
  - simpl. rewrite Nat.add_0_r. exact Hst.
  - cbn [fold_left List.length]. rewrite Nat.add_succ_r.
    apply (IH _ (S n)). subst st.
    unfold argumentsFitWithinSystemLimits.
    destruct n as [|n].
    + destruct (Z.eqb_spec (to_long sc) (-1)) as [E|_]; [lia|].
      cbn [snd]. f_equal.
    + assert (H0 : 0 <= Z.quot (to_long sc) (2 ^ Z.of_nat (S n)))
        by (apply Z.quot_pos; lia).
      destruct (Z.eqb_spec (Z.quot (to_long sc) (2 ^ Z.of_nat (S n))) (-1)) as [E|_]; [lia|].
      cbn [snd]. f_equal. apply quot_pow2. exact Hsc.
Qed.

End ArgLimitUnixFacts.

(** X7.  On POSIX [argumentsFitWithinSystemLimits] halves the limit it
    remembers every time it is called: the static is divided by two in
    place, so the call that follows [n] earlier ones compares the
    arguments with [sysconf(_SC_ARG_MAX) / 2^(n+1)], not with half of
    what the system reported.  (For a limit that is not negative.) *)
Theorem X7_posix_argument_limit_halves_with_every_call :
  forall (sysconf_ARG_MAX : Z) (calls : list (list string)) (Args : list string),
    0 <= ArgLimitUnix.to_long sysconf_ARG_MAX ->
    fst (ArgLimitUnix.argumentsFitWithinSystemLimits sysconf_ARG_MAX
           (ArgLimitUnix.static_after sysconf_ARG_MAX calls) Args)
    = ArgLimitUnix.fits_loop Args 0
        (Z.quot (ArgLimitUnix.to_long sysconf_ARG_MAX)
                (2 ^ Z.of_nat (S (List.length calls)))).
Proof.
  intros sc calls Args Hsc. unfold ArgLimitUnix.static_after.
  rewrite (static_after_calls sc calls Hsc None 0%nat eq_refl). cbn [Nat.add].
  unfold ArgLimitUnix.argumentsFitWithinSystemLimits.
  destruct (List.length calls) as [|n].
  - destruct (Z.eqb_spec (ArgLimitUnix.to_long sc) (-1)) as [E|_]; [lia|].
    reflexivity.
  - assert (H0 : 0 <= Z.quot (ArgLimitUnix.to_long sc) (2 ^ Z.of_nat (S n)))
      by (apply Z.quot_pos; lia).
    destruct (Z.eqb_spec (Z.quot (ArgLimitUnix.to_long sc) (2 ^ Z.of_nat (S n))) (-1))
      as [E|_]; [lia|].
    cbn [fst]. f_equal. apply quot_pow2. exact Hsc.
Qed.

Lemma X7_witness :
  0 <= ArgLimitUnix.to_long 64 /\
  fst (ArgLimitUnix.argumentsFitWithinSystemLimits 64 None ["twenty characters.."]) = true /\
  fst (ArgLimitUnix.argumentsFitWithinSystemLimits 64
         (ArgLimitUnix.static_after 64 [["twenty characters.."]])
         ["twenty characters.."]) = false.
Proof.
  split; [discriminate|]. split; [reflexivity|].
  rewrite (X7_posix_argument_limit_halves_with_every_call
             64 [["twenty characters.."]] ["twenty characters.."] ltac:(discriminate)).
  reflexivity.
Defined.

(** ** Sizes and addresses of mapped blocks *)

Lemma bind_run {A B} (m : IO A) (k : A -> IO B) w a w1 :
  m w = (Ret a, w1) -> bind m k w = k a w1.
Proof. intros H. unfold bind. rewrite H. reflexivity. Qed.

Lemma bind_stop {A B} (m : IO A) (k : A -> IO B) w h w1 :
  m w = (Stop h, w1) -> bind m k w = (Stop h, w1).
Proof. intros H. unfold bind. rewrite H. reflexivity. Qed.

Lemma round_up_units unit N :
  0 < unit -> 0 < N -> N + unit <= Word.size_mod ->
  Word.to_size_t (Word.to_size_t (N + unit - 1) / unit * unit) mod unit = 0 /\
  N <= Word.to_size_t (Word.to_size_t (N + unit - 1) / unit * unit) < N + unit.
Proof.
  intros Hu HN Hb. unfold Word.to_size_t.
  rewrite (Z.mod_small (N + unit - 1)) by lia.
  assert (H : 0 <= (N + unit - 1) / unit * unit <= N + unit - 1).
  { split; [apply Z.mul_nonneg_nonneg; [apply Z.div_pos|]; lia |].
    rewrite Z.mul_comm. apply Z.mul_div_le. exact Hu. }
  rewrite (Z.mod_small ((N + unit - 1) / unit * unit)) by lia.
  split; [apply Z.mod_mul; lia |].
  split; [| lia].
  pose proof (Z.mod_pos_bound (N + unit - 1) unit Hu) as Hm.
  pose proof (Z.div_mod (N + unit - 1) unit ltac:(lia)) as Hd.
  lia.
Qed.

Ltac finish_block round :=
  first
    [ (* stopped *)
      intros H; injection H as <- <-; intros M ec E; discriminate E
    | (* an error is reported, with the empty block *)
      unfold bind, get_errno, ret; intros H; injection H as <- <-;
      intros M ec E; injection E as <- <-; left; reflexivity
    | (* mapped *)
      rewrite ?bind_assoc, ?bind_sys, ?bind_ret; unfold ret;
      intros H; injection H as <- <-;
      intros M ec E; injection E as <- <-; right; split; [reflexivity|];
      unfold rounded_up; cbn [Size]; apply round; assumption ].

Section PosixRounding.

Variable os : OS.
Variable MF : ProtectionFlags.
Variable cfg : MemUnix.Config.
Variable ps : Z.

Hypothesis page_size : forall h e, Word.to_size_t (rv (os h e c_page_size)) = ps.

Lemma PageSize_static_known w :
  st_PageSize w = None \/ st_PageSize w = Some ps ->
  exists w', MemUnix.PageSize_static os w = (Ret ps, w') /\ st_PageSize w' = Some ps /\
             exists l, trace w' = trace w ++ l /\
                       Forall (fun c => c = c_page_size) l.
Proof.
  intros [H | H]; unfold MemUnix.PageSize_static, static_local; rewrite H.
  - rewrite bind_sys. cbn [ret]. rewrite page_size.
    eexists. split; [reflexivity|]. split; [reflexivity|].
    exists [c_page_size]. split; [reflexivity|]. repeat constructor.
  - eexists. split; [reflexivity|]. split; [exact H|].
    exists []. split; [symmetry; apply app_nil_r | constructor].
Qed.

Lemma zero_fd_static_keeps_PageSize w r w' :
  MemUnix.zero_fd_static os w = (r, w') -> st_PageSize w' = st_PageSize w.
Proof.
  unfold MemUnix.zero_fd_static, static_local.
  destruct (st_zero_fd w); [intros H; injection H as <- <-; reflexivity|].
  rewrite bind_sys. cbn [ret]. intros H; injection H as <- <-. reflexivity.
Qed.

Lemma posix_block_is_rounded NumBytes PFlags :
  0 < ps -> 0 < NumBytes -> NumBytes + ps <= Word.size_mod ->
  forall d NearBlock w r w',
    st_PageSize w = None \/ st_PageSize w = Some ps ->
    MemUnix.allocateMappedMemory_rec os MF cfg d NumBytes NearBlock PFlags w = (r, w') ->
    forall M ec, r = Ret (M, ec) ->
      M = empty_block \/ (ec = success /\ rounded_up ps NumBytes M).
Proof.
  intros Hps HN Hb.
  destruct (posix_translation_pure MF cfg PFlags) as (res & _ & Hres).
  assert (HN0 : (NumBytes =? 0) = false) by (apply Z.eqb_neq; lia).
  assert (Hnone : forall d w r w',
            st_PageSize w = None \/ st_PageSize w = Some ps ->
            MemUnix.allocateMappedMemory_rec os MF cfg d NumBytes None PFlags w = (r, w') ->
            forall M ec, r = Ret (M, ec) ->
              M = empty_block \/ (ec = success /\ rounded_up ps NumBytes M)).
  { intros d w r w' Hw.
    rewrite (posix_allocate_no_hint_depth os MF cfg d 0).
    cbn [MemUnix.allocateMappedMemory_rec]. rewrite HN0.
    destruct (PageSize_static_known w Hw) as (w1 & Hrun & Hw1 & _).
    rewrite (bind_run _ _ _ _ _ Hrun).
    unfold MemUnix.InvalidateInstructionCache.
    destruct (MemUnix.NEED_DEV_ZERO_FOR_MMAP cfg).
    - destruct (MemUnix.zero_fd_static os w1) as [[zf | h] w2] eqn:Hz.
      + rewrite (bind_run _ _ _ _ _ Hz). destruct (zf =? -1); [finish_block round_up_units|].
        unfold bind at 1. rewrite Hres. destruct res; [|finish_block round_up_units].
        rewrite bind_sys. cbv zeta.
        destruct (rv _ =? MemUnix.MAP_FAILED); [finish_block round_up_units|].
        destruct (has PFlags (MF_EXEC MF)); finish_block round_up_units.
      + rewrite (bind_stop _ _ _ _ _ Hz). finish_block round_up_units.
    - unfold bind at 1. rewrite Hres. destruct res; [|finish_block round_up_units].
      rewrite bind_sys. cbv zeta.
      destruct (rv _ =? MemUnix.MAP_FAILED); [finish_block round_up_units|].
      destruct (has PFlags (MF_EXEC MF)); finish_block round_up_units. }
  intros d [nb|] w r w' Hw; [| apply Hnone; exact Hw].
  destruct d as [|d]; cbn [MemUnix.allocateMappedMemory_rec]; rewrite HN0;
    destruct (PageSize_static_known w Hw) as (w1 & Hrun & Hw1 & _);
    rewrite (bind_run _ _ _ _ _ Hrun);
    unfold MemUnix.InvalidateInstructionCache.
  - destruct (MemUnix.NEED_DEV_ZERO_FOR_MMAP cfg).
    + destruct (MemUnix.zero_fd_static os w1) as [[zf | h] w2] eqn:Hz.
      * rewrite (bind_run _ _ _ _ _ Hz). destruct (zf =? -1); [finish_block round_up_units|].
        unfold bind at 1. rewrite Hres. destruct res; [|finish_block round_up_units].
        rewrite bind_sys. cbv zeta.
        destruct (rv _ =? MemUnix.MAP_FAILED); [finish_block round_up_units|].
        destruct (has PFlags (MF_EXEC MF)); finish_block round_up_units.
      * rewrite (bind_stop _ _ _ _ _ Hz). finish_block round_up_units.
    + unfold bind at 1. rewrite Hres. destruct res; [|finish_block round_up_units].
      rewrite bind_sys. cbv zeta.
      destruct (rv _ =? MemUnix.MAP_FAILED); [finish_block round_up_units|].
      destruct (has PFlags (MF_EXEC MF)); finish_block round_up_units.
  - destruct (MemUnix.NEED_DEV_ZERO_FOR_MMAP cfg).
    + destruct (MemUnix.zero_fd_static os w1) as [[zf | h] w2] eqn:Hz.
      * rewrite (bind_run _ _ _ _ _ Hz).
        pose proof (zero_fd_static_keeps_PageSize _ _ _ Hz) as Hw2.
        destruct (zf =? -1); [finish_block round_up_units|].
        unfold bind at 1. rewrite Hres. destruct res; [|finish_block round_up_units].
        rewrite bind_sys. cbv zeta.
        destruct (rv _ =? MemUnix.MAP_FAILED).
        -- apply Hnone. right. cbn [st_PageSize record]. congruence.
        -- destruct (has PFlags (MF_EXEC MF)); finish_block round_up_units.
      * rewrite (bind_stop _ _ _ _ _ Hz). finish_block round_up_units.
    + unfold bind at 1. rewrite Hres. destruct res; [|finish_block round_up_units].
      rewrite bind_sys. cbv zeta.
      destruct (rv _ =? MemUnix.MAP_FAILED).
      * apply Hnone. right. cbn [st_PageSize record]. exact Hw1.
      * destruct (has PFlags (MF_EXEC MF)); finish_block round_up_units.
Qed.

End PosixRounding.

Lemma align_up_units unit E :
  0 < unit -> 0 < E -> E + unit <= Word.size_mod ->
  aligned_up unit E
    (if negb (Word.to_size_t E =? 0) && negb (Word.to_size_t E mod unit =? 0)
     then Word.to_size_t (Word.to_size_t E + (unit - Word.to_size_t E mod unit))
     else Word.to_size_t E).
Proof.
  intros Hu HE Hb. unfold aligned_up, Word.to_size_t.
  rewrite (Z.mod_small E) by lia.
  destruct (Z.eqb_spec E 0) as [E0 | _]; [lia|]. cbn [negb andb].
  pose proof (Z.mod_pos_bound E unit Hu) as Hm.
  destruct (Z.eqb_spec (E mod unit) 0) as [Em | Em]; cbn [negb].
  - split; [exact Em | lia].
  - rewrite (Z.mod_small (E + (unit - E mod unit))) by lia.
    split; [| lia].
    replace (E + (unit - E mod unit)) with (E - E mod unit + 1 * unit) by lia.
    rewrite Z.mod_add by lia.
    rewrite Zminus_mod_idemp_r, Z.sub_diag. apply Z.mod_0_l. lia.
Qed.

Lemma no_perm_is_covered p : covers p (mkPerm false false false) = true.
Proof. reflexivity. Qed.

Lemma posix_allocate_extends os MF cfg d NumBytes NearBlock PFlags w r w' :
  MemUnix.allocateMappedMemory_rec os MF cfg d NumBytes NearBlock PFlags w = (r, w') ->
  exists l, trace w' = trace w ++ l.
Proof.
  intros H.
  destruct (posix_allocate_grants os MF PFlags (mkPerm false false false)
              (fun _ _ _ _ _ => no_perm_is_covered _)
              cfg d NumBytes NearBlock w r w' H) as (l & Hl & _).
  exists l. exact Hl.
Qed.

Lemma win32_allocate_extends os MF d NumBytes NearBlock Flags w r w' :
  MemWin32.allocateMappedMemory_rec os MF d NumBytes NearBlock Flags w = (r, w') ->
  exists l, trace w' = trace w ++ l.
Proof.
  intros H.
  destruct (win32_allocate_grants os MF Flags (mkPerm false false false)
              (fun _ _ _ _ => no_perm_is_covered _)
              d NumBytes NearBlock w r w' H) as (l & Hl & _).
  exists l. exact Hl.
Qed.

Section PosixAlignment.

Variable os : OS.
Variable MF : ProtectionFlags.
Variable cfg : MemUnix.Config.
Variable ps : Z.
Variable NumBytes : Z.
Variable PFlags : Z.
Variable nb : MemoryBlock.

Hypothesis page_size : forall h e, Word.to_size_t (rv (os h e c_page_size)) = ps.
Hypothesis Hps : 0 < ps.
Hypothesis Hend : 0 < Address nb + Size nb.
Hypothesis Hfit : Address nb + Size nb + ps <= Word.size_mod.

Ltac crunch :=
  repeat (cbv beta iota;
          match goal with
          | |- context [NumBytes =? 0] => destruct (NumBytes =? 0) eqn:?
          | |- context [match st_PageSize ?w with _ => _ end] =>
              destruct (st_PageSize w) eqn:?
          | |- context [MemUnix.NEED_DEV_ZERO_FOR_MMAP cfg] =>
              destruct (MemUnix.NEED_DEV_ZERO_FOR_MMAP cfg) eqn:?
          | |- context [match st_zero_fd ?w with _ => _ end] =>
              destruct (st_zero_fd w) eqn:?
          | |- context [?z =? -1] => destruct (z =? -1) eqn:?
          | H : forall w, MemUnix.getPosixProtectionFlags _ _ _ w = _
            |- context [MemUnix.getPosixProtectionFlags _ _ _ ?w] => rewrite (H w)
          | |- context [match ?res with Ret _ => _ | Stop _ => _ end] =>
              is_var res; destruct res
          | |- context [rv ?x =? MemUnix.MAP_FAILED] =>
              destruct (rv x =? MemUnix.MAP_FAILED) eqn:?
          | |- context [has PFlags (MF_EXEC MF)] =>
              destruct (has PFlags (MF_EXEC MF)) eqn:?
          end;
          cbn [st_PageSize st_zero_fd st_Granularity record
               set_PageSize set_zero_fd set_Granularity]).

Lemma posix_hint_is_aligned d w r w' a rest :
  st_PageSize w = None \/ st_PageSize w = Some ps ->
  MemUnix.allocateMappedMemory_rec os MF cfg d NumBytes (Some nb) PFlags w = (r, w') ->
  map_addresses w w' = a :: rest ->
  aligned_up ps (Address nb + Size nb) a.
Proof.
  intros Hw.
  destruct (posix_translation_pure MF cfg PFlags) as (res & _ & Hres).
  match goal with |- _ -> ?G => set (Concl := G) end.
  destruct d as [|d]; cbn [MemUnix.allocateMappedMemory_rec];
    unfold MemUnix.PageSize_static, MemUnix.zero_fd_static,
      MemUnix.InvalidateInstructionCache;
    run_io; crunch.
  all: intros H; subst Concl.
  all: try match goal with
           | Hk : Some ?z = None \/ Some ?z = Some ps |- _ =>
               assert (z = ps) by (destruct Hk; congruence); subst z
           end.
  all: rewrite ?page_size in *.
  all: first
    [ match type of H with
      | MemUnix.allocateMappedMemory_rec _ _ _ _ _ _ _ ?w1 = (_, ?w2) =>
          destruct (posix_allocate_extends _ _ _ _ _ _ _ _ _ _ H) as (l2 & Hl2);
          erewrite (map_addresses_trans _ w1 w2 _ l2) by (first [log_trace | exact Hl2]);
          log_since; intros E; injection E as <- _;
          apply align_up_units; assumption
      end
    | injection H as <- <-; log_since; intros E;
      first [ discriminate E
            | injection E as <- _; apply align_up_units; assumption ] ].
Qed.

End PosixAlignment.

Section Win32Rounding.

Variable os : OS.
Variable MF : ProtectionFlags.
Variable g : Z.

Hypothesis granularity : forall h e,
  Z.max (out 0 (os h e c_GetSystemInfo)) (out 1 (os h e c_GetSystemInfo)) = g.

Lemma getAllocationGranularity_known w :
  MemWin32.getAllocationGranularity os w
  = (Ret g, record c_GetSystemInfo (err (os (trace w) (errno w) c_GetSystemInfo)) w).
Proof.
  unfold MemWin32.getAllocationGranularity. rewrite bind_sys.
  rewrite <- (granularity (trace w) (errno w)).
  destruct (Z.ltb_spec (out 1 (os (trace w) (errno w) c_GetSystemInfo))
                       (out 0 (os (trace w) (errno w) c_GetSystemInfo)));
    unfold ret; f_equal; f_equal; lia.
Qed.

Lemma Granularity_static_known w :
  st_Granularity w = None \/ st_Granularity w = Some g ->
  exists w', MemWin32.Granularity_static os w = (Ret g, w') /\
             st_Granularity w' = Some g /\
             (w' = w \/
              w' = set_Granularity g
                     (record c_GetSystemInfo
                        (err (os (trace w) (errno w) c_GetSystemInfo)) w)).
Proof.
  intros [H | H]; unfold MemWin32.Granularity_static, static_local; rewrite H.
  - rewrite getAllocationGranularity_known.
    eexists. split; [reflexivity|]. split; [reflexivity|]. right. reflexivity.
  - eexists. split; [reflexivity|]. split; [exact H|]. left. reflexivity.
Qed.

Lemma win32_block_is_rounded NumBytes Flags :
  0 < g -> 0 < NumBytes -> NumBytes + g <= Word.size_mod ->
  forall d NearBlock w r w',
    st_Granularity w = None \/ st_Granularity w = Some g ->
    MemWin32.allocateMappedMemory_rec os MF d NumBytes NearBlock Flags w = (r, w') ->
    forall M ec, r = Ret (M, ec) ->
      M = empty_block \/ (ec = success /\ rounded_up g NumBytes M).
Proof.
  intros Hg HN Hb.
  destruct (win32_translation_pure MF Flags) as (res & _ & Hres).
  assert (HN0 : (NumBytes =? 0) = false) by (apply Z.eqb_neq; lia).
  assert (Hnone : forall d w r w',
            st_Granularity w = None \/ st_Granularity w = Some g ->
            MemWin32.allocateMappedMemory_rec os MF d NumBytes None Flags w = (r, w') ->
            forall M ec, r = Ret (M, ec) ->
              M = empty_block \/ (ec = success /\ rounded_up g NumBytes M)).
  { intros d w r w' Hw.
    rewrite (win32_allocate_no_hint_depth os MF d 0).
    cbn [MemWin32.allocateMappedMemory_rec]. rewrite HN0.
    destruct (Granularity_static_known w Hw) as (w1 & Hrun & Hw1 & _).
    rewrite (bind_run _ _ _ _ _ Hrun).
    unfold MemWin32.InvalidateInstructionCache.
    unfold bind at 1. rewrite Hres. destruct res; [|finish_block round_up_units].
    rewrite bind_sys. cbv zeta.
    destruct (rv _ =? 0); [finish_block round_up_units|].
    destruct (has Flags (MF_EXEC MF)); finish_block round_up_units. }
  intros d [nb|] w r w' Hw; [| apply Hnone; exact Hw].
  destruct d as [|d]; cbn [MemWin32.allocateMappedMemory_rec]; rewrite HN0;
    destruct (Granularity_static_known w Hw) as (w1 & Hrun & Hw1 & _);
    rewrite (bind_run _ _ _ _ _ Hrun);
    unfold MemWin32.InvalidateInstructionCache;
    unfold bind at 1; rewrite Hres; (destruct res; [|finish_block round_up_units]);
    rewrite bind_sys; cbv zeta.
  - destruct (rv _ =? 0); [finish_block round_up_units|].
    destruct (has Flags (MF_EXEC MF)); finish_block round_up_units.
  - destruct (rv _ =? 0).
    + apply Hnone. right. cbn [st_Granularity record]. exact Hw1.
    + destruct (has Flags (MF_EXEC MF)); finish_block round_up_units.
Qed.

Ltac crunch_win32 NumBytes Flags MF :=
  repeat (cbv beta iota;
          match goal with
          | |- context [NumBytes =? 0] => destruct (NumBytes =? 0) eqn:?
          | |- context [match st_Granularity ?w with _ => _ end] =>
              destruct (st_Granularity w) eqn:?
          | |- context [MemWin32.getAllocationGranularity _ ?w] =>
              rewrite (getAllocationGranularity_known w)
          | H : forall w, MemWin32.getWindowsProtectionFlags _ _ w = _
            |- context [MemWin32.getWindowsProtectionFlags _ _ ?w] => rewrite (H w)
          | |- context [match ?res with Ret _ => _ | Stop _ => _ end] =>
              is_var res; destruct res
          | |- context [rv ?x =? 0] => destruct (rv x =? 0) eqn:?
          | |- context [has Flags (MF_EXEC MF)] =>
              destruct (has Flags (MF_EXEC MF)) eqn:?
          end;
          cbn [st_PageSize st_zero_fd st_Granularity record
               set_PageSize set_zero_fd set_Granularity]).

Lemma win32_hint_is_aligned NumBytes Flags nb d w r w' a rest :
  0 < g -> 0 < Address nb + Size nb -> Address nb + Size nb + g <= Word.size_mod ->
  st_Granularity w = None \/ st_Granularity w = Some g ->
  MemWin32.allocateMappedMemory_rec os MF d NumBytes (Some nb) Flags w = (r, w') ->
  map_addresses w w' = a :: rest ->
  aligned_up g (Address nb + Size nb) a.
Proof.
  intros Hg Hend Hfit Hw.
  destruct (win32_translation_pure MF Flags) as (res & _ & Hres).
  match goal with |- _ -> ?G => set (Concl := G) end.
  destruct d as [|d]; cbn [MemWin32.allocateMappedMemory_rec];
    unfold MemWin32.Granularity_static, MemWin32.InvalidateInstructionCache;
    run_io;
    crunch_win32 NumBytes Flags MF.
  all: intros H; subst Concl.
  all: try match goal with
           | Hk : Some ?z = None \/ Some ?z = Some g |- _ =>
               assert (z = g) by (destruct Hk; congruence); subst z
           end.
  all: first
    [ match type of H with
      | MemWin32.allocateMappedMemory_rec _ _ _ _ _ _ ?w1 = (_, ?w2) =>
          destruct (win32_allocate_extends _ _ _ _ _ _ _ _ _ H) as (l2 & Hl2);
          erewrite (map_addresses_trans _ w1 w2 _ l2) by (first [log_trace | exact Hl2]);
          log_since; intros E; injection E as <- _;
          apply align_up_units; assumption
      end
    | injection H as <- <-; log_since; intros E;
      first [ discriminate E
            | injection E as <- _; apply align_up_units; assumption ] ].
Qed.

End Win32Rounding.

(** X4.  A block that [allocateMappedMemory] returns is either empty or
    holds the requested number of bytes rounded up to whole pages (POSIX)
    or whole allocation granules (Win32): its size is a multiple of the
    unit, at least [NumBytes] and less than that plus one unit.  Only
    success returns a block that is not empty.  (For a request that does
    not wrap around [size_t].) *)
Theorem X4_blocks_are_rounded_up_to_whole_pages :
  forall (os : OS) (MF : ProtectionFlags) (cfg : MemUnix.Config) (unit NumBytes : Z)
         (NearBlock : option MemoryBlock) (Flags : Z) (w : World)
         (M : MemoryBlock) (ec : error_code),
    0 < unit -> 0 < NumBytes -> NumBytes + unit <= Word.size_mod ->
    (page_size_is os w unit ->
     result (MemUnix.allocateMappedMemory os MF cfg NumBytes NearBlock Flags w)
       = Ret (M, ec) ->
     M = empty_block \/ (ec = success /\ rounded_up unit NumBytes M))
    /\
    (granularity_is os w unit ->
     result (MemWin32.allocateMappedMemory os MF NumBytes NearBlock Flags w)
       = Ret (M, ec) ->
     M = empty_block \/ (ec = success /\ rounded_up unit NumBytes M)).
Proof.
  intros os MF cfg unit NumBytes NearBlock Flags w M ec Hu HN Hb. split.
  - intros [Hos Hw] H. unfold MemUnix.allocateMappedMemory in H.
    destruct (MemUnix.allocateMappedMemory_rec os MF cfg 1 NumBytes NearBlock Flags w)
      as [r w'] eqn:E.
    exact (posix_block_is_rounded os MF cfg unit Hos NumBytes Flags Hu HN Hb
             1%nat NearBlock w r w' Hw E M ec H).
  - intros [Hos Hw] H. unfold MemWin32.allocateMappedMemory in H.
    destruct (MemWin32.allocateMappedMemory_rec os MF 1 NumBytes NearBlock Flags w)
      as [r w'] eqn:E.
    exact (win32_block_is_rounded os MF unit Hos NumBytes Flags Hu HN Hb
             1%nat NearBlock w r w' Hw E M ec H).
Qed.

Lemma X4_witness :
  0 < 4096 /\ 0 < 100 /\ 100 + 4096 <= Word.size_mod /\
  page_size_is Sample.os_refuses_hints initial 4096 /\
  result (MemUnix.allocateMappedMemory Sample.os_refuses_hints llvm_flags
            Sample.no_dev_zero 100 None Sample.read_write_flags initial)
    = Ret (mkBlock 0x7f0000000000 4096, success) /\
  (mkBlock 0x7f0000000000 4096 = empty_block \/
   (success = success /\ rounded_up 4096 100 (mkBlock 0x7f0000000000 4096))).
Proof.
  assert (Hp : page_size_is Sample.os_refuses_hints initial 4096)
    by (split; [intros h e; reflexivity | left; reflexivity]).
  split; [reflexivity|]. split; [reflexivity|]. split; [discriminate|].
  split; [exact Hp|]. split; [reflexivity|].
  exact (proj1 (X4_blocks_are_rounded_up_to_whole_pages
                  Sample.os_refuses_hints llvm_flags Sample.no_dev_zero 4096 100
                  None Sample.read_write_flags initial
                  (mkBlock 0x7f0000000000 4096) success
                  eq_refl eq_refl ltac:(discriminate)) Hp eq_refl).
Defined.

(** X5.  The address a request with a placement hint first asks the
    system for is the end of [NearBlock] rounded up to the next page
    (POSIX) or allocation granule (Win32) boundary: it is aligned, it is
    not inside [NearBlock], and it is less than one unit beyond its end.
    (For a block that ends above address 0 and below the top of the
    address space.) *)
Theorem X5_hinted_address_is_aligned_past_the_block :
  forall (os : OS) (MF : ProtectionFlags) (cfg : MemUnix.Config) (unit NumBytes : Z)
         (NearBlock : MemoryBlock) (Flags : Z) (w : World) (a : Z) (rest : list Z),
    0 < unit -> 0 < Address NearBlock + Size NearBlock ->
    Address NearBlock + Size NearBlock + unit <= Word.size_mod ->
    (page_size_is os w unit ->
     forall r w',
       MemUnix.allocateMappedMemory os MF cfg NumBytes (Some NearBlock) Flags w = (r, w') ->
       map_addresses w w' = a :: rest ->
       aligned_up unit (Address NearBlock + Size NearBlock) a)
    /\
    (granularity_is os w unit ->
     forall r w',
       MemWin32.allocateMappedMemory os MF NumBytes (Some NearBlock) Flags w = (r, w') ->
       map_addresses w w' = a :: rest ->
       aligned_up unit (Address NearBlock + Size NearBlock) a).
Proof.
  intros os MF cfg unit NumBytes nb Flags w a rest Hu He Hb. split.
  - intros [Hos Hw] r w' H Hm.
    exact (posix_hint_is_aligned os MF cfg unit NumBytes Flags nb Hos Hu He Hb
             1%nat w r w' a rest Hw H Hm).
  - intros [Hos Hw] r w' H Hm.
    exact (win32_hint_is_aligned os MF unit Hos NumBytes Flags nb
             1%nat w r w' a rest Hu He Hb Hw H Hm).
Qed.

Lemma X5_witness :
  0 < 4096 /\ 0 < 4096 + 100 /\ 4096 + 100 + 4096 <= Word.size_mod /\
  page_size_is Sample.os_refuses_hints initial 4096 /\
  map_addresses initial
    (snd (MemUnix.allocateMappedMemory Sample.os_refuses_hints llvm_flags
            Sample.no_dev_zero 100 (Some (mkBlock 4096 100))
            Sample.read_write_flags initial)) = [8192; 0] /\
  aligned_up 4096 (4096 + 100) 8192.
Proof.
  assert (Hp : page_size_is Sample.os_refuses_hints initial 4096)
    by (split; [intros h e; reflexivity | left; reflexivity]).
  split; [reflexivity|]. split; [reflexivity|]. split; [discriminate|].
  split; [exact Hp|]. split; [reflexivity|].
  exact (proj1 (X5_hinted_address_is_aligned_past_the_block
                  Sample.os_refuses_hints llvm_flags Sample.no_dev_zero 4096 100
                  (mkBlock 4096 100) Sample.read_write_flags initial 8192 [0]
                  eq_refl eq_refl ltac:(discriminate)) Hp _ _ eq_refl eq_refl).
Defined.

(** ** Exit codes on Win32 *)

Lemma bit31_set status :
  0 <= status < 2 ^ 32 ->
  Z.land status 0xBFFF0000 = 0x80000000 -> 2 ^ 31 <= status.
Proof.
  intros Hr H.
  assert (Hb : Z.testbit status 31 = true).
  { assert (Hl : Z.testbit (Z.land status 0xBFFF0000) 31 = true) by (rewrite H; reflexivity).
    rewrite Z.land_spec in Hl. apply andb_true_iff in Hl. apply Hl. }
  rewrite Z.testbit_true in Hb by lia.
  change (2 ^ 32) with 4294967296 in Hr. change (2 ^ 31) with 2147483648 in *.
  Z.div_mod_to_equations. lia.
Qed.

Lemma low_byte_survives status :
  Z.land status 0xFF <> 0 -> 0 <= status -> 0 < Z.land status 0x7FFFFFFF.
Proof.
  intros Hb Hs.
  assert (H0 : 0 <= Z.land status 0x7FFFFFFF) by (apply Z.land_nonneg; left; exact Hs).
  assert (Hn : Z.land status 0x7FFFFFFF <> 0).
  { intros E. apply Hb.
    change 0xFF with (Z.land 0x7FFFFFFF 0xFF).
    rewrite Z.land_assoc, E. reflexivity. }
  lia.
Qed.

(** X8.  On Win32, when the wait does not time out and the system
    hands out the exit code of the process, [WaitAux] returns 0 exactly
    when that code is 0, and never one of the values -1 and -2 that
    stand for a failure to execute and for a crash or timeout; the
    message is left alone. *)
Theorem X8_win32_exit_code_is_never_taken_for_a_failure :
  forall (os : OS) (FormatMessage : Z -> string) (wpi : ProcWin32.Win32ProcessInfo)
         (secondsToWait status : Z) (ErrMsg : option string) (w : World),
    (forall h e ms, rv (os h e (c_WaitForSingleObject (ProcWin32.hProcess wpi) ms))
                    <> ProcWin32.WAIT_TIMEOUT) ->
    (forall h e, rv (os h e (c_GetExitCodeProcess (ProcWin32.hProcess wpi))) <> 0 /\
                 out 0 (os h e (c_GetExitCodeProcess (ProcWin32.hProcess wpi))) = status) ->
    0 <= status < 2 ^ 32 ->
    exists v,
      result (ProcWin32.WaitAux os FormatMessage wpi secondsToWait ErrMsg w)
        = Ret (v, ErrMsg) /\
      (v = 0 <-> status = 0) /\ v <> -1 /\ v <> -2.
Proof.
  intros os FM wpi secs status ErrMsg w Hwait Hexit Hs.
  unfold ProcWin32.WaitAux. rewrite bind_sys.
  match goal with
  | |- context [rv (os ?h ?e (c_WaitForSingleObject ?p ?ms)) =? _] =>
      pose proof (Hwait h e ms) as Hw; apply Z.eqb_neq in Hw; rewrite Hw
  end.
  rewrite bind_sys, bind_get_errno.
  match goal with
  | |- context [rv (os ?h ?e (c_GetExitCodeProcess ?p)) =? 0] =>
      destruct (Hexit h e) as [Hrc Hst]; apply Z.eqb_neq in Hrc; rewrite Hrc, Hst
  end.
  destruct (Z.eqb_spec status 0) as [E0 | E0].
  { exists 0. split; [reflexivity|]. split; [tauto|]. split; discriminate. }
  destruct (Z.eqb_spec (Z.land status 0xBFFF0000) 0x80000000) as [Eh | Eh].
  { exists (Word.to_int status). split; [reflexivity|].
    pose proof (bit31_set status Hs Eh) as Hb.
    assert (Hi : Word.to_int status = status - 2 ^ 32).
    { unfold Word.to_int. change (2 ^ 32) with 4294967296 in *.
      change (2 ^ 31) with 2147483648 in *. Z.div_mod_to_equations. lia. }
    rewrite Hi. change (2 ^ 32) with 4294967296 in *.
    change (2 ^ 31) with 2147483648 in *.
    split; [split; intros; lia|].
    split; intros E.
    - assert (Hx : status = 4294967295) by lia. rewrite Hx in Eh. discriminate Eh.
    - assert (Hx : status = 4294967294) by lia. rewrite Hx in Eh. discriminate Eh. }
  destruct (Z.eqb_spec (Z.land status 0xFF) 0) as [Eb | Eb]; cbn [negb].
  { exists 1. split; [reflexivity|]. split; [split; intros; [discriminate | contradiction]|].
    split; discriminate. }
  exists (Z.land status 0x7FFFFFFF). split; [reflexivity|].
  pose proof (low_byte_survives status Eb (proj1 Hs)) as Hp.
  split; [split; intros; [lia | contradiction]|]. split; lia.
Qed.

Lemma X8_witness :
  (forall h e ms, rv (SampleProc2.os_exit_code 259 h e (c_WaitForSingleObject 77 ms))
                  <> ProcWin32.WAIT_TIMEOUT) /\
  (forall h e, rv (SampleProc2.os_exit_code 259 h e (c_GetExitCodeProcess 77)) <> 0 /\
               out 0 (SampleProc2.os_exit_code 259 h e (c_GetExitCodeProcess 77)) = 259) /\
  0 <= 259 < 2 ^ 32 /\
  exists v,
    result (ProcWin32.WaitAux (SampleProc2.os_exit_code 259) SampleProc.sample_FormatMessage
              (ProcWin32.mkWPI 77 4321) 0 None initial) = Ret (v, None) /\
    (v = 0 <-> 259 = 0) /\ v <> -1 /\ v <> -2.
Proof.
  assert (H1 : forall h e ms, rv (SampleProc2.os_exit_code 259 h e (c_WaitForSingleObject 77 ms))
                              <> ProcWin32.WAIT_TIMEOUT) by (intros; discriminate).
  assert (H2 : forall h e,
             rv (SampleProc2.os_exit_code 259 h e (c_GetExitCodeProcess 77)) <> 0 /\
             out 0 (SampleProc2.os_exit_code 259 h e (c_GetExitCodeProcess 77)) = 259)
    by (intros; split; [discriminate | reflexivity]).
  assert (H3 : 0 <= 259 < 2 ^ 32) by (split; [discriminate | reflexivity]).
  split; [exact H1|]. split; [exact H2|]. split; [exact H3|].
  exact (X8_win32_exit_code_is_never_taken_for_a_failure
           (SampleProc2.os_exit_code 259) SampleProc.sample_FormatMessage
           (ProcWin32.mkWPI 77 4321) 0 259 None initial H1 H2 H3).
Defined.

(** ** The forked child *)

Lemma returns_ret {A} (a : A) : returns (ret a).
Proof. intros w. exists a, w. reflexivity. Qed.

Lemma returns_get_errno : returns get_errno.
Proof. intros w. eexists _, _. reflexivity. Qed.

Lemma returns_sys os c : returns (sys os c).
Proof. intros w. eexists _, _. reflexivity. Qed.

Lemma returns_bind {A B} (m : IO A) (k : A -> IO B) :
  returns m -> (forall a, returns (k a)) -> returns (bind m k).
Proof.
  intros Hm Hk w. destruct (Hm w) as (a & w1 & E).
  destruct (Hk a w1) as (b & w2 & E2).
  exists b, w2. rewrite (bind_run _ _ _ _ _ E). exact E2.
Qed.

Ltac step_returns :=
  repeat first
    [ apply returns_ret
    | apply returns_get_errno
    | apply returns_sys
    | apply returns_bind; [| intros ?]
    | match goal with
      | |- returns (if ?b then _ else _) => destruct b
      | |- returns (match ?x with _ => _ end) => destruct x
      end ].

Lemma results_ret {A} (Q : Res A -> Prop) (a : A) : Q (Ret a) -> results Q (ret a).
Proof. intros H w r w' E. injection E as <- <-. exact H. Qed.

Lemma results_halt {A} (Q : Res A -> Prop) h : Q (Stop h) -> results Q (@halt A h).
Proof. intros H w r w' E. injection E as <- <-. exact H. Qed.

Lemma results_bind {A B} (Q : Res B -> Prop) (m : IO A) (k : A -> IO B) :
  returns m -> (forall a, results Q (k a)) -> results Q (bind m k).
Proof.
  intros Hm Hk w r w' E. destruct (Hm w) as (a & w1 & E1).
  rewrite (bind_run _ _ _ _ _ E1) in E. exact (Hk a _ _ _ E).
Qed.

Section Child.

Variable os : OS.
Variable P : ProcUnix.Platform.

Lemma MakeErrMsg_returns ErrMsg prefix errnum :
  returns (ProcUnix.MakeErrMsg P ErrMsg prefix errnum).
Proof. unfold ProcUnix.MakeErrMsg. step_returns. Qed.

Lemma RedirectIO_returns Path FD ErrMsg :
  returns (ProcUnix.RedirectIO os P Path FD ErrMsg).
Proof.
  unfold ProcUnix.RedirectIO. destruct Path; [| apply returns_ret].
  repeat first [ apply MakeErrMsg_returns | step_returns ].
Qed.

Lemma SetMemoryLimits_returns size : returns (ProcUnix.SetMemoryLimits os P size).
Proof. unfold ProcUnix.SetMemoryLimits. step_returns. Qed.

Ltac step_child :=
  repeat first
    [ apply results_ret; reflexivity
    | match goal with
      | |- results _ (halt (Exited (if ?b then _ else _))) => destruct b
      end
    | apply results_halt; cbn; first [exact I | left; reflexivity | right; reflexivity]
    | apply results_bind;
      [ repeat first [ apply RedirectIO_returns | apply MakeErrMsg_returns
                     | apply SetMemoryLimits_returns | progress step_returns ]
      | intros ? ]
    | match goal with
      | |- results _ (if ?b then _ else _) => destruct b
      | |- results _ (match ?x with _ => _ end) => destruct x
      end ].

Lemma child_part_outcome Data Program args envp redirects memoryLimit ErrMsg w :
  rv (os (trace w) (errno w) c_fork) = 0 ->
  child_outcome
    (result (ProcUnix.Execute_fork os P Data Program args envp redirects
               memoryLimit ErrMsg w)).
Proof.
  intros Hfork. unfold ProcUnix.Execute_fork. rewrite bind_sys, Hfork.
  cbn [Z.eqb].
  match goal with
  | |- child_outcome (result (?m ?w1)) =>
      assert (Hm : results child_outcome m);
      [| destruct (m w1) as [r w'] eqn:E; exact (Hm _ _ _ E) ]
  end.
  step_child.
Qed.

End Child.

(** X9.  In the child that fork creates, [Execute] never reports
    success.  Either a redirection fails and it returns false, or the
    program takes the process over, or exec fails and the child leaves
    through [_exit] with 127 or 126, the two codes [Wait] reads as a
    program that could not be run. *)
Theorem X9_forked_child_never_reports_success :
  forall (os : OS) (P : ProcUnix.Platform) (Data : option Z) (Program : string)
         (args : list string) (envp : option (list string))
         (redirects : ProcUnix.Redirects) (memoryLimit : Z)
         (ErrMsg : option string) (w : World),
    rv (os (trace w) (errno w) c_fork) = 0 ->
    child_outcome
      (result (ProcUnix.Execute_fork os P Data Program args envp redirects
                 memoryLimit ErrMsg w)).
Proof. intros. apply child_part_outcome. assumption. Qed.

Lemma X9_witness :
  rv (SampleChild.os_in_child (trace initial) (errno initial) c_fork) = 0 /\
  result (ProcUnix.Execute_fork SampleChild.os_in_child (SampleProc.linux false) None
            "/bin/true" ["true"] None (Some (None, Some "out.log", Some "out.log")) 0
            None initial) = Stop Execd /\
  child_outcome
    (result (ProcUnix.Execute_fork SampleChild.os_in_child (SampleProc.linux false) None
               "/bin/true" ["true"] None (Some (None, Some "out.log", Some "out.log")) 0
               None initial)).
Proof.
  split; [reflexivity|]. split; [reflexivity|].
  exact (X9_forked_child_never_reports_success
           SampleChild.os_in_child (SampleProc.linux false) None
           "/bin/true" ["true"] None (Some (None, Some "out.log", Some "out.log")) 0
           None initial eq_refl).
Defined.

(** X10.  [RedirectIO] of the POSIX backend does not leak the
    descriptor it opens: when open succeeds, the descriptor is installed
    with dup2 and then closed, once, whether dup2 succeeds or not; when
    open fails nothing else is called. *)
Theorem X10_redirection_closes_the_descriptor_it_opens :
  forall (os : OS) (P : ProcUnix.Platform) (path : string) (FD : Z)
         (ErrMsg : option string) (w : World),
    let File := if ProcUnix.is_empty path then "/dev/null" else path in
    let opening := c_open File (if FD =? 0 then ProcUnix.O_RDONLY
                                else Z.lor ProcUnix.O_WRONLY ProcUnix.O_CREAT)
                          ProcUnix.mode_0666 in
    let InFD := rv (os (trace w) (errno w) opening) in
    since w (snd (ProcUnix.RedirectIO os P (Some path) FD ErrMsg w))
    = if InFD =? -1 then [opening]
      else [opening; c_dup2 InFD FD; c_close InFD].
Proof.
  intros os P path FD ErrMsg w File opening InFD.
  unfold ProcUnix.RedirectIO. fold File. rewrite bind_sys. fold opening. fold InFD.
  unfold ProcUnix.MakeErrMsg. change (-1 =? -1) with true. cbv iota.
  destruct (InFD =? -1).
  - destruct ErrMsg; unfold bind, get_errno, ret; cbn [snd];
      apply since_app; reflexivity.
  - rewrite bind_sys.
    match goal with |- context [rv ?x =? -1] => destruct (rv x =? -1) end.
    + destruct ErrMsg; unfold bind, get_errno, ret, sys; cbn [snd];
        apply since_app; cbn [trace record]; rewrite <- !app_assoc; reflexivity.
    + unfold bind, get_errno, ret, sys; cbn [snd]; apply since_app;
        cbn [trace record]; rewrite <- !app_assoc; reflexivity.
Qed.

(** ** Permission sets that have no translation *)

Lemma lor_nonzero a b : a <> 0 -> Z.lor a b <> 0.
Proof. intros Ha E. apply Z.lor_eq_0_iff in E. destruct E. contradiction. Qed.

(** X11.  Re-protecting a block with the empty permission set: the
    POSIX backend refuses with EINVAL, in the generic category, and calls
    nothing; the Win32 backend has no such test, finds no translation for
    the flags and stops the process in [FatalError::Die]. *)
Theorem X11_protecting_with_no_permission :
  forall (os : OS) (MF : ProtectionFlags) (cfg : MemUnix.Config)
         (M : MemoryBlock) (w : World),
    independent MF -> Address M <> 0 -> Size M <> 0 ->
    MemUnix.protectMappedMemory os MF cfg M 0 w
      = (Ret (mkEC MemUnix.EINVAL generic_category), w) /\
    MemWin32.protectMappedMemory os MF M 0 w
      = (Stop (Died "Illegal memory protection flag specified!"), w).
Proof.
  intros os MF cfg M w (Hr & Hw & Hx & _) HA HS.
  apply Z.eqb_neq in HA, HS. split.
  - unfold MemUnix.protectMappedMemory. rewrite HA, HS. reflexivity.
  - unfold MemWin32.protectMappedMemory, MemWin32.getWindowsProtectionFlags.
    rewrite HA, HS. cbn [orb].
    repeat match goal with
           | |- context [0 =? ?x] =>
               let E := fresh in
               destruct (Z.eqb_spec 0 x) as [E | _];
               [ exfalso; symmetry in E; revert E;
                 first [ assumption | apply lor_nonzero; first [assumption | apply lor_nonzero; assumption] ]
               | ]
           end.
    reflexivity.
Qed.

Lemma X11_witness :
  independent llvm_flags /\ 4096 <> 0 /\ 8192 <> 0 /\
  MemUnix.protectMappedMemory Sample.os_zero llvm_flags Sample.no_dev_zero
    (mkBlock 4096 8192) 0 initial
  = (Ret (mkEC MemUnix.EINVAL generic_category), initial) /\
  MemWin32.protectMappedMemory Sample.os_zero llvm_flags (mkBlock 4096 8192) 0 initial
  = (Stop (Died "Illegal memory protection flag specified!"), initial).
Proof.
  split; [exact llvm_flags_independent|]. split; [discriminate|]. split; [discriminate|].
  exact (X11_protecting_with_no_permission Sample.os_zero llvm_flags Sample.no_dev_zero
           (mkBlock 4096 8192) initial llvm_flags_independent
           ltac:(discriminate) ltac:(discriminate)).
Defined.

(** ** Execute and Wait together *)

Section ExecuteThenWait.

Variable os : OS.
Variable P : ProcUnix.Platform.

Ltac no_wait := first [ reflexivity | exact I ].

Lemma MakeErrMsg_calls (Q : Call -> Prop) ErrMsg prefix errnum :
  all_calls Q (ProcUnix.MakeErrMsg P ErrMsg prefix errnum).
Proof. unfold ProcUnix.MakeErrMsg. step_calls. Qed.

Lemma Execute_does_not_wait Data Program args envp redirects memoryLimit ErrMsg :
  all_calls (fun c => waits_for_child c = false)
    (ProcUnix.Execute os P Data Program args envp redirects memoryLimit ErrMsg).
Proof.
  unfold ProcUnix.Execute, ProcUnix.Execute_fork, ProcUnix.Execute_posix_spawn,
    ProcUnix.RedirectIO, ProcUnix.RedirectIO_PS, ProcUnix.SetMemoryLimits.
  repeat first [ apply MakeErrMsg_calls | progress step_calls | reflexivity ].
Qed.

End ExecuteThenWait.

(** X12.  How [ExecuteAndWait] sets [ExecutionFailed] on the POSIX
    backend.  The flag is true only when [Execute] returned false: the
    result is then -1 and nothing has waited for a child.  When [Execute]
    returned true the flag is false, also when the wait then finds that
    the child ended with exit code 126 and the result is -1 all the
    same, with the message "Program could not be executed". *)
Theorem X12_execution_failed_flag :
  forall (os : OS) (P : ProcUnix.Platform) (fuel : nat) (Program : string)
         (args : list string) (envp : option (list string))
         (redirects : ProcUnix.Redirects) (secondsToWait memoryLimit : Z)
         (ErrMsg : option string) (w : World),
    (forall v E w',
        ProcUnix.ExecuteAndWait os P fuel Program args envp redirects
          secondsToWait memoryLimit ErrMsg w = (Ret (v, E, true), w') ->
        v = -1 /\ Forall (fun c => waits_for_child c = false) (since w w'))
    /\
    (forall pid E w1 status,
        ProcUnix.HAVE_SYS_WAIT_H P = true ->
        ProcUnix.Execute os P (Some 0) Program args envp redirects memoryLimit ErrMsg w
          = (Ret (true, Some pid, E), w1) ->
        pid <> 0 ->
        child_has_ended os (Word.to_int pid) status ->
        ProcUnix.WIFEXITED P status = true ->
        ProcUnix.WEXITSTATUS P status = 126 ->
        result (ProcUnix.ExecuteAndWait os P (S fuel) Program args envp redirects
                  secondsToWait memoryLimit ErrMsg w)
        = Ret (-1, said E "Program could not be executed", false)).
Proof.
  intros os P fuel Program args envp redirects secondsToWait memoryLimit ErrMsg w.
  split.
  - intros v E w'. unfold ProcUnix.ExecuteAndWait. unfold bind at 1.
    destruct (ProcUnix.Execute os P (Some 0) Program args envp redirects memoryLimit ErrMsg w)
      as [[[[ok Data] E0] | h] w1] eqn:Hx; [| discriminate].
    destruct ok.
    + unfold bind.
      destruct (ProcUnix.Wait _ _ _ _ _ _ _ _) as [[[? ?]|?] ?]; discriminate.
    + unfold ret. intros H. injection H as <- <- <-. split; [reflexivity|].
      exact (all_calls_since _ _ _ _ _
               (Execute_does_not_wait os P _ _ _ _ _ _ _) Hx).
  - intros pid E w1 status Hw Hx Hpid Hc He H126.
    unfold ProcUnix.ExecuteAndWait. rewrite (bind_run _ _ _ _ _ Hx).
    destruct (Wait_decodes os P Program status E fuel pid secondsToWait w1 Hw Hpid Hc)
      as (w2 & HW).
    unfold bind. rewrite HW, decode_exit_126 by assumption. reflexivity.
Qed.

Lemma X12_witness :
  ProcUnix.HAVE_SYS_WAIT_H (SampleProc.linux true) = true /\
  ProcUnix.Execute (SampleProc2.os_spawned_then_ended 4321 (SampleProc.exited 126))
    (SampleProc.linux true) (Some 0) "/usr/bin/tool" ["tool"] None None 0 (Some EmptyString)
    initial
  = (Ret (true, Some 4321, Some EmptyString),
     record (c_posix_spawn "/usr/bin/tool" None ["tool"] None) 0 initial) /\
  4321 <> 0 /\
  child_has_ended (SampleProc2.os_spawned_then_ended 4321 (SampleProc.exited 126))
    (Word.to_int 4321) (SampleProc.exited 126) /\
  result (ProcUnix.ExecuteAndWait
            (SampleProc2.os_spawned_then_ended 4321 (SampleProc.exited 126))
            (SampleProc.linux true) 1 "/usr/bin/tool" ["tool"] None None 0 0
            (Some EmptyString) initial)
  = Ret (-1, Some "Program could not be executed", false).
Proof.
  assert (Hc : child_has_ended
                 (SampleProc2.os_spawned_then_ended 4321 (SampleProc.exited 126))
                 (Word.to_int 4321) (SampleProc.exited 126))
    by (intros h e; split; reflexivity).
  split; [reflexivity|]. split; [reflexivity|]. split; [discriminate|].
  split; [exact Hc|].
  exact (proj2 (X12_execution_failed_flag
                  (SampleProc2.os_spawned_then_ended 4321 (SampleProc.exited 126))
                  (SampleProc.linux true) 0 "/usr/bin/tool" ["tool"] None None 0 0
                  (Some EmptyString) initial)
           4321 (Some EmptyString) _ (SampleProc.exited 126)
           eq_refl eq_refl ltac:(discriminate) Hc eq_refl eq_refl).
Defined.

(** ** The timer of Wait *)

Section WaitTimer.

Variable os : OS.
Variable P : ProcUnix.Platform.

Lemma timer_untouched l :
  Forall (fun c => forall st, timer_step st c = st) l ->
  forall st, timer_after st l = st.
Proof.
  unfold timer_after. induction 1 as [|c l Hc _ IH]; intros st; [reflexivity|].
  cbn [fold_left]. now rewrite Hc.
Qed.

Lemma decode_status_keeps_timer Program status ErrMsg :
  all_calls (fun c => forall st, timer_step st c = st)
    (ProcUnix.decode_status os P Program status ErrMsg).
Proof.
  unfold ProcUnix.decode_status, ProcUnix.fs_exists.
  repeat first [ progress step_calls | reflexivity ].
Qed.

Lemma MakeErrMsg_run ErrMsg prefix errnum w :
  ProcUnix.MakeErrMsg P ErrMsg prefix errnum w
  = (Ret (true, said ErrMsg (prefix ++ ": "
                             ++ ProcUnix.StrError P (if (errnum =? -1)%Z then errno w
                                                     else errnum))%string), w).
Proof.
  unfold ProcUnix.MakeErrMsg, said.
  destruct ErrMsg; [| reflexivity]. destruct (errnum =? -1); reflexivity.
Qed.

Variable child secondsToWait Old : Z.
Variable ErrMsg : option string.
Hypothesis timed : secondsToWait <> 0.

Lemma Wait_loop_timer fuel : forall w l w',
  ProcUnix.Wait_loop os P fuel child secondsToWait Old ErrMsg w = (Ret l, w') ->
  exists tr, trace w' = trace w ++ tr /\
    match l with
    | ProcUnix.Reaped _ => forall st, timer_after st tr = st
    | ProcUnix.Return code E =>
        (forall st, timer_after st tr = (0, Old)) \/
        ((forall st, timer_after st tr = st) /\ code = -1 /\
         exists e, e <> ProcUnix.EINTR /\
           E = said ErrMsg ("Error waiting for child process: "
                            ++ ProcUnix.StrError P e)%string)
    end.
Proof.
  destruct fuel as [|fuel]; intros w l w' H; [discriminate|].
  cbn [ProcUnix.Wait_loop] in H. rewrite bind_sys in H.
  set (r := os (trace w) (errno w) (c_waitpid child 0)) in *.
  destruct (rv r =? child).
  - injection H as <- <-. exists [c_waitpid child 0]. split; [reflexivity|].
    intros st. reflexivity.
  - rewrite bind_get_errno in H. cbn [errno record] in H.
    apply Z.eqb_neq in timed. rewrite timed in H. cbn [negb andb] in H.
    destruct (err r =? ProcUnix.EINTR) eqn:He.
    + rewrite !bind_sys in H.
      match type of H with
      | context [if ?b then _ else _] => destruct b
      end;
        unfold bind in H; rewrite MakeErrMsg_run in H; injection H as <- <-;
        (eexists; split; [log_trace | left; intros [a h]; reflexivity]).
    + cbn [negb] in H. unfold bind in H. rewrite MakeErrMsg_run in H.
      injection H as <- <-.
      exists [c_waitpid child 0]. split; [reflexivity|]. right.
      split; [intros st; reflexivity|]. split; [reflexivity|].
      exists (err r). split; [now apply Z.eqb_neq | reflexivity].
Qed.

End WaitTimer.

(** X13.  [Wait] with a timeout, on the POSIX backend, arms an alarm and
    installs its own SIGALRM handler.  Whenever it returns it has
    cancelled the alarm and put back the handler that sigaction reported,
    with one exception: when waitpid fails with an error other than
    EINTR it returns -1, "Error waiting for child process", and leaves
    the alarm armed and its own handler installed. *)
Theorem X13_wait_restores_the_alarm_except_on_a_wait_error :
  forall (os : OS) (P : ProcUnix.Platform) (fuel : nat) (Data : Z) (Program : string)
         (secondsToWait : Z) (ErrMsg : option string) (w w' : World)
         (v : Z) (E : option string) (st : Z * Z),
    ProcUnix.HAVE_SYS_WAIT_H P = true ->
    secondsToWait <> 0 ->
    ProcUnix.Wait os P fuel Data Program secondsToWait ErrMsg w = (Ret (v, E), w') ->
    let Old := out 0 (os (trace w) (errno w)
                         (c_sigaction ProcUnix.SIGALRM ProcUnix.TimeOutHandler)) in
    timer_after st (since w w') = (0, Old)
    \/ (timer_after st (since w w') = (secondsToWait, ProcUnix.TimeOutHandler)
        /\ v = -1
        /\ exists e, e <> ProcUnix.EINTR /\
             E = said ErrMsg ("Error waiting for child process: "
                              ++ ProcUnix.StrError P e)%string).
Proof.
  intros os P fuel Data Program s ErrMsg w w' v E st HP Hs H Old.
  unfold ProcUnix.Wait in H. rewrite HP in H. cbn [negb] in H.
  destruct (Data =? 0); [discriminate|].
  pose proof Hs as Hs'. apply Z.eqb_neq in Hs'. rewrite Hs' in H. cbn [negb] in H.
  rewrite bind_assoc, bind_sys, bind_assoc, bind_sys, bind_ret in H. fold Old in H.
  match type of H with
  | bind _ _ ?w0 = _ => set (w1 := w0) in *
  end.
  unfold bind at 1 in H.
  destruct (ProcUnix.Wait_loop os P fuel (Word.to_int Data) s Old ErrMsg w1)
    as [[l|h] w2] eqn:Hl; [| discriminate].
  destruct (Wait_loop_timer os P (Word.to_int Data) s Old ErrMsg Hs fuel _ _ _ Hl)
    as (tr & Htr & Hpost).
  assert (H1 : trace w1 = trace w ++ [c_sigaction ProcUnix.SIGALRM ProcUnix.TimeOutHandler;
                                      c_alarm s]).
  { subst w1. cbn [trace record]. now rewrite <- app_assoc. }
  destruct l as [status | code E0].
  - rewrite bind_assoc, bind_sys, bind_assoc, bind_sys, !bind_ret in H.
    match type of H with
    | _ ?w0 = _ => set (w3 := w0) in *
    end.
    destruct (decode_status_keeps_timer os P Program status ErrMsg w3 _ _ H)
      as (l0 & Hl0 & Hd).
    assert (H3 : trace w' = trace w ++
                 (([c_sigaction ProcUnix.SIGALRM ProcUnix.TimeOutHandler; c_alarm s]
                   ++ tr ++ [c_alarm 0; c_sigaction ProcUnix.SIGALRM Old]) ++ l0)).
    { rewrite Hl0. subst w3. cbn [trace record]. rewrite Htr, H1.
      now rewrite <- !app_assoc. }
    left. rewrite (since_app _ _ _ H3).
    unfold timer_after. rewrite fold_left_app.
    fold (timer_after (fold_left timer_step
                         ([c_sigaction ProcUnix.SIGALRM ProcUnix.TimeOutHandler; c_alarm s]
                          ++ tr ++ [c_alarm 0; c_sigaction ProcUnix.SIGALRM Old]) st) l0).
    rewrite (timer_untouched _ Hd).
    rewrite !fold_left_app.
    cbn [fold_left timer_step fst snd].
    change (ProcUnix.SIGALRM =? ProcUnix.SIGALRM) with true. reflexivity.
  - unfold ret in H. injection H as <- <- <-.
    assert (H2 : trace w2 = trace w ++
                 ([c_sigaction ProcUnix.SIGALRM ProcUnix.TimeOutHandler; c_alarm s] ++ tr)).
    { rewrite Htr, H1. now rewrite <- app_assoc. }
    rewrite (since_app _ _ _ H2).
    unfold timer_after in *. rewrite fold_left_app.
    destruct Hpost as [Hoff | (Hsame & Hcode & e & He & HE)].
    + left. apply Hoff.
    + right. rewrite Hsame. cbn [fold_left timer_step fst snd].
      change (ProcUnix.SIGALRM =? ProcUnix.SIGALRM) with true.
      split; [reflexivity|]. split; [exact Hcode|]. exists e. now split.
Qed.

Lemma X13_witness :
  ProcUnix.HAVE_SYS_WAIT_H (SampleProc.linux false) = true /\ 5 <> 0 /\
  ProcUnix.Wait (SampleProc3.os_no_such_child 77) (SampleProc.linux false) 3 4321
    "tool" 5 (Some EmptyString) initial
  = (Ret (-1, Some ("Error waiting for child process: "
                    ++ ProcUnix.StrError (SampleProc.linux false) 10)%string),
     record (c_waitpid 4321 0) 10
       (record (c_alarm 5) 0
          (record (c_sigaction ProcUnix.SIGALRM ProcUnix.TimeOutHandler) 0 initial))) /\
  timer_after (0, 77)
    (since initial
       (record (c_waitpid 4321 0) 10
          (record (c_alarm 5) 0
             (record (c_sigaction ProcUnix.SIGALRM ProcUnix.TimeOutHandler) 0 initial))))
  = (5, ProcUnix.TimeOutHandler).
Proof.
  split; [reflexivity|]. split; [discriminate|]. split; [reflexivity|].
  destruct (X13_wait_restores_the_alarm_except_on_a_wait_error
              (SampleProc3.os_no_such_child 77) (SampleProc.linux false) 3 4321
              "tool" 5 (Some EmptyString) initial _ _ _ (0, 77)
              eq_refl ltac:(discriminate) eq_refl) as [H | (H & _)].
  - vm_compute in H. discriminate H.
  - exact H.
Defined.

(** ** Wait without a timeout *)

Section PlainWait.

Variable os : OS.
Variable P : ProcUnix.Platform.
Variable Program : string.
Variable child : Z.

Lemma Wait_loop_plain Old ErrMsg fuel :
  all_calls (plain_wait_call child Program)
    (ProcUnix.Wait_loop os P fuel child 0 Old ErrMsg).
Proof.
  induction fuel as [|fuel IH]; cbn [ProcUnix.Wait_loop]; [apply all_calls_halt|].
  change (negb (0 =? 0)) with false. cbn [andb].
  unfold ProcUnix.MakeErrMsg.
  repeat first [ exact IH | progress step_calls | now left ].
Qed.

Lemma decode_status_plain status ErrMsg :
  all_calls (plain_wait_call child Program)
    (ProcUnix.decode_status os P Program status ErrMsg).
Proof.
  unfold ProcUnix.decode_status, ProcUnix.fs_exists.
  repeat first [ progress step_calls | now right ].
Qed.

End PlainWait.

(** X14.  [Wait] without a timeout ([secondsToWait] = 0), on the POSIX
    backend, only ever calls waitpid on the child, and access on the
    program when it decodes the exit status: it never kills the child,
    sets no alarm and installs no signal handler, however often waitpid
    is interrupted. *)
Theorem X14_wait_without_timeout_only_waits :
  forall (os : OS) (P : ProcUnix.Platform) (fuel : nat) (Data : Z) (Program : string)
         (ErrMsg : option string) (w : World),
    Forall (plain_wait_call (Word.to_int Data) Program)
      (since w (snd (ProcUnix.Wait os P fuel Data Program 0 ErrMsg w))).
Proof.
  intros os P fuel Data Program ErrMsg w.
  destruct (ProcUnix.Wait os P fuel Data Program 0 ErrMsg w) as [r w'] eqn:H.
  cbn [snd]. revert H. apply all_calls_since.
  unfold ProcUnix.Wait. change (negb (0 =? 0)) with false. cbv iota.
  repeat first [ apply Wait_loop_plain | apply decode_status_plain
               | progress step_calls ].
Qed.

(** ** The file actions of posix_spawn *)


Section FileActions.

Variable os : OS.
Variable P : ProcUnix.Platform.


End FileActions.





(** ** Searching PATH *)

Section FindProgram.

Import FindProgramUnix.

Lemma split_colons_first s :
  split_colons s
  = take (find_colon s) s ::
    match drop (find_colon s) s with
    | EmptyString => []
    | String _ t => split_colons t
    end.
Proof.
  induction s as [|c s IH]; [reflexivity|].
  cbn [split_colons find_colon]. destruct (Ascii.eqb c colon); [reflexivity|].
  rewrite IH. reflexivity.
Qed.

Lemma drop_at_colon s :
  drop (find_colon s) s = EmptyString \/
  exists t, drop (find_colon s) s = String colon t.
Proof.
  induction s as [|c s IH]; [now left|].
  cbn [find_colon]. destruct (Ascii.eqb_spec c colon) as [-> | _].
  - right. now exists s.
  - exact IH.
Qed.

Lemma drop_length s : (String.length (drop (find_colon s) s) <= String.length s)%nat.
Proof.
  induction s as [|c s IH]; [reflexivity|].
  cbn [find_colon]. destruct (Ascii.eqb c colon); cbn [drop String.length]; lia.
Qed.

Lemma skip_colons_length s : (String.length (skip_colons s) <= String.length s)%nat.
Proof.
  induction s as [|c s IH]; [reflexivity|].
  cbn [skip_colons]. destruct (Ascii.eqb c colon); cbn [String.length]; lia.
Qed.

Lemma later_entries t :
  filter (fun d => negb (ProcUnix.is_empty d)) (split_colons t)
  = path_entries (skip_colons t).
Proof.
  induction t as [|c t IH]; [reflexivity|].
  cbn [split_colons skip_colons].
  destruct (Ascii.eqb c colon) eqn:Hc.
  - cbn [filter ProcUnix.is_empty negb]. exact IH.
  - unfold path_entries. cbn [ProcUnix.is_empty split_colons]. rewrite Hc.
    destruct (split_colons t) as [|piece pieces]; reflexivity.
Qed.

Lemma path_entries_step s :
  ProcUnix.is_empty s = false ->
  path_entries s
  = take (find_colon s) s :: path_entries (skip_colons (drop (find_colon s) s)).
Proof.
  intros Hs. unfold path_entries at 1. rewrite Hs, split_colons_first. f_equal.
  destruct (drop_at_colon s) as [-> | (t & ->)]; [reflexivity|].
  cbn [skip_colons]. rewrite Ascii.eqb_refl. apply later_entries.
Qed.

Variable os : OS.
Variable append : string -> string -> string.

Lemma search_is_first_executable progName fuel : forall PathStr w,
  (String.length PathStr < fuel)%nat ->
  search os append fuel progName PathStr w
  = first_executable os (map (fun dir => append dir progName) (path_entries PathStr)) w.
Proof.
  induction fuel as [|fuel IH]; intros PathStr w Hf; [lia|].
  cbn [search]. destruct (ProcUnix.is_empty PathStr) eqn:Hs.
  - unfold path_entries. rewrite Hs. reflexivity.
  - rewrite (path_entries_step _ Hs). cbn [map first_executable].
    unfold bind. destruct (ProcUnix.can_execute os _ w) as [[[|]|h] w1]; try reflexivity.
    apply IH.
    destruct PathStr as [|c s]; [discriminate|].
    pose proof (skip_colons_length (drop (find_colon (String c s)) (String c s))) as H1.
    destruct (drop_at_colon (String c s)) as [E | (t & E)].
    + rewrite E in *. cbn [skip_colons String.length] in *. lia.
    + pose proof (drop_length (String c s)) as H2. rewrite E in *.
      cbn [skip_colons] in *. rewrite Ascii.eqb_refl in *.
      pose proof (skip_colons_length t). cbn [String.length] in *. lia.
Qed.

End FindProgram.

(** X16.  [FindProgramByName] on Unix, for a name without a slash and a
    PATH that is set: the directories of PATH are tried from left to
    right, the candidate of the first one that [can_execute] accepts is
    returned, and the empty string if there is none; nothing else is
    called.  Duplicate and trailing colons name no directory, a leading
    colon names the empty one.  The loop ends within one iteration per
    character of PATH. *)
Theorem X16_path_is_searched_from_left_to_right :
  forall (os : OS) (append : string -> string -> string)
         (progName PathStr : string) (w : World),
    progName <> EmptyString ->
    FindProgramUnix.contains FindProgramUnix.slash progName = false ->
    FindProgramUnix.FindProgramByName os append (S (String.length PathStr))
      (Some PathStr) progName w
    = first_executable os
        (map (fun dir => append dir progName) (path_entries PathStr)) w.
Proof.
  intros os append progName PathStr w Hn Hs.
  unfold FindProgramUnix.FindProgramByName. rewrite Hs.
  destruct progName as [|c p]; [contradiction|]. cbn [String.length Nat.eqb].
  apply search_is_first_executable. lia.
Qed.

Lemma X16_witness :
  path_entries ":/opt/bin::/usr/bin:" = [EmptyString; "/opt/bin"; "/usr/bin"] /\
  FindProgramUnix.FindProgramByName SampleFind.os_one_program SampleFind.join 21
    (Some ":/opt/bin::/usr/bin:") "cc" initial
  = first_executable SampleFind.os_one_program ["cc"; "/opt/bin/cc"; "/usr/bin/cc"] initial /\
  result (FindProgramUnix.FindProgramByName SampleFind.os_one_program SampleFind.join 21
            (Some ":/opt/bin::/usr/bin:") "cc" initial)
  = Ret "/usr/bin/cc".
Proof.
  split; [reflexivity|]. split; [| reflexivity].
  exact (X16_path_is_searched_from_left_to_right SampleFind.os_one_program SampleFind.join
           "cc" ":/opt/bin::/usr/bin:" initial ltac:(discriminate) eq_refl).
Defined.

(** ** The size of a block and the length of its mapping *)

(** X17.  On both backends a block that [allocateMappedMemory] returns
    and that is not the empty block is the mapping its last mmap or
    VirtualAlloc call was answered with: the size recorded in the block
    is the length that call asked for, the address of the block is the
    address the call was answered with, which is not the failure value,
    and the error code is success, with or without a retry and whatever
    the sizes involved.  Conversely, whenever the allocation made a
    mapping call, its result is the one the last of them gives: that
    block, or the empty block with an error of the system category when
    the call failed.  A request for more than zero bytes with flags that
    have a translation makes such a call, except on a POSIX build that
    maps the zero device. *)
Theorem X17_block_size_is_the_mapped_length :
  forall (os : OS) (MF : ProtectionFlags) (cfg : MemUnix.Config)
         (NumBytes : Z) (NearBlock : option MemoryBlock) (Flags : Z)
         (w w' : World) (r : Res (MemoryBlock * error_code)),
    (MemUnix.allocateMappedMemory os MF cfg NumBytes NearBlock Flags w = (r, w') ->
     (forall M ec,
         r = Ret (M, ec) -> M <> empty_block ->
         exists m, last_mapping (transcript os w w') = Some m /\
                   asked_length m = Size M /\
                   answered_address m = Address M /\
                   answered_address m <> MemUnix.MAP_FAILED /\
                   ec = success) /\
     (forall m,
         last_mapping (transcript os w w') = Some m ->
         exists M ec, r = Ret (M, ec) /\ block_of MemUnix.MAP_FAILED m M ec) /\
     (NumBytes <> 0 -> MemUnix.NEED_DEV_ZERO_FOR_MMAP cfg = false ->
      (exists h, r = Stop h) \/
      exists m, last_mapping (transcript os w w') = Some m)) /\
    (MemWin32.allocateMappedMemory os MF NumBytes NearBlock Flags w = (r, w') ->
     (forall M ec,
         r = Ret (M, ec) -> M <> empty_block ->
         exists m, last_mapping (transcript os w w') = Some m /\
                   asked_length m = Size M /\
                   answered_address m = Address M /\
                   answered_address m <> 0 /\
                   ec = success) /\
     (forall m,
         last_mapping (transcript os w w') = Some m ->
         exists M ec, r = Ret (M, ec) /\ block_of 0 m M ec) /\
     (NumBytes <> 0 ->
      (exists h, r = Stop h) \/
      exists m, last_mapping (transcript os w w') = Some m)).
Proof.
  intros os MF cfg NumBytes NearBlock Flags w w' r. split; intros H.
  - destruct (posix_translation_pure MF cfg Flags) as (res & _ & Hres).
    pose proof (observes_transcript _ _ _ _ _ _ _ _ _ None
                  (posix_allocation_observed os MF cfg NumBytes NearBlock Flags
                     res None Hres) H eq_refl) as Hpost.
    fold (last_mapping (transcript os w w')) in Hpost.
    destruct r as [[M0 ec0] | h]; cbn [posix_allocated] in Hpost.
    + destruct Hpost as [(HN & HM & He & Hs)
                        | [(HN & Hdev & HM & He & Hs)
                          | (HN & m & p & Hp & Hs & Hprot & Hb)]].
      * repeat split.
        -- intros M ec E Hne. injection E as <- <-. contradiction.
        -- intros m Hm. rewrite Hs in Hm. discriminate Hm.
        -- intros HN'. contradiction.
      * repeat split.
        -- intros M ec E Hne. injection E as <- <-. contradiction.
        -- intros m Hm. rewrite Hs in Hm. discriminate Hm.
        -- intros _ Hdev'. rewrite Hdev in Hdev'. discriminate Hdev'.
      * repeat split.
        -- intros M ec E Hne. injection E as <- <-. exists m.
           destruct Hb as [(Ha & HM & He) | (_ & HM & _)]; [| contradiction].
           subst M0. cbn [Size Address]. now repeat split.
        -- intros m' Hm. rewrite Hs in Hm. injection Hm as <-.
           now exists M0, ec0.
        -- intros _ _. right. now exists m.
    + destruct Hpost as (Hp & Hs). repeat split.
      * intros M ec E. discriminate E.
      * intros m Hm. rewrite Hs in Hm. discriminate Hm.
      * intros _ _. left. now exists h.
  - destruct (win32_translation_pure MF Flags) as (res & _ & Hres).
    pose proof (observes_transcript _ _ _ _ _ _ _ _ _ None
                  (win32_allocation_observed os MF NumBytes NearBlock Flags
                     res None Hres) H eq_refl) as Hpost.
    fold (last_mapping (transcript os w w')) in Hpost.
    destruct r as [[M0 ec0] | h]; cbn [win32_allocated] in Hpost.
    + destruct Hpost as [(HN & HM & He & Hs)
                        | (HN & m & p & Hp & Hs & Hprot & Hb)].
      * repeat split.
        -- intros M ec E Hne. injection E as <- <-. contradiction.
        -- intros m Hm. rewrite Hs in Hm. discriminate Hm.
        -- intros HN'. contradiction.
      * repeat split.
        -- intros M ec E Hne. injection E as <- <-. exists m.
           destruct Hb as [(Ha & HM & He) | (_ & HM & _)]; [| contradiction].
           subst M0. cbn [Size Address]. now repeat split.
        -- intros m' Hm. rewrite Hs in Hm. injection Hm as <-.
           now exists M0, ec0.
        -- intros _. right. now exists m.
    + destruct Hpost as (Hp & Hs). repeat split.
      * intros M ec E. discriminate E.
      * intros m Hm. rewrite Hs in Hm. discriminate Hm.
      * intros _. left. now exists h.
Qed.

(** X17 at an instance: 5000 bytes for reading and writing, pages of
    4096 bytes, next to a block at 4096.  The hinted mmap call is
    refused, the second maps 8192 bytes at 0x7f0000000000, and that is
    the block returned. *)
Lemma X17_witness :
  MemUnix.allocateMappedMemory Sample.os_refuses_hints llvm_flags Sample.no_dev_zero
    5000 (Some (mkBlock 4096 4096)) Sample.read_write_flags initial
  = (Ret (mkBlock 0x7f0000000000 8192, success),
     record (c_mmap 0 8192 3 34 (-1) 0) 12
       (record (c_mmap 8192 8192 3 34 (-1) 0) 12
          (set_PageSize 4096 (record c_page_size 0 initial)))) /\
  mkBlock 0x7f0000000000 8192 <> empty_block /\
  exists m,
    last_mapping (transcript Sample.os_refuses_hints initial
                    (record (c_mmap 0 8192 3 34 (-1) 0) 12
                       (record (c_mmap 8192 8192 3 34 (-1) 0) 12
                          (set_PageSize 4096 (record c_page_size 0 initial)))))
    = Some m /\
    asked_length m = 8192 /\
    answered_address m = 0x7f0000000000 /\
    answered_address m <> MemUnix.MAP_FAILED /\
    success = success.
Proof.
  split; [reflexivity |]. split; [discriminate |].
  exact (proj1 (proj1 (X17_block_size_is_the_mapped_length
                         Sample.os_refuses_hints llvm_flags Sample.no_dev_zero
                         5000 (Some (mkBlock 4096 4096)) Sample.read_write_flags
                         initial _ _) eq_refl)
           (mkBlock 0x7f0000000000 8192) success eq_refl ltac:(discriminate)).
Defined.

(** ** Changing the protection of a range (Win32) *)

(** X18.  [setRangeWritable] and [setRangeExecutable] of the Win32
    backend, on a page whose protection is one of the six plain ones:
    they flush the instruction cache and then set a protection that
    keeps every permission the page had and adds the one asked for
    (writing, together with reading; executing).  When VirtualQuery
    reports nothing they return false without calling anything. *)
Theorem X18_range_protection_is_only_widened :
  forall (os : OS) (old Addr Size : Z),
    In old plain_protections ->
    widens_protection (MemWin32Range.setRangeWritable os (Some old) Addr Size)
      Addr Size old (mkPerm true true false) /\
    widens_protection (MemWin32Range.setRangeExecutable os (Some old) Addr Size)
      Addr Size old (mkPerm false false true) /\
    (forall w, MemWin32Range.setRangeWritable os None Addr Size w = (Ret false, w)) /\
    (forall w, MemWin32Range.setRangeExecutable os None Addr Size w = (Ret false, w)).
Proof.
  intros os old Addr Size Hold.
  split; [| split; [| split; intros w; reflexivity]]; intros w;
    cbn [In plain_protections] in Hold;
    repeat (destruct Hold as [<- | Hold]); try contradiction;
    eexists;
    (split;
     [ apply since_app;
       unfold MemWin32Range.setRangeWritable, MemWin32Range.setRangeExecutable,
         MemWin32.InvalidateInstructionCache, bind, sys, ret;
       cbn; rewrite <- app_assoc; reflexivity
     | split; reflexivity ]).
Qed.

Lemma X18_witness :
  In MemWin32.PAGE_EXECUTE_READ plain_protections /\
  calls (MemWin32Range.setRangeWritable Sample.os_zero (Some MemWin32.PAGE_EXECUTE_READ)
           4096 8192 initial)
  = [c_FlushInstructionCache 4096 8192;
     c_VirtualProtect 4096 8192 MemWin32.PAGE_EXECUTE_READWRITE] /\
  widens_protection
    (MemWin32Range.setRangeWritable Sample.os_zero (Some MemWin32.PAGE_EXECUTE_READ)
       4096 8192)
    4096 8192 MemWin32.PAGE_EXECUTE_READ (mkPerm true true false).
Proof.
  assert (H : In MemWin32.PAGE_EXECUTE_READ plain_protections)
    by (cbn; tauto).
  split; [exact H|]. split; [reflexivity|].
  exact (proj1 (X18_range_protection_is_only_widened Sample.os_zero
                  MemWin32.PAGE_EXECUTE_READ 4096 8192 H)).
Defined.

(** ** The route of stdout and stderr to one file *)








Section PosixRoute.

Variable os : OS.
Variable P : ProcUnix.Platform.




End PosixRoute.

Section SpawnRoute.

Variable os : OS.
Variable P : ProcUnix.Platform.



End SpawnRoute.

Section Win32Route.

Variable os : OS.
Variable FormatMessage : Z -> string.






End Win32Route.




